(** * SlippiStats: the replay-corpus analysis engine of [statsProcessor.js]

    A shallow embedding of the backend of the SlippiStats desktop
    application (the third document of [src/main.js]): filter resolution,
    per-replay viewpoint and outcome classification ([processSingleReplay]),
    the corpus loop of [analyzeReplays] with its content cache, progress
    events and cooperative cancellation, and the report builder.

    Conventions of the embedding.
    - JavaScript numbers that hold durations, percentages and rates are
      IEEE-754 doubles: they are Rocq's primitive [float]s, with the
      processor's own [+], [/], [*] and [<].  Integer counters (games,
      wins, kills, action counts), which the code only increments or adds
      up, are [Z] (exact, as doubles are below 2^53).
    - Strings are byte strings; [toLowerCase] and [trim] act on the ASCII
      range.
    - A JavaScript object whose key order is observable ([Object.entries],
      the layout of the report) is an association list in insertion order;
      the content cache, only ever looked up by key, is a [gmap].
    - [undefined]/[null] are [None], except among the final percentages,
      which [<] reads differently: there a value is a number, [null] or
      [undefined] ([Js.value]).
    - The cache file is written with [JSON.stringify] and read with
      [JSON.parse]: what a call reads is the image [json_cache] of what
      the previous call wrote.
    - Effects are explicit: the loop threads a [Run] record holding the
      accumulators, the cache, the cancellation flag and the list of events
      sent to the window. *)

From Stdlib Require Import ZArith Ascii String List Bool Uint63.
From Stdlib Require Import Floats.PrimFloat Floats.FloatOps Floats.SpecFloat Floats.FloatAxioms.
From Stdlib Require Import DecimalString Sorting.Sorted.
From stdpp Require Import base option gmap strings list.

Local Open Scope string_scope.
Local Open Scope Z_scope.

(* ===================================================================== *)
(** * JavaScript primitives                                               *)
(* ===================================================================== *)

Module Js.

(** ** Strings *)

(** [c.toLowerCase()] on one ASCII character. *)
Definition lower_ascii (c : ascii) : ascii :=
  let n := nat_of_ascii c in
  if ((65 <=? n)%nat && (n <=? 90)%nat)%bool then ascii_of_nat (n + 32) else c.

(** [s.toLowerCase()] *)
Fixpoint toLowerCase (s : string) : string :=
  match s with
  | EmptyString => EmptyString
  | String c r => String (lower_ascii c) (toLowerCase r)
  end.

(** White space removed by [trim]: tab, LF, VT, FF, CR and space. *)
Definition is_space (c : ascii) : bool :=
  let n := nat_of_ascii c in
  (((9 <=? n)%nat && (n <=? 13)%nat) || (n =? 32)%nat)%bool.

Fixpoint trimStart (s : string) : string :=
  match s with
  | String c r => if is_space c then trimStart r else s
  | EmptyString => EmptyString
  end.

(** Drops the trailing white space: a character is kept when it is not a
    space or when something is kept after it. *)
Fixpoint trimEnd (s : string) : string :=
  match s with
  | EmptyString => EmptyString
  | String c r =>
      match trimEnd r with
      | EmptyString => if is_space c then EmptyString else String c EmptyString
      | r' => String c r'
      end
  end.

(** [s.trim()] *)
Definition trim (s : string) : string := trimEnd (trimStart s).

(** [s.startsWith(p)] *)
Definition startsWith (s p : string) : bool := String.prefix p s.

(** [s.includes(p)]: [p] occurs in [s] as a substring. *)
Fixpoint includes (s p : string) : bool :=
  (String.prefix p s ||
   match s with
   | EmptyString => false
   | String _ r => includes r p
   end)%bool.

(** Truthiness of a string: non-empty. *)
Definition truthy_string (s : string) : bool :=
  match s with EmptyString => false | _ => true end.

(** [a || b] on possibly-undefined strings with a string default. *)
Definition or_string (a : option string) (b : string) : string :=
  match a with
  | Some s => if truthy_string s then s else b
  | None => b
  end.

(** [a.indexOf(x)] on an array of strings: [None] is -1. *)
Fixpoint indexOf (a : list string) (x : string) : option nat :=
  match a with
  | [] => None
  | y :: r => if String.eqb y x then Some O else option_map S (indexOf r x)
  end.

(** ** Integers *)

(** [x || 0] on a possibly-undefined integer. *)
Definition or0 (x : option Z) : Z := default 0 x.

(** Decimal rendering of an integer, as [String(n)] for [|n| < 1e21]. *)
Definition string_of_Z (z : Z) : string := NilZero.string_of_int (Z.to_int z).

(** ** Doubles *)

(** The double nearest to an integer (exact for [|z| < 2^53]). *)
Definition of_Z (z : Z) : float :=
  if z <? 0 then PrimFloat.opp (PrimFloat.of_uint63 (Uint63.of_Z (- z)))
  else PrimFloat.of_uint63 (Uint63.of_Z z).

(** Truthiness of a number: neither NaN nor a zero. *)
Definition truthy_num (x : float) : bool :=
  negb (PrimFloat.is_nan x || PrimFloat.is_zero x).

(** [x || 0] on a number. *)
Definition or_zero (x : float) : float :=
  if truthy_num x then x else PrimFloat.zero.

(** The integer part, rounded towards minus infinity, of [±m·2^e]. *)
Definition floor_parts (s : bool) (m : positive) (e : Z) : Z :=
  let v := if 0 <=? e then Z.pos m * 2 ^ e else Z.pos m / 2 ^ (- e) in
  if s then
    (if (0 <=? e) || (Z.pos m mod 2 ^ (- e) =? 0) then - v else - v - 1)
  else v.

(** [Math.floor(x)]: NaN, the infinities and the zeros are returned as
    they are; so is a finite double with a non-negative exponent, which
    is an integer already. *)
Definition floor (x : float) : float :=
  match Prim2SF x with
  | S754_finite s m e =>
      if 0 <=? e then x
      else
        of_Z (floor_parts s m e)
  | _ => x
  end.

(** [x % y] for a finite positive integer divisor [y]: the remainder has
    the sign of the dividend and is exact. *)
Definition rem (x : float) (y : Z) : float :=
  match Prim2SF x with
  | S754_finite s m e =>
      let r :=
        if 0 <=? e then of_Z ((Z.pos m * 2 ^ e) mod y)
        else FloatOps.Z.ldexp (of_Z (Z.pos m mod (y * 2 ^ (- e)))) e in
      if s then PrimFloat.opp r else r
  | S754_zero _ => x
  | _ => PrimFloat.nan
  end.

(** The integer [n] for which [n / 100] is closest to [m·2^e], the
    larger one on a tie (step 6 of [Number.prototype.toFixed]). *)
Definition nearest_hundredth (m : positive) (e : Z) : Z :=
  if 0 <=? e then 100 * Z.pos m * 2 ^ e
  else (200 * Z.pos m + 2 ^ (- e)) / (2 * 2 ^ (- e)).

Definition digit (z : Z) : ascii := ascii_of_nat (48 + Z.to_nat z).

(** The digits of [n] with the point two places from the right. *)
Definition fixed2_of (n : Z) : string :=
  string_of_Z (n / 100) ++
  String "." (String (digit ((n / 10) mod 10)) (String (digit (n mod 10)) EmptyString)).

(** [x.toFixed(2)], for [|x| < 1e21] (larger magnitudes print in
    exponent notation, which no number of the processor reaches). *)
Definition toFixed2 (x : float) : string :=
  match Prim2SF x with
  | S754_nan => "NaN"
  | S754_infinity s => if s then "-Infinity" else "Infinity"
  | S754_zero _ => "0.00"
  | S754_finite s m e =>
      (if s then "-" else "") ++ fixed2_of (nearest_hundredth m e)
  end.

(** [String(Math.floor(x))] inside a template literal, for [|x| < 1e21]. *)
Definition string_of_floor (x : float) : string :=
  match Prim2SF x with
  | S754_nan => "NaN"
  | S754_infinity s => if s then "-Infinity" else "Infinity"
  | S754_zero _ => "0"
  | S754_finite s m e => string_of_Z (floor_parts s m e)
  end.

Definition is_digit (c : ascii) : bool :=
  let n := nat_of_ascii c in ((48 <=? n)%nat && (n <=? 57)%nat)%bool.

(** ["0".repeat(k)] is a prefix of [s] and two digits follow it. *)
Fixpoint zeros_then_two_digits (k : nat) (s : string) : bool :=
  match k, s with
  | O, String a (String b _) => (is_digit a && is_digit b)%bool
  | S k', String "0"%char r => zeros_then_two_digits k' r
  | _, _ => false
  end.

Fixpoint drop (k : nat) (s : string) : string :=
  match k, s with
  | S k', String _ r => drop k' r
  | _, _ => s
  end.

(** The greedy search of [/^0+(\d\d)/]: the longest run of [k >= 1]
    leading zeros that still leaves two digits behind it. *)
Fixpoint longest_zero_run (k : nat) (s : string) : option nat :=
  match k with
  | O => None
  | S k' => if zeros_then_two_digits k s then Some k else longest_zero_run k' s
  end.

(** [s.replace(/^0+(\d\d)/, "$1")] *)
Definition strip_leading_zeros (s : string) : string :=
  match longest_zero_run (String.length s) s with
  | Some k => drop k s
  | None => s
  end.

(** ** Numbers that may be missing *)

(** What an array element that should be a number can be: a number,
    [null], or [undefined]. *)
Inductive value :=
| Num (x : float)
| Null
| Undefined.

(** [ToNumber], which [<] applies to both operands: [null] is 0 and
    [undefined] is NaN. *)
Definition toNumber (v : value) : float :=
  match v with
  | Num x => x
  | Null => PrimFloat.zero
  | Undefined => PrimFloat.nan
  end.

(** What [JSON.parse(JSON.stringify(x))] reads back for a number [x]:
    [None], that is [null], for NaN and the infinities; +0 for both
    zeros; any other double as it is (the decimal that [JSON.stringify]
    prints is the shortest one that reads back as the same double). *)
Definition json_number (x : float) : option float :=
  match Prim2SF x with
  | S754_nan | S754_infinity _ => None
  | S754_zero _ => Some PrimFloat.zero
  | S754_finite _ _ _ => Some x
  end.

(** The same for an element of an array, where [undefined] is written as
    [null] too. *)
Definition json_value (v : value) : value :=
  match v with
  | Num x => match json_number x with Some y => Num y | None => Null end
  | Null | Undefined => Null
  end.

(** ** Objects with observable key order *)

Section Obj.
Context {V : Type}.

(** [o[k]] *)
Fixpoint get (k : string) (o : list (string * V)) : option V :=
  match o with
  | [] => None
  | (k', v) :: r => if String.eqb k' k then Some v else get k r
  end.

(** [o[k] = v]: an existing key keeps its place, a new one goes last. *)
Fixpoint set (k : string) (v : V) (o : list (string * V)) : list (string * V) :=
  match o with
  | [] => [(k, v)]
  | (k', v') :: r =>
      if String.eqb k' k then (k', v) :: r else (k', v') :: set k v r
  end.

(** [Object.keys(o)] *)
Definition keys (o : list (string * V)) : list string := map fst o.
End Obj.

(** ** [Array.prototype.sort((a, b) => key(b) - key(a))]

    The sort is stable (ECMAScript 2019): an insertion sort that moves an
    element only past strictly larger keys computes it. *)
Section Sort.
Context {A : Type} (key : A -> Z).

Fixpoint insert_desc (x : A) (l : list A) : list A :=
  match l with
  | [] => [x]
  | y :: r => if key x <? key y then y :: insert_desc x r else x :: y :: r
  end.

Definition sort_desc (l : list A) : list A := foldr insert_desc [] l.
End Sort.

End Js.

(* ===================================================================== *)
(** * Lookup tables                                                       *)
(* ===================================================================== *)

(** Characters indexed by the decoder's character id. *)
Definition characters : list string :=
  [ "Captain Falcon"; "Donkey Kong"; "Fox"; "Mr. Game & Watch"; "Kirby";
    "Bowser"; "Link"; "Luigi"; "Mario"; "Marth"; "Mewtwo"; "Ness"; "Peach";
    "Pikachu"; "Ice Climbers"; "Jigglypuff"; "Samus"; "Yoshi"; "Zelda";
    "Sheik"; "Falco"; "Young Link"; "Dr. Mario"; "Roy"; "Pichu"; "Ganondorf";
    "Master Hand"; "Male Wireframe"; "Female Wireframe"; "Giga Bowser";
    "Crazy Hand"; "Sandbag"; "Popo"; "Unknown" ].

Definition characters_lowercase : list string := map Js.toLowerCase characters.

(** Stages indexed by the decoder's stage id; [None] is a [null] slot. *)
Definition stages : list (option string) :=
  [ None; None; Some "Fountain of Dreams"; Some "Pokémon Stadium";
    Some "Princess Peach's Castle"; Some "Kongo Jungle"; Some "Brinstar";
    Some "Corneria"; Some "Yoshi's Story"; Some "Onett"; Some "Mute City";
    Some "Rainbow Cruise"; Some "Jungle Japes"; Some "Great Bay";
    Some "Hyrule Temple"; Some "Brinstar Depths"; Some "Yoshi's Island";
    Some "Green Greens"; Some "Fourside"; Some "Mushroom Kingdom I";
    Some "Mushroom Kingdom II"; None; Some "Venom"; Some "Poké Floats";
    Some "Big Blue"; Some "Icicle Mountain"; Some "Icetop"; Some "Flat Zone";
    Some "Dream Land N64"; Some "Yoshi's Island N64"; Some "Kongo Jungle N64";
    Some "Battlefield"; Some "Final Destination" ].

(** Match-id prefixes, in the order [for (const prefix in modes)] visits. *)
Definition modes : list (string * string) :=
  [ ("mode.ranked", "Ranked"); ("mode.unranked", "Unranked"); ("mode.direct", "Direct") ].

(** [a[i]] on a table indexed by a number that may be missing, negative or
    past the end: all of these read [undefined]. *)
Definition at_index {A : Type} (a : list A) (i : option Z) : option A :=
  match i with
  | Some z => if z <? 0 then None else a !! Z.to_nat z
  | None => None
  end.

(** [stages[id]], truthy only for a named stage. *)
Definition stage_at (id : option Z) : option string :=
  match at_index stages id with
  | Some (Some name) => Some name
  | _ => None
  end.

(** [characters[id] || "Unknown"] *)
Definition character_name (id : option Z) : string :=
  Js.or_string (at_index characters id) "Unknown".

(* ===================================================================== *)
(** * Data model                                                          *)
(* ===================================================================== *)

(** ** What the external decoder yields *)

(** [metadata.players[i].names] *)
Record Names := { netplay : option string; code : option string }.
Record MetaPlayer := { names : option Names }.

(** [settings.players[i]]; a [null] slot reads like a missing id. *)
Record PlayerSettings := { characterId : option Z }.

Record Settings := {
  stageId : option Z;
  players : option (list PlayerSettings);
  matchId : option string            (* settings.matchInfo?.matchId *)
}.

Record LCancelCount := { lc_success : option Z; lc_fail : option Z }.
Record GroundTechCount :=
  { gt_away : option Z; gt_in : option Z; gt_neutral : option Z; gt_fail : option Z }.
Record ThrowCount :=
  { th_up : option Z; th_down : option Z; th_forward : option Z; th_back : option Z }.

Record ActionCounts := {
  lCancelCount : option LCancelCount;
  wavedashCount : option Z;
  rollCount : option Z;
  ledgegrabCount : option Z;
  dashDanceCount : option Z;
  groundTechCount : option GroundTechCount;
  throwCount : option ThrowCount
}.

Record Stats := {
  overall : option (list (option Z));     (* overall[i]?.killCount *)
  actionCounts : option (list ActionCounts)
}.

(** The record cached per content hash (lines 569-577). *)
Record GameData := {
  gd_hash : option string;
  gd_file : string;
  gd_settings : option Settings;
  gd_metadata : option (list MetaPlayer);   (* metadata?.players *)
  gd_stats : option Stats;
  gd_total_seconds : float;
  gd_latestFramePercents : list Js.value
}.

(** ** Filters *)

(** The value of [resolveCharacterFilter]: [{ num, name }]. *)
Record CharacterFilter := { num : nat; name : string }.

Record Filters := {
  wantedPlayersLower : list string;
  wantedOpponentLower : list string;
  ignoredOpponentsLower : list string;
  playerCharacterFilter : option CharacterFilter;
  opponentCharacterFilter : option CharacterFilter;
  rankedOnly : bool
}.

(** ** The value of [processSingleReplay] *)

Record Identity := {
  tagLower : option (list string);
  displayName : string;
  connectCode : string
}.

(** The fully populated [data] object (lines 421-440). *)
Record MatchData := {
  res_total_games : Z;
  res_total_wins : Z;
  res_total_seconds : float;
  res_game_seconds : float;
  player_character_num : option Z;
  player_character_name : string;
  opponent_character_num : option Z;
  opponent_character_name : string;
  stage_num : option Z;               (* null, or a number in range *)
  stage_name : string;
  player_index : nat;
  player_name : string;
  player_code : string;
  opponent_index : nat;
  opponent_name : string;
  opponent_code : string
}.

Inductive Result :=
| RNull                                (* return null *)
| RPartial (total_seconds : float)     (* { total_seconds, game_seconds: 0 } *)
| RData (d : MatchData).

(* ===================================================================== *)
(** * Helper functions (lines 150-227)                                    *)
(* ===================================================================== *)

(** [getMatchType(matchId)] *)
Definition getMatchType (matchId : string) : string :=
  if negb (Js.truthy_string matchId) then "Unknown"
  else
    match List.find (fun pm => Js.startsWith matchId (fst pm)) modes with
    | Some pm => snd pm
    | None => "Unknown"
    end.

(** [[a, b].filter(Boolean)] on strings. *)
Definition filter_truthy (l : list string) : list string :=
  List.filter Js.truthy_string l.

(** [extractIdentity(metaPlayer)] *)
Definition extractIdentity (metaPlayer : option MetaPlayer) : Identity :=
  match metaPlayer with
  | Some {| names := Some n |} =>
      let displayName := Js.or_string (netplay n) "" in
      let connectCode := Js.or_string (code n) "" in
      {| tagLower := Some (filter_truthy [Js.toLowerCase displayName; Js.toLowerCase connectCode]);
         displayName := displayName;
         connectCode := connectCode |}
  | _ => {| tagLower := None; displayName := ""; connectCode := "" |}
  end.

(** [tags.some(playerTag => list.some(req => playerTag.includes(req)))] *)
Definition some_includes (tags wanted : list string) : bool :=
  existsb (fun playerTag => existsb (fun req => Js.includes playerTag req) wanted) tags.

(** [matchesAnyTag(identity, wantedListLower)] *)
Definition matchesAnyTag (identity : Identity) (wantedListLower : list string) : bool :=
  match wantedListLower with
  | [] => true
  | _ =>
      match tagLower identity with
      | None | Some [] => false
      | Some tags => some_includes tags wantedListLower
      end
  end.

(** [isIgnoredOpponent(identity, ignoredLower)] *)
Definition isIgnoredOpponent (identity : Identity) (ignoredLower : list string) : bool :=
  match ignoredLower with
  | [] => false
  | _ =>
      match tagLower identity with
      | None | Some [] => false
      | Some tags => some_includes tags ignoredLower
      end
  end.

(** [resolveCharacterFilter(requestedCharLower)]: [None] is [null]. *)
Definition resolveCharacterFilter (requestedCharLower : option string) : option CharacterFilter :=
  match requestedCharLower with
  | None => None
  | Some s =>
      if negb (Js.truthy_string s) then None
      else
        match Js.indexOf characters_lowercase (Js.toLowerCase s) with
        | None => None
        | Some idx => Some {| num := idx; name := default "" (characters !! idx) |}
        end
  end.

(* ===================================================================== *)
(** * Single replay analysis: [processSingleReplay] (lines 267-452)       *)
(* ===================================================================== *)

(** How a block of the function body ends: it falls through with a value,
    executes [return r], or raises (a [TypeError] on a [null] object). *)
Inductive Flow (A : Type) :=
| Proceed (a : A)
| Return (r : Result)
| Throw.
Arguments Proceed {A} a.
Arguments Return {A} r.
Arguments Throw {A}.

(** Lines 311-348: which participant is "you".  The value is
    [(playerIndex, opponentIndex)]; [None] is the [else] branch that
    returns the partial object. *)
Definition viewpoint (F : Filters) (p0 p1 : Identity) : option (nat * nat) :=
  let p0MatchesYou := matchesAnyTag p0 (wantedPlayersLower F) in
  let p1MatchesYou := matchesAnyTag p1 (wantedPlayersLower F) in
  let p0MatchesOppFilter := matchesAnyTag p0 (wantedOpponentLower F) in
  let p1MatchesOppFilter := matchesAnyTag p1 (wantedOpponentLower F) in
  match wantedOpponentLower F with
  | _ :: _ =>
      if p0MatchesYou && p1MatchesOppFilter then Some (0%nat, 1%nat)
      else if p1MatchesYou && p0MatchesOppFilter then Some (1%nat, 0%nat)
      else None
  | [] =>
      if p0MatchesYou && negb p1MatchesYou then Some (0%nat, 1%nat)
      else if p1MatchesYou && negb p0MatchesYou then Some (1%nat, 0%nat)
      else if p0MatchesYou && p1MatchesYou then Some (0%nat, 1%nat)
      else None
  end.

(** [filter && filter.num !== charId] *)
Definition character_mismatch (f : option CharacterFilter) (charId : option Z) : bool :=
  match f with
  | None => false
  | Some cf =>
      match charId with
      | Some c => negb (Z.of_nat (num cf) =? c)
      | None => true
      end
  end.

(** Lines 283-287: [extractIdentity(playersMeta[i])] and the match type. *)
Definition participant (gameData : GameData) (i : nat) : Identity :=
  extractIdentity (default [] (gd_metadata gameData) !! i).

Definition matchType_of (gameData : GameData) : string :=
  getMatchType (Js.or_string (gd_settings gameData ≫= matchId) "").

(** What lines 282-386 establish for a replay that is not turned away. *)
Record Sides := {
  playerIndex : nat;
  opponentIndex : nat;
  playerIdentity : Identity;
  opponentIdentity : Identity;
  playerCharId : option Z;
  oppCharId : option Z;
  sides_settings : Settings
}.

(** Lines 282-386: ranked gate, participants, viewpoint, ignore list and
    character filters. *)
Definition resolveSides (F : Filters) (gameData : GameData) : Flow Sides :=
  let total_seconds := gd_total_seconds gameData in
  let partial := Return (RPartial total_seconds) in
  let playersMeta := default [] (gd_metadata gameData) in
  let p0 := participant gameData 0 in
  let p1 := participant gameData 1 in
  let matchType := matchType_of gameData in
  if rankedOnly F && negb (String.eqb matchType "Ranked") then partial
  else if negb (Js.truthy_string (displayName p0)) || negb (Js.truthy_string (displayName p1))
  then Return RNull
  else if (length playersMeta <? 2)%nat then partial
  else
    match gd_settings gameData with
    | None => Throw                                   (* settings.players on null *)
    | Some settings =>
        match players settings with
        | None => partial
        | Some ps =>
            if (length ps <? 2)%nat then partial
            else
              match viewpoint F p0 p1 with
              | None => partial
              | Some (playerIndex, opponentIndex) =>
                  let playerIdentity := if (playerIndex =? 0)%nat then p0 else p1 in
                  let opponentIdentity := if (opponentIndex =? 0)%nat then p0 else p1 in
                  if isIgnoredOpponent opponentIdentity (ignoredOpponentsLower F) then partial
                  else
                    let playerCharId := ps !! playerIndex ≫= characterId in
                    let oppCharId := ps !! opponentIndex ≫= characterId in
                    if character_mismatch (playerCharacterFilter F) playerCharId then partial
                    else if character_mismatch (opponentCharacterFilter F) oppCharId then partial
                    else
                      Proceed
                        {| playerIndex := playerIndex;
                           opponentIndex := opponentIndex;
                           playerIdentity := playerIdentity;
                           opponentIdentity := opponentIdentity;
                           playerCharId := playerCharId;
                           oppCharId := oppCharId;
                           sides_settings := settings |}
              end
        end
    end.

(** [stats?.overall?.[i]?.killCount || 0] *)
Definition killCount (gameData : GameData) (i : nat) : Z :=
  match gd_stats gameData with
  | Some {| overall := Some o |} => Js.or0 (mjoin (o !! i))
  | _ => 0
  end.

(** [a < b] on two elements of an array of numbers.  An index beyond the
    end reads [undefined]; [<] turns both operands into numbers and is
    false as soon as one of them is NaN. *)
Definition lt_num (a b : option Js.value) : bool :=
  PrimFloat.ltb (Js.toNumber (default Js.Undefined a)) (Js.toNumber (default Js.Undefined b)).

(** [Math.floor(total_seconds || 0)] *)
Definition game_seconds_of (gameData : GameData) : float :=
  Js.floor (Js.or_zero (gd_total_seconds gameData)).

(** Lines 409-411 *)
Definition didWin (gameData : GameData) (playerIndex opponentIndex : nat) : bool :=
  let latestPercPlayer := gd_latestFramePercents gameData !! playerIndex in
  let latestPercOpp := gd_latestFramePercents gameData !! opponentIndex in
  let playerKills := killCount gameData playerIndex in
  let opponentKills := killCount gameData opponentIndex in
  let moreKills := opponentKills <? playerKills in
  let lowerPercent := (playerKills =? opponentKills) && lt_num latestPercPlayer latestPercOpp in
  moreKills || lowerPercent.

(** Lines 414-417: [Number(settings?.stageId)], [null] when it is NaN or
    outside the table. *)
Definition checked_stageId (settings : Settings) : option Z :=
  match stageId settings with
  | Some z => if (z <? 0) || (Z.of_nat (length stages) <=? z) then None else Some z
  | None => None
  end.

(** Lines 388-442: duration and kill validation, outcome, stage, and the
    populated [data] object. *)
Definition classify (gameData : GameData) (sd : Sides) : Flow MatchData :=
  let total_seconds := gd_total_seconds gameData in
  let partial := Return (RPartial total_seconds) in
  let playerKills := killCount gameData (playerIndex sd) in
  let opponentKills := killCount gameData (opponentIndex sd) in
  let game_seconds := game_seconds_of gameData in
  if PrimFloat.ltb game_seconds 30%float then partial
  else if (playerKills =? 0) && (opponentKills =? 0) then partial
  else
    let stageId := checked_stageId (sides_settings sd) in
    Proceed
      {| res_total_games := 1;
         res_total_wins := if didWin gameData (playerIndex sd) (opponentIndex sd) then 1 else 0;
         res_total_seconds := total_seconds;
         res_game_seconds := game_seconds;
         player_character_num := playerCharId sd;
         player_character_name := character_name (playerCharId sd);
         opponent_character_num := oppCharId sd;
         opponent_character_name := character_name (oppCharId sd);
         stage_num := stageId;
         stage_name := Js.or_string (stage_at stageId) "Unknown Stage";
         player_index := playerIndex sd;
         player_name := Js.or_string (Some (displayName (playerIdentity sd))) "";
         player_code := Js.or_string (Some (connectCode (playerIdentity sd))) "";
         opponent_index := opponentIndex sd;
         opponent_name := Js.or_string (Some (displayName (opponentIdentity sd))) "";
         opponent_code := Js.or_string (Some (connectCode (opponentIdentity sd))) "" |}.

(** The body of the [try] block. *)
Definition processSingleReplay_body (F : Filters) (gameData : GameData) : Flow MatchData :=
  match resolveSides F gameData with
  | Proceed sd => classify gameData sd
  | Return r => Return r
  | Throw => Throw
  end.

(** [processSingleReplay({ file, gameData, ...filters })]; the [catch]
    clause answers [{ total_seconds: gameData?.total_seconds || 0,
    game_seconds: 0 }]. *)
Definition processSingleReplay (F : Filters) (gameData : GameData) : Result :=
  match processSingleReplay_body F gameData with
  | Proceed data => RData data
  | Return r => r
  | Throw => RPartial (Js.or_zero (gd_total_seconds gameData))
  end.

(* ===================================================================== *)
(** * The corpus loop of [analyzeReplays] (lines 455-764)                 *)
(* ===================================================================== *)

(** ** Inputs from the outside world *)

(** [game.getLatestFrame()] *)
Record LatestFrame := {
  frame : option Z;
  frame_percents : option (list Js.value)   (* players[].post.percent *)
}.

(** What [new SlippiGame(file)] and its four getters yield. *)
Record Decoded := {
  dec_settings : option Settings;
  dec_metadata : option (list MetaPlayer);
  dec_stats : option Stats;
  dec_latestFrame : option LatestFrame
}.

(** One replay file of the folder: its path, the MD5 hex digest of its
    bytes ([None] when [hashReplayFile] answers [null]) and the outcome of
    decoding it ([None] when the decoder raises). *)
Record File := {
  path : string;
  digest : option string;
  decoded : option Decoded
}.

(** The [options] argument. *)
Record Options := {
  playerTags : list string;
  opponentTags : list string;
  ignoredOpponents : list string;
  playerCharacter : option string;
  opponentCharacter : option string;
  opt_rankedOnly : bool
}.

(** The world around one call: the sorted [glob] result, whether
    [BrowserWindow.getAllWindows()[0]] exists, and, for each iteration [i],
    whether the [cancel-analysis] handler runs while the loop is suspended
    in its [await] (line 538) - the only point where the event loop can
    run it. *)
Record World := {
  files : list File;
  win : bool;
  cancelDuringYield : nat -> bool
}.

(** Messages sent to the window. *)
Inductive Event :=
| Cancelled                                   (* progress-update { cancelled: true } *)
| Progress (processed total : nat)            (* progress-update { processed, total } *)
| MatchLog (p1 p2 stage : string) (userWon : bool).   (* match-log *)

(** ** Accumulators *)

Record Cell := { games : Z; wins : Z; totalSeconds : float }.

Record Throws := { up : Z; down : Z; forward : Z; back : Z }.

Record Misc := {
  lCancelSuccessTotal : Z;
  lCancelFailTotal : Z;
  wavedashTotal : Z;
  rollTotal : Z;
  ledgegrabTotal : Z;
  dashDanceTotal : Z;
  techSuccessTotal : Z;
  techFailTotal : Z;
  totalStocksTaken : Z;
  totalStocksLost : Z;
  throwCounts : Throws;
  currentStreak : Z;
  bestWinStreak : Z
}.

(** The aggregates of lines 477-511, and [matchups], which [var] hoists to
    the function and leaves [undefined] until line 641 first runs.  The
    nickname, code and opponent tables and [character_head_to_head] are
    declared there too but never written; they appear as constants in the
    report builder. *)
Record Aggregates := {
  total_games : Z;
  total_wins : Z;
  total_seconds : float;
  counted_seconds : float;
  characterPlaytime : list (string * float);
  misc : Misc;
  stage_totals : list (string * Z);
  stage_wins : list (string * Z);
  stage_playtime : list (string * float);
  matchups : option (list (string * list (string * Cell)))
}.

(** Everything the loop mutates. *)
Record Run := {
  agg : Aggregates;
  skippedCount : Z;
  new_replays : Z;
  cache : gmap string GameData;       (* cache.results *)
  cancelRequested : bool;
  sent : list Event;                  (* oldest first *)
  decodeCalls : nat                   (* number of [new SlippiGame(file)] *)
}.

Definition set_agg (a : Aggregates) (st : Run) : Run :=
  {| agg := a; skippedCount := skippedCount st; new_replays := new_replays st;
     cache := cache st; cancelRequested := cancelRequested st; sent := sent st;
     decodeCalls := decodeCalls st |}.

(** [skippedCount++] *)
Definition skip (st : Run) : Run :=
  {| agg := agg st; skippedCount := skippedCount st + 1; new_replays := new_replays st;
     cache := cache st; cancelRequested := cancelRequested st; sent := sent st;
     decodeCalls := decodeCalls st |}.

(** [win.webContents.send(...)] *)
Definition send (e : Event) (st : Run) : Run :=
  {| agg := agg st; skippedCount := skippedCount st; new_replays := new_replays st;
     cache := cache st; cancelRequested := cancelRequested st; sent := sent st ++ [e];
     decodeCalls := decodeCalls st |}.

(** The event loop runs while the function awaits [setImmediate]. *)
Definition yield (W : World) (i : nat) (st : Run) : Run :=
  {| agg := agg st; skippedCount := skippedCount st; new_replays := new_replays st;
     cache := cache st;
     cancelRequested := cancelRequested st || cancelDuringYield W i;
     sent := sent st; decodeCalls := decodeCalls st |}.

(** ** Obtaining the game data of a file (lines 544-583) *)

(** [hashReplayFile(filePath)] (lines 230-238) *)
Definition hashReplayFile (file : File) : option string := digest file.

(** The hash where the loop tests it, [hash && ...]: a non-empty string. *)
Definition usable_hash (file : File) : option string :=
  match hashReplayFile file with
  | Some hash => if Js.truthy_string hash then Some hash else None
  | None => None
  end.

(** Lines 555-577 *)
Definition gameData_of (file : File) (d : Decoded) : GameData :=
  let latestFrame := dec_latestFrame d in
  let frameIndex := default 0 (latestFrame ≫= frame) in
  let total_seconds := PrimFloat.div (Js.of_Z frameIndex) 60%float in
  let latestFramePercents :=
    match latestFrame ≫= frame_percents with
    | Some ps => ps
    | None => [Js.Num 999%float; Js.Num 999%float]
    end in
  {| gd_hash := hashReplayFile file;
     gd_file := path file;
     gd_settings := dec_settings d;
     gd_metadata := dec_metadata d;
     gd_stats := dec_stats d;
     gd_total_seconds := total_seconds;
     gd_latestFramePercents := latestFramePercents |}.

(** [hash && cache.results[hash]] *)
Definition cached (file : File) (st : Run) : option GameData :=
  match usable_hash file with
  | Some hash => cache st !! hash
  | None => None
  end.

(** A cache miss that decodes: the decoder is called, and the result is
    stored when the file could be hashed. *)
Definition store (file : File) (gameData : GameData) (st : Run) : Run :=
  match usable_hash file with
  | Some hash =>
      {| agg := agg st; skippedCount := skippedCount st; new_replays := new_replays st + 1;
         cache := <[hash := gameData]> (cache st);
         cancelRequested := cancelRequested st; sent := sent st;
         decodeCalls := S (decodeCalls st) |}
  | None =>
      {| agg := agg st; skippedCount := skippedCount st; new_replays := new_replays st;
         cache := cache st; cancelRequested := cancelRequested st; sent := sent st;
         decodeCalls := S (decodeCalls st) |}
  end.

(** A decoder call that raises. *)
Definition failed_decode (st : Run) : Run :=
  {| agg := agg st; skippedCount := skippedCount st; new_replays := new_replays st;
     cache := cache st; cancelRequested := cancelRequested st; sent := sent st;
     decodeCalls := S (decodeCalls st) |}.

(** Lines 544-583: [None] when the decoder raised. *)
Definition acquire (file : File) (st : Run) : option GameData * Run :=
  match cached file st with
  | Some gameData => (Some gameData, st)
  | None =>
      match decoded file with
      | Some d => let gameData := gameData_of file d in (Some gameData, store file gameData st)
      | None => (None, failed_decode st)
      end
  end.

(** ** Folding one qualifying match into the aggregates (lines 613-737) *)

(** [result.x] used as a condition, for the 0/1 win flag. *)
Definition truthy_Z (z : Z) : bool := negb (z =? 0).

(** [if (!o[k]) o[k] = 0] on a table of counters. *)
Definition init_count (k : string) (o : list (string * Z)) : list (string * Z) :=
  if truthy_Z (Js.or0 (Js.get k o)) then o else Js.set k 0 o.

(** [o[k]++] on a key that holds a number. *)
Definition incr (k : string) (o : list (string * Z)) : list (string * Z) :=
  Js.set k (Js.or0 (Js.get k o) + 1) o.

(** [if (!o[k]) o[k] = 0] on a table of durations. *)
Definition init_time (k : string) (o : list (string * float)) : list (string * float) :=
  match Js.get k o with
  | Some x => if Js.truthy_num x then o else Js.set k PrimFloat.zero o
  | None => Js.set k PrimFloat.zero o
  end.

(** [o[k] += x] on a key that holds a number. *)
Definition add_time (k : string) (x : float) (o : list (string * float)) : list (string * float) :=
  Js.set k (PrimFloat.add (default PrimFloat.zero (Js.get k o)) x) o.

(** Lines 614-617 *)
Definition add_totals (result : MatchData) (a : Aggregates) : Aggregates :=
  {| total_games := total_games a + res_total_games result;
     total_wins := total_wins a + res_total_wins result;
     total_seconds := PrimFloat.add (total_seconds a) (Js.or_zero (res_total_seconds result));
     counted_seconds := PrimFloat.add (counted_seconds a) (Js.or_zero (res_game_seconds result));
     characterPlaytime := characterPlaytime a;
     misc := misc a;
     stage_totals := stage_totals a;
     stage_wins := stage_wins a;
     stage_playtime := stage_playtime a;
     matchups := matchups a |}.

(** Lines 633-639 *)
Definition add_stage (stageName : string) (result : MatchData) (a : Aggregates) : Aggregates :=
  let wins0 := init_count stageName (stage_wins a) in
  {| total_games := total_games a;
     total_wins := total_wins a;
     total_seconds := total_seconds a;
     counted_seconds := counted_seconds a;
     characterPlaytime := characterPlaytime a;
     misc := misc a;
     stage_totals := incr stageName (init_count stageName (stage_totals a));
     stage_wins := if truthy_Z (res_total_wins result) then incr stageName wins0 else wins0;
     stage_playtime :=
       add_time stageName (Js.or_zero (res_game_seconds result))
         (init_time stageName (stage_playtime a));
     matchups := matchups a |}.

(** Line 641: [if (!matchups) var matchups = {}] *)
Definition init_matchups (a : Aggregates) : Aggregates :=
  {| total_games := total_games a;
     total_wins := total_wins a;
     total_seconds := total_seconds a;
     counted_seconds := counted_seconds a;
     characterPlaytime := characterPlaytime a;
     misc := misc a;
     stage_totals := stage_totals a;
     stage_wins := stage_wins a;
     stage_playtime := stage_playtime a;
     matchups := Some (default [] (matchups a)) |}.

(** Lines 664-673 on the row of one player character. *)
Definition bump_cell (opponentCharacter : string) (result : MatchData)
    (row : list (string * Cell)) : list (string * Cell) :=
  let c := default {| games := 0; wins := 0; totalSeconds := PrimFloat.zero |}
             (Js.get opponentCharacter row) in
  Js.set opponentCharacter
    {| games := games c + 1;
       wins := if truthy_Z (res_total_wins result) then wins c + 1 else wins c;
       totalSeconds := PrimFloat.add (totalSeconds c) (res_game_seconds result) |}
    row.

(** Lines 661-673 *)
Definition bump_matchup (playerCharacter opponentCharacter : string) (result : MatchData)
    (m : list (string * list (string * Cell))) : list (string * list (string * Cell)) :=
  Js.set playerCharacter
    (bump_cell opponentCharacter result (default [] (Js.get playerCharacter m))) m.

(** Lines 656-673 *)
Definition add_matchup (playerCharacter opponentCharacter : string) (result : MatchData)
    (a : Aggregates) : Aggregates :=
  {| total_games := total_games a;
     total_wins := total_wins a;
     total_seconds := total_seconds a;
     counted_seconds := counted_seconds a;
     characterPlaytime :=
       add_time playerCharacter (res_game_seconds result)
         (init_time playerCharacter (characterPlaytime a));
     misc := misc a;
     stage_totals := stage_totals a;
     stage_wins := stage_wins a;
     stage_playtime := stage_playtime a;
     matchups := Some (bump_matchup playerCharacter opponentCharacter result
                         (default [] (matchups a))) |}.

(** Lines 645-652: a character name that keeps the match out of the
    matchup table. *)
Definition unknown_character (c : string) : bool :=
  negb (Js.truthy_string c) || String.eqb c "Unknown" || String.eqb c "undefined".

(** Lines 677-734, the body of the inner [try]. *)
Definition add_misc_counters (gameData : GameData) (result : MatchData) (m : Misc) : Misc :=
  let actions :=
    match gd_stats gameData with
    | Some {| actionCounts := Some l |} => l !! player_index result
    | _ => None
    end in
  let lc := actions ≫= lCancelCount in
  let gt := actions ≫= groundTechCount in
  let th := actions ≫= throwCount in
  let won := truthy_Z (res_total_wins result) in
  let streak := if won then currentStreak m + 1 else 0 in
  {| lCancelSuccessTotal := lCancelSuccessTotal m + Js.or0 (lc ≫= lc_success);
     lCancelFailTotal := lCancelFailTotal m + Js.or0 (lc ≫= lc_fail);
     wavedashTotal := wavedashTotal m + Js.or0 (actions ≫= wavedashCount);
     rollTotal := rollTotal m + Js.or0 (actions ≫= rollCount);
     ledgegrabTotal := ledgegrabTotal m + Js.or0 (actions ≫= ledgegrabCount);
     dashDanceTotal := dashDanceTotal m + Js.or0 (actions ≫= dashDanceCount);
     techSuccessTotal :=
       techSuccessTotal m +
       (Js.or0 (gt ≫= gt_away) + Js.or0 (gt ≫= gt_in) + Js.or0 (gt ≫= gt_neutral));
     techFailTotal := techFailTotal m + Js.or0 (gt ≫= gt_fail);
     totalStocksTaken := totalStocksTaken m + killCount gameData (player_index result);
     totalStocksLost := totalStocksLost m + killCount gameData (opponent_index result);
     throwCounts :=
       {| up := up (throwCounts m) + Js.or0 (th ≫= th_up);
          down := down (throwCounts m) + Js.or0 (th ≫= th_down);
          forward := forward (throwCounts m) + Js.or0 (th ≫= th_forward);
          back := back (throwCounts m) + Js.or0 (th ≫= th_back) |};
     currentStreak := streak;
     bestWinStreak := if won && (bestWinStreak m <? streak) then streak else bestWinStreak m |}.

Definition add_misc (gameData : GameData) (result : MatchData) (a : Aggregates) : Aggregates :=
  {| total_games := total_games a;
     total_wins := total_wins a;
     total_seconds := total_seconds a;
     counted_seconds := counted_seconds a;
     characterPlaytime := characterPlaytime a;
     misc := add_misc_counters gameData result (misc a);
     stage_totals := stage_totals a;
     stage_wins := stage_wins a;
     stage_playtime := stage_playtime a;
     matchups := matchups a |}.

(** Lines 741-751: the ticker message. *)
Definition match_log (result : MatchData) : Event :=
  let p1 := Js.or_string (Some (player_name result)) (Js.or_string (Some (player_code result)) "P1") in
  let p2 := Js.or_string (Some (opponent_name result)) (Js.or_string (Some (opponent_code result)) "P2") in
  let stage := Js.or_string (stage_at (stage_num result)) "Unknown" in
  MatchLog p1 p2 stage (0 <? res_total_wins result).

(** ** One iteration of the loop (lines 531-764) *)

(** How the [try] block of the iteration ends. *)
Inductive Completion :=
| FallsThrough        (* reaches the end of the block *)
| Continues           (* [continue]: straight to [i++] *)
| Returns             (* [return]: the call resolves to [undefined] *)
| Raises.             (* an exception, swallowed by the [catch] *)

(** Lines 603-608 and 621-626: the stage check on the result.  The partial
    object has no [stage_num] at all. *)
Definition stage_invalid (stage_num : option Z) : bool :=
  match stage_at stage_num with
  | Some _ => false
  | None => true
  end.

(** Lines 613-751, for a result that passed the first stage check. *)
Definition aggregate (W : World) (gameData : GameData) (result : MatchData) (st : Run)
    : Run * Completion :=
  let st := set_agg (add_totals result (agg st)) st in
  let stageId := stage_num result in
  if stage_invalid stageId then (skip st, Returns)
  else
    let stageName := default "" (stage_at stageId) in
    let st := set_agg (add_stage stageName result (agg st)) st in
    let st := set_agg (init_matchups (agg st)) st in
    let playerCharacter := player_character_name result in
    let opponentCharacter := opponent_character_name result in
    if unknown_character playerCharacter || unknown_character opponentCharacter
    then (st, Continues)
    else
      let st := set_agg (add_matchup playerCharacter opponentCharacter result (agg st)) st in
      let st := set_agg (add_misc gameData result (agg st)) st in
      if win W then (send (match_log result) st, FallsThrough)
      else (st, Raises).                           (* win.webContents on undefined *)

(** Lines 585-751: what the [try] block does with the game data. *)
Definition account (W : World) (F : Filters) (gameData : GameData) (st : Run) : Run * Completion :=
  match processSingleReplay F gameData with
  | RNull => (skip st, Continues)
  | RPartial _ => (skip st, Continues)          (* stage_num === undefined *)
  | RData result =>
      if stage_invalid (stage_num result) then (skip st, Continues)
      else aggregate W gameData result st
  end.

(** Lines 542-755: the [try] block. *)
Definition try_block (W : World) (F : Filters) (file : File) (st : Run) : Run * Completion :=
  match acquire file st with
  | (None, st) => (st, Raises)
  | (Some gameData, st) => account W F gameData st
  end.

(** Lines 753-763: after the [try] block. *)
Definition finish (W : World) (i : nat) (r : Run * Completion) : Run * bool :=
  let '(st, c) := r in
  match c with
  | Continues => (st, false)
  | Returns => (st, true)
  | FallsThrough | Raises =>
      (if win W then send (Progress (i + 1) (length (files W))) st else st, false)
  end.

(** Lines 540-762: the work on [files[i]] after the [await]; the flag says
    whether the function returned. *)
Definition handle_file (W : World) (F : Filters) (i : nat) (file : File) (st : Run) : Run * bool :=
  finish W i (try_block W F file st).

(** The [for] loop from index [i] over the remaining files [fs]. *)
Fixpoint loop (W : World) (F : Filters) (i : nat) (fs : list File) (st : Run) : Run * bool :=
  match fs with
  | [] => (st, false)
  | file :: rest =>
      if cancelRequested st then
        (if win W then send Cancelled st else st, false)       (* break *)
      else
        let st := yield W i st in
        let '(st, returned) := handle_file W F i file st in
        if returned then (st, true) else loop W F (S i) rest st
  end.

(* ===================================================================== *)
(** * The report builder (lines 766-1001)                                 *)
(* ===================================================================== *)

(** [secondsToHMS(seconds)] (lines 167-173) *)
Definition format (val : float) : string :=
  Js.strip_leading_zeros ("0" ++ Js.string_of_floor val).

Definition secondsToHMS (seconds : float) : string :=
  let hours := PrimFloat.div seconds 3600%float in
  let minutes := PrimFloat.div (Js.rem seconds 3600) 60%float in
  format hours ++ ":" ++ format minutes ++ ":" ++ format (Js.rem seconds 60).

(** [((wins / games) * 100).toFixed(2)] *)
Definition percentage (wins games : Z) : string :=
  Js.toFixed2 (PrimFloat.mul (PrimFloat.div (Js.of_Z wins) (Js.of_Z games)) 100%float).

(** [games ? ((wins / games) * 100).toFixed(2) : "0.00"] *)
Definition rate (wins games : Z) : string :=
  if truthy_Z games then percentage wins games else "0.00".

(** A JSON value that is a number in one report shape and a string in the
    other. *)
Inductive RateValue :=
| RateNumber (z : Z)
| RateString (s : string).

Record FiltersEcho := {
  echo_playerTags : list string;
  echo_opponentTags : list string;
  echo_playerCharacter : option string;
  echo_opponentCharacter : option string;
  echo_ignoredOpponents : list string
}.

Definition echo (o : Options) : FiltersEcho :=
  {| echo_playerTags := playerTags o;
     echo_opponentTags := opponentTags o;
     echo_playerCharacter := playerCharacter o;
     echo_opponentCharacter := opponentCharacter o;
     echo_ignoredOpponents := ignoredOpponents o |}.

(** A row of [stageResults], and the value stored under the stage name in
    [sortedStageResults]. *)
Record StageRow := {
  sr_stage : string;
  sr_wins : Z;
  sr_games : Z;
  sr_winrate : string;
  sr_playtime : string
}.

Record StageEntry := {
  se_games : Z;
  se_wins : Z;
  se_winrate : string;
  se_playtime : string
}.

(** A row of [nickname_results], [code_results] or [opponent_results]. *)
Record NamedRow := {
  nr_key : string;
  nr_games : Z;
  nr_wins : Z;
  nr_winrate : string;
  nr_playtime : string
}.

(** A row of [matchup_results]. *)
Record MatchupRow := {
  yourCharacter : string;
  mr_opponentCharacter : string;
  mr_games : Z;
  mr_wins : Z;
  mr_winrate : string
}.

(** The [matchups] property of the report: [matchups || matchup_results]. *)
Inductive MatchupsValue :=
| MatchupTable (m : list (string * list (string * Cell)))
| MatchupRows (rows : list MatchupRow).

Record MiscStats := {
  avgLcancelRate : string;
  ms_lCancelSuccessTotal : Z;
  ms_lCancelFailTotal : Z;
  avgWavedashes : string;
  ms_wavedashTotal : Z;
  avgRolls : string;
  ms_rollTotal : Z;
  avgLedgegrabs : string;
  ms_ledgegrabTotal : Z;
  avgDashDances : string;
  ms_dashDanceTotal : Z;
  techSuccessRate : string;
  ms_techSuccessTotal : Z;
  ms_techFailTotal : Z;
  ms_totalStocksTaken : Z;
  ms_totalStocksLost : Z;
  topThrowDir : string;
  topThrowCount : Z;
  ms_bestWinStreak : Z
}.

(** The report returned when no game qualified (lines 777-800). *)
Record NoGames := {
  ng_message : string;
  ng_filters : FiltersEcho;
  ng_totalGames : Z;
  ng_totalWins : Z;
  ng_winRate : RateValue;
  ng_analyzedTime : string;
  ng_totalTimeAllReplays : string;
  ng_new_replays : Z;
  ng_stages : list StageRow;
  ng_nicknames : list NamedRow;
  ng_codes : list NamedRow;
  ng_opponents : list NamedRow;
  ng_matchups : list MatchupRow
}.

(** [resultObject] (lines 967-999). *)
Record Found := {
  fd_filters : FiltersEcho;
  playerName : string;
  playerCode : string;
  opponentName : string;
  opponentCode : string;
  totalGames : Z;
  totalWins : Z;
  winRate : RateValue;
  analyzedTime : string;
  totalTimeAllReplays : string;
  newReplaysCached : Z;
  totalReplaysScanned : nat;
  skippedReplays : Z;
  fd_stages : list (string * StageEntry);
  nicknames : list NamedRow;
  codes : list NamedRow;
  opponents : list NamedRow;
  fd_characterPlaytime : list (string * string);
  fd_matchups : MatchupsValue;
  fd_misc : MiscStats
}.

Inductive Report :=
| NoGamesFound (r : NoGames)       (* foundGames: false *)
| GamesFound (r : Found).          (* foundGames: true *)

(** The tables declared at lines 496-504 and never written. *)
Definition nickname_totals : list (string * Z) := [].
Definition nickname_wins : list (string * Z) := [].
Definition nickname_playtime : list (string * float) := [].
Definition code_totals : list (string * Z) := [].
Definition code_wins : list (string * Z) := [].
Definition code_playtime : list (string * float) := [].
Definition opponent_totals : list (string * Z) := [].
Definition opponent_wins : list (string * Z) := [].
Definition opponent_playtime : list (string * float) := [].

(** Lines 509-511: 34 rows of 34 cells [[0, 0, characters[i]]], never
    written either.  A cell is (wins, games, opponent name). *)
Definition character_head_to_head : list (list (Z * Z * string)) :=
  replicate 34 (map (fun c => (0, 0, c)) (take 34 characters)).

(** Lines 808-824 *)
Definition stageResults (a : Aggregates) : list StageRow :=
  map (fun '(stageName, games) =>
         let wins := Js.or0 (Js.get stageName (stage_wins a)) in
         let playtime := Js.or_zero (default PrimFloat.zero (Js.get stageName (stage_playtime a))) in
         {| sr_stage := stageName;
            sr_wins := wins;
            sr_games := games;
            sr_winrate := rate wins games;
            sr_playtime := secondsToHMS playtime |})
      (stage_totals a).

(** Lines 828-836: the rows written, in order, into a fresh object. *)
Definition sortedStageResults (rows : list StageRow) : list (string * StageEntry) :=
  foldl (fun o row =>
           Js.set (sr_stage row)
             {| se_games := sr_games row; se_wins := sr_wins row;
                se_winrate := sr_winrate row; se_playtime := sr_playtime row |} o)
        [] rows.

(** Lines 839-883: the shared shape of the three [Object.keys(..).map]. *)
Definition named_results (totals wins : list (string * Z)) (playtime : list (string * float))
    : list NamedRow :=
  map (fun name =>
         let games := Js.or0 (Js.get name totals) in
         let w := Js.or0 (Js.get name wins) in
         let play := Js.or_zero (default PrimFloat.zero (Js.get name playtime)) in
         {| nr_key := name; nr_games := games; nr_wins := w;
            nr_winrate := rate w games; nr_playtime := secondsToHMS play |})
      (Js.keys totals).

(** Lines 888-906, for any head-to-head matrix. *)
Definition matchup_rows (h2h : list (list (Z * Z * string))) : list MatchupRow :=
  concat
    (imap (fun pChar row =>
             omap (fun '(wins, games, oppCharName) =>
                     if 0 <? games then
                       Some {| yourCharacter := default "" (characters !! pChar);
                               mr_opponentCharacter := oppCharName;
                               mr_games := games;
                               mr_wins := wins;
                               mr_winrate := percentage wins games |}
                     else None)
                  row)
          h2h).

(** Lines 888-908 *)
Definition matchup_results : list MatchupRow :=
  Js.sort_desc mr_games (matchup_rows character_head_to_head).

(** [x > 0 ? (a / x) * k : 0], rendered with [toFixed(2)]. *)
Definition ratio2 (a x : Z) (k : float) : string :=
  Js.toFixed2
    (if 0 <? x then PrimFloat.mul (PrimFloat.div (Js.of_Z a) (Js.of_Z x)) k
     else PrimFloat.zero).

Definition average2 (a x : Z) : string :=
  Js.toFixed2 (if 0 <? x then PrimFloat.div (Js.of_Z a) (Js.of_Z x) else PrimFloat.zero).

(** Lines 932-934: the first key of the largest throw count. *)
Definition sorted_throws (t : Throws) : list (string * Z) :=
  Js.sort_desc snd [("up", up t); ("down", down t); ("forward", forward t); ("back", back t)].

(** Lines 917-964 *)
Definition miscStats (a : Aggregates) : MiscStats :=
  let m := misc a in
  let top := default ("", 0) (head (sorted_throws (throwCounts m))) in
  {| avgLcancelRate :=
       ratio2 (lCancelSuccessTotal m) (lCancelSuccessTotal m + lCancelFailTotal m) 100%float ++ "%";
     ms_lCancelSuccessTotal := lCancelSuccessTotal m;
     ms_lCancelFailTotal := lCancelFailTotal m;
     avgWavedashes := average2 (wavedashTotal m) (total_games a);
     ms_wavedashTotal := wavedashTotal m;
     avgRolls := average2 (rollTotal m) (total_games a);
     ms_rollTotal := rollTotal m;
     avgLedgegrabs := average2 (ledgegrabTotal m) (total_games a);
     ms_ledgegrabTotal := ledgegrabTotal m;
     avgDashDances := average2 (dashDanceTotal m) (total_games a);
     ms_dashDanceTotal := dashDanceTotal m;
     techSuccessRate :=
       ratio2 (techSuccessTotal m) (techSuccessTotal m + techFailTotal m) 100%float ++ "%";
     ms_techSuccessTotal := techSuccessTotal m;
     ms_techFailTotal := techFailTotal m;
     ms_totalStocksTaken := totalStocksTaken m;
     ms_totalStocksLost := totalStocksLost m;
     topThrowDir := fst top;
     topThrowCount := snd top;
     ms_bestWinStreak := bestWinStreak m |}.

(** Lines 776-1001: the value [analyzeReplays] resolves to once the loop
    is over and the cache is written. *)
Definition build_report (o : Options) (scanned : nat) (st : Run) : Report :=
  let a := agg st in
  if negb (truthy_Z (total_games a)) then
    NoGamesFound
      {| ng_message := "No games found matching requested parameters.";
         ng_filters := echo o;
         ng_totalGames := 0;
         ng_totalWins := 0;
         ng_winRate := RateNumber 0;
         ng_analyzedTime := "00:00:00";
         ng_totalTimeAllReplays := secondsToHMS (Js.or_zero (total_seconds a));
         ng_new_replays := new_replays st;
         ng_stages := [];
         ng_nicknames := [];
         ng_codes := [];
         ng_opponents := [];
         ng_matchups := [] |}
  else
    GamesFound
      {| fd_filters := echo o;
         playerName := "";
         playerCode := "";
         opponentName := "";
         opponentCode := "";
         totalGames := total_games a;
         totalWins := total_wins a;
         winRate := RateString (rate (total_wins a) (total_games a));
         analyzedTime := secondsToHMS (counted_seconds a);
         totalTimeAllReplays := secondsToHMS (total_seconds a);
         newReplaysCached := new_replays st;
         totalReplaysScanned := scanned;
         skippedReplays := skippedCount st;
         fd_stages := sortedStageResults (Js.sort_desc sr_games (stageResults a));
         nicknames := named_results nickname_totals nickname_wins nickname_playtime;
         codes := named_results code_totals code_wins code_playtime;
         opponents :=
           Js.sort_desc nr_games (named_results opponent_totals opponent_wins opponent_playtime);
         fd_characterPlaytime := map (fun '(c, t) => (c, secondsToHMS t)) (characterPlaytime a);
         fd_matchups :=
           match matchups a with
           | Some m => MatchupTable m
           | None => MatchupRows matchup_results
           end;
         fd_misc := miscStats a |}.

(* ===================================================================== *)
(** * [analyzeReplays] (lines 455-1002)                                   *)
(* ===================================================================== *)

(** Lines 466-471: the normalised filters. *)
Definition normalize (tags : list string) : list string :=
  filter_truthy (map (fun s => Js.trim (Js.toLowerCase s)) tags).

Definition filters_of (o : Options) : Filters :=
  {| wantedPlayersLower := normalize (playerTags o);
     wantedOpponentLower := normalize (opponentTags o);
     ignoredOpponentsLower := normalize (ignoredOpponents o);
     playerCharacterFilter := resolveCharacterFilter (playerCharacter o);
     opponentCharacterFilter := resolveCharacterFilter (opponentCharacter o);
     rankedOnly := opt_rankedOnly o |}.

Definition no_misc : Misc :=
  {| lCancelSuccessTotal := 0; lCancelFailTotal := 0; wavedashTotal := 0; rollTotal := 0;
     ledgegrabTotal := 0; dashDanceTotal := 0; techSuccessTotal := 0; techFailTotal := 0;
     totalStocksTaken := 0; totalStocksLost := 0;
     throwCounts := {| up := 0; down := 0; forward := 0; back := 0 |};
     currentStreak := 0; bestWinStreak := 0 |}.

(** Lines 477-511 *)
Definition no_aggregates : Aggregates :=
  {| total_games := 0; total_wins := 0;
     total_seconds := PrimFloat.zero; counted_seconds := PrimFloat.zero;
     characterPlaytime := []; misc := no_misc;
     stage_totals := []; stage_wins := []; stage_playtime := [];
     matchups := None |}.

(** The state at the head of the loop: the cache as [loadCache] read it,
    and the flag reset (line 525) - a request made before the call is
    dropped. *)
Definition start (disk : gmap string GameData) : Run :=
  {| agg := no_aggregates; skippedCount := 0; new_replays := 0; cache := disk;
     cancelRequested := false; sent := []; decodeCalls := 0 |}.

(** What one call leaves behind: the value it resolves to ([None] is
    [undefined]), the [results] table that it hands to [writeCache], the
    messages sent to the window and the number of decoder calls. *)
Record Outcome := {
  report : option Report;
  written : gmap string GameData;
  events : list Event;
  decodes : nat
}.

(** [analyzeReplays(folderPath, options)], where [disk] is the [results]
    table that [loadCache] reads from the folder (empty when the file is
    missing or malformed).  [writeCache] is handed [cache.results] as it
    stands in memory. *)
Definition analyzeReplays (W : World) (o : Options) (disk : gmap string GameData) : Outcome :=
  let '(st, returned) := loop W (filters_of o) 0 (files W) (start disk) in
  if returned then
    {| report := None; written := disk; events := sent st; decodes := decodeCalls st |}
  else
    {| report := Some (build_report o (length (files W)) st);
       written := cache st;
       events := sent st;
       decodes := decodeCalls st |}.

(** ** The cache file between two calls *)

(** The record that [JSON.parse] (line 244) reads back for a record that
    [JSON.stringify] (line 263) wrote.  Strings and integers come back as
    written and a missing property stays missing; a percentage that is
    NaN, infinite or [undefined] comes back as [null].  A duration that is
    not finite would come back as [null] too, which the type of durations
    leaves out: the answer is [None] then. *)
Definition json_gameData (gameData : GameData) : option GameData :=
  match Js.json_number (gd_total_seconds gameData) with
  | Some total_seconds =>
      Some {| gd_hash := gd_hash gameData;
              gd_file := gd_file gameData;
              gd_settings := gd_settings gameData;
              gd_metadata := gd_metadata gameData;
              gd_stats := gd_stats gameData;
              gd_total_seconds := total_seconds;
              gd_latestFramePercents := map Js.json_value (gd_latestFramePercents gameData) |}
  | None => None
  end.


(* ===================================================================== *)
(** * Vocabulary of the properties                                        *)
(* ===================================================================== *)

(** [settings.players[i]?.characterId] read off the game data. *)
Definition characterId_at (gameData : GameData) (i : nat) : option Z :=
  match gd_settings gameData with
  | Some {| players := Some ps |} => ps !! i ≫= characterId
  | _ => None
  end.

(** The reasons for which a match is kept out of the statistics: the
    ranked gate, the viewpoint, the ignore list, the two character
    filters, the duration, the kill counts and the stage. *)
Inductive Excluded (F : Filters) (gameData : GameData) : Prop :=
| excluded_ranked :
    rankedOnly F = true -> matchType_of gameData <> "Ranked" -> Excluded F gameData
| excluded_viewpoint :
    viewpoint F (participant gameData 0) (participant gameData 1) = None ->
    Excluded F gameData
| excluded_ignored (self opp : nat) :
    viewpoint F (participant gameData 0) (participant gameData 1) = Some (self, opp) ->
    isIgnoredOpponent (participant gameData opp) (ignoredOpponentsLower F) = true ->
    Excluded F gameData
| excluded_player_character (self opp : nat) :
    viewpoint F (participant gameData 0) (participant gameData 1) = Some (self, opp) ->
    character_mismatch (playerCharacterFilter F) (characterId_at gameData self) = true ->
    Excluded F gameData
| excluded_opponent_character (self opp : nat) :
    viewpoint F (participant gameData 0) (participant gameData 1) = Some (self, opp) ->
    character_mismatch (opponentCharacterFilter F) (characterId_at gameData opp) = true ->
    Excluded F gameData
| excluded_duration :
    PrimFloat.ltb (game_seconds_of gameData) 30%float = true -> Excluded F gameData
| excluded_kills :
    killCount gameData 0 = 0 -> killCount gameData 1 = 0 -> Excluded F gameData
| excluded_stage :
    stage_invalid (gd_settings gameData ≫= checked_stageId) = true -> Excluded F gameData.

(** What is known of a replay that lines 282-386 let through. *)
Record Resolved (F : Filters) (gameData : GameData) (sd : Sides) : Prop := {
  resolved_ranked : rankedOnly F = false \/ matchType_of gameData = "Ranked";
  resolved_viewpoint :
    viewpoint F (participant gameData 0) (participant gameData 1)
    = Some (playerIndex sd, opponentIndex sd);
  resolved_settings : gd_settings gameData = Some (sides_settings sd);
  resolved_self : playerIdentity sd = participant gameData (playerIndex sd);
  resolved_opponent : opponentIdentity sd = participant gameData (opponentIndex sd);
  resolved_not_ignored :
    isIgnoredOpponent (participant gameData (opponentIndex sd)) (ignoredOpponentsLower F) = false;
  resolved_self_character : playerCharId sd = characterId_at gameData (playerIndex sd);
  resolved_opponent_character : oppCharId sd = characterId_at gameData (opponentIndex sd);
  resolved_self_filter : character_mismatch (playerCharacterFilter F) (playerCharId sd) = false;
  resolved_opponent_filter :
    character_mismatch (opponentCharacterFilter F) (oppCharId sd) = false
}.

(** The match that contributes to the aggregates, if the replay is one. *)
Definition qualifying (F : Filters) (gameData : GameData) : option MatchData :=
  match processSingleReplay F gameData with
  | RData d => if stage_invalid (stage_num d) then None else Some d
  | _ => None
  end.

(** Wins never exceed games, at the three levels of aggregation. *)
Definition cell_ok (c : Cell) : Prop := 0 <= wins c <= games c.

Definition row_ok (row : string * list (string * Cell)) : Prop :=
  Forall (fun oc => cell_ok (snd oc)) (snd row).

Record WinsWithinGames (a : Aggregates) : Prop := {
  total_within : 0 <= total_wins a <= total_games a;
  stage_within :
    forall s, 0 <= Js.or0 (Js.get s (stage_wins a)) <= Js.or0 (Js.get s (stage_totals a));
  matchup_within : Forall row_ok (default [] (matchups a))
}.

(** The same in a report. *)
Definition matchups_within (v : MatchupsValue) : Prop :=
  match v with
  | MatchupTable m => Forall row_ok m
  | MatchupRows rows => Forall (fun r => 0 <= mr_wins r <= mr_games r) rows
  end.

Definition report_within (r : Report) : Prop :=
  match r with
  | NoGamesFound g => 0 <= ng_totalWins g <= ng_totalGames g
  | GamesFound f =>
      0 <= totalWins f <= totalGames f /\
      Forall (fun e => 0 <= se_wins (snd e) <= se_games (snd e)) (fd_stages f) /\
      matchups_within (fd_matchups f)
  end.

(** What the loop maintains: the bounds above, and stage tables without
    repeated keys. *)
Record Consistent (a : Aggregates) : Prop := {
  consistent_within : WinsWithinGames a;
  consistent_keys : NoDup (Js.keys (stage_totals a))
}.

(** The 0/1 flags of a populated result. *)
Definition flags_ok (d : MatchData) : Prop :=
  res_total_games d = 1 /\ (res_total_wins d = 0 \/ res_total_wins d = 1).

(** Game counts in descending order. *)
Definition descending (l : list Z) : Prop := Sorted Z.ge l.

(** The rows of the matchup value of a report, in the order in which the
    report lists them, as game counts. *)
Definition matchup_games (v : MatchupsValue) : list Z :=
  match v with
  | MatchupTable m => concat (map (fun '(_, row) => map (fun '(_, c) => games c) row) m)
  | MatchupRows rows => map mr_games rows
  end.

(** A string that is an integer part, a point and exactly two digits. *)
Definition two_decimals (s : string) : Prop :=
  exists ip d1 d2,
    s = ip ++ String "." (String d1 (String d2 EmptyString)) /\
    Js.is_digit d1 = true /\ Js.is_digit d2 = true.


(** The request with one of its character names replaced. *)
Definition with_playerCharacter (c : option string) (o : Options) : Options :=
  {| playerTags := playerTags o; opponentTags := opponentTags o;
     ignoredOpponents := ignoredOpponents o;
     playerCharacter := c; opponentCharacter := opponentCharacter o;
     opt_rankedOnly := opt_rankedOnly o |}.

Definition with_opponentCharacter (c : option string) (o : Options) : Options :=
  {| playerTags := playerTags o; opponentTags := opponentTags o;
     ignoredOpponents := ignoredOpponents o;
     playerCharacter := playerCharacter o; opponentCharacter := c;
     opt_rankedOnly := opt_rankedOnly o |}.

(** A number that [toFixed] prints in positional notation: a zero or a
    finite non-zero double. *)
Definition finite_number (x : float) : Prop :=
  match Prim2SF x with
  | S754_zero _ | S754_finite _ _ _ => True
  | _ => False
  end.

(** [s] is the rate of [wins] in [games]: at least one game, wins within
    games, and [s] is [((wins / games) * 100).toFixed(2)], which has
    exactly two decimals. *)
Definition is_rate (s : string) (wins games : Z) : Prop :=
  0 <= wins <= games /\ 0 < games /\
  s = Js.toFixed2 (PrimFloat.mul (PrimFloat.div (Js.of_Z wins) (Js.of_Z games)) 100%float) /\
  two_decimals s.

(** The state with the cancellation flag replaced. *)
Definition set_flag (b : bool) (st : Run) : Run :=
  {| agg := agg st; skippedCount := skippedCount st; new_replays := new_replays st;
     cache := cache st; cancelRequested := b; sent := sent st;
     decodeCalls := decodeCalls st |}.

(** Two states that differ at most in what concerns the cache: its
    content, the count of newly cached replays and the decoder calls. *)
Definition same_tally (a b : Run) : Prop :=
  agg a = agg b /\ skippedCount a = skippedCount b /\
  cancelRequested a = cancelRequested b /\ sent a = sent b.

(** The world in which nobody asks for cancellation. *)
Definition undisturbed (W : World) : World :=
  {| files := files W; win := win W; cancelDuringYield := fun _ => false |}.

(** The state once the loop has gone through the first [k] files without
    being cancelled. *)
Definition after_files (W : World) (o : Options) (disk : gmap string GameData) (k : nat) : Run :=
  fst (loop (undisturbed W) (filters_of o) 0 (take k (files W)) (start disk)).

(** The state of a run at the moment the loop is about to look at file
    [k] (or has stopped before it). *)
Definition state_at (W : World) (o : Options) (disk : gmap string GameData) (k : nat) : Run :=
  fst (loop W (filters_of o) 0 (take k (files W)) (start disk)).

(** The first cancellation request arrives while the loop is suspended
    ahead of file [j]. *)
Definition first_request (W : World) (j : nat) : Prop :=
  cancelDuringYield W j = true /\ forall i, (i < j)%nat -> cancelDuringYield W i = false.


(** A record that the cache file gives back as it was written. *)
Definition survives_json (gameData : GameData) : Prop :=
  json_gameData gameData = Some gameData.


(* ===================================================================== *)
(** * Vocabulary of the further properties                                *)
(* ===================================================================== *)

(** ** Tags *)

(** [req] occurs in [tag] as a contiguous run of characters. *)
Definition occurs_in (req tag : string) : Prop :=
  exists before after, tag = before ++ req ++ after.

(** A string of ASCII characters only.  On such strings [toLowerCase]
    changes nothing but the letters A-Z and [trim] strips nothing but tab,
    LF, VT, FF, CR and space, which is what [Js.toLowerCase] and [Js.trim]
    do. *)
Fixpoint is_ascii (s : string) : bool :=
  match s with
  | EmptyString => true
  | String c r => (nat_of_ascii c <? 128)%nat && is_ascii r
  end.

(** A string that [toLowerCase] leaves alone. *)
Definition lower_case (s : string) : Prop := Js.toLowerCase s = s.

(** Some tag of the identity contains some entry of the list. *)
Definition tag_contains (identity : Identity) (l : list string) : Prop :=
  exists tags tag req,
    tagLower identity = Some tags /\ tag ∈ tags /\ req ∈ l /\ occurs_in req tag.

(** A string that does not begin with white space. *)
Definition no_leading_space (s : string) : Prop :=
  match s with
  | EmptyString => True
  | String c _ => Js.is_space c = false
  end.

(** ** Replays and filters *)

(** Both participants carry a display name and [settings.players] lists
    two of them: the replay is not turned away for want of data. *)
Definition two_named_players (gameData : GameData) : Prop :=
  displayName (participant gameData 0) <> "" /\
  displayName (participant gameData 1) <> "" /\
  exists settings ps,
    gd_settings gameData = Some settings /\ players settings = Some ps /\ (2 <= length ps)%nat.

(** [F'] asks for everything [F] asks for, and possibly more of what can
    only turn matches away: the ranked gate, ignored opponents and
    character filters.  The tag filters, which also decide the viewpoint,
    are the same. *)
Record Narrower (F F' : Filters) : Prop := {
  narrower_players : wantedPlayersLower F' = wantedPlayersLower F;
  narrower_opponent : wantedOpponentLower F' = wantedOpponentLower F;
  narrower_ranked : rankedOnly F = true -> rankedOnly F' = true;
  narrower_ignored : forall t, t ∈ ignoredOpponentsLower F -> t ∈ ignoredOpponentsLower F';
  narrower_player_character :
    playerCharacterFilter F = None \/ playerCharacterFilter F' = playerCharacterFilter F;
  narrower_opponent_character :
    opponentCharacterFilter F = None \/ opponentCharacterFilter F' = opponentCharacterFilter F
}.

(** A character id that names a character of the table other than its
    last entry, ["Unknown"]. *)
Definition character_known (id : option Z) : bool :=
  match id with
  | Some z => (0 <=? z) && (z <? 33)
  | None => false
  end.

(** The last frame index that lines 555-557 read: 0 when it is missing. *)
Definition lastFrame (d : Decoded) : Z := default 0 (dec_latestFrame d ≫= frame).

(** The decoder can read the file. *)
Definition decodable (f : File) : Prop := is_Some (decoded f).

(** ** Exhaustive checks over a range of integers *)

(** [p] holds of the [n] integers from [z] on. *)
Fixpoint all_from (z : Z) (n : nat) (p : Z -> bool) : bool :=
  match n with
  | O => true
  | S k => p z && all_from (z + 1) k p
  end.

(** [p] holds of [0], ..., [n - 1]. *)
Definition all_below (n : Z) (p : Z -> bool) : bool := all_from 0 (Z.to_nat n) p.

(** The same double, up to the payload of a NaN. *)
Definition same_number (x y : float) : bool :=
  match Prim2SF x, Prim2SF y with
  | S754_zero s, S754_zero t => Bool.eqb s t
  | S754_infinity s, S754_infinity t => Bool.eqb s t
  | S754_nan, S754_nan => true
  | S754_finite s m e, S754_finite t m' e' => Bool.eqb s t && Pos.eqb m m' && Z.eqb e e'
  | _, _ => false
  end.

(** ** Reference renderings *)

(** The percentage [100 * wins / games] rounded to the nearest hundredth
    in exact arithmetic, halves upwards, printed with two decimals. *)
Definition exact_rate (wins games : Z) : string :=
  Js.fixed2_of ((20000 * wins + games) / (2 * games)).

(** A field of a clock: at least two digits. *)
Definition pad2 (k : Z) : string :=
  if k <? 10 then String "0" (Js.string_of_Z k) else Js.string_of_Z k.

(** [hh:mm:ss] for a whole number of seconds. *)
Definition clock (n : Z) : string :=
  pad2 (n / 3600) ++ ":" ++ pad2 ((n mod 3600) / 60) ++ ":" ++ pad2 (n mod 60).

(** ** Tallies *)

(** The sum of [f] over a list. *)
Definition sum_of {A : Type} (f : A -> Z) (l : list A) : Z :=
  foldr (fun x acc => f x + acc) 0 l.

(** Lines 613-737 on the aggregates alone, for a result whose stage is
    valid: totals, stage tables and line 641 always; character playtime,
    matchup table and misc counters only when both characters are known. *)
Definition counted (gameData : GameData) (result : MatchData) (a : Aggregates) : Aggregates :=
  let stageName := default "" (stage_at (stage_num result)) in
  let a := init_matchups (add_stage stageName result (add_totals result a)) in
  let playerCharacter := player_character_name result in
  let opponentCharacter := opponent_character_name result in
  if unknown_character playerCharacter || unknown_character opponentCharacter then a
  else add_misc gameData result (add_matchup playerCharacter opponentCharacter result a).

(** What the loop maintains about the stage tables and the streaks. *)
Record Balanced (a : Aggregates) : Prop := {
  balanced_games : sum_of snd (stage_totals a) = total_games a;
  balanced_wins : sum_of snd (stage_wins a) = total_wins a;
  balanced_keys : Js.keys (stage_wins a) = Js.keys (stage_totals a);
  balanced_distinct : NoDup (Js.keys (stage_totals a));
  balanced_played :
    forall s, s ∈ Js.keys (stage_totals a) -> 1 <= Js.or0 (Js.get s (stage_totals a));
  balanced_streak :
    0 <= currentStreak (misc a) <= bestWinStreak (misc a) /\
    bestWinStreak (misc a) <= total_wins a
}.

(** The games of all the cells of a matchup table. *)
Definition cell_games (m : list (string * list (string * Cell))) : Z :=
  sum_of (fun row => sum_of (fun oc => games (snd oc)) (snd row)) m.

(** What the loop maintains about the matchup table and the character
    playtime. *)
Record Paired (a : Aggregates) : Prop := {
  paired_keys : Js.keys (characterPlaytime a) = Js.keys (default [] (matchups a));
  paired_games : cell_games (default [] (matchups a)) <= total_games a
}.

(** The four throw counters as [Object.keys(throwCounts)] lists them. *)
Definition throw_entries (t : Throws) : list (string * Z) :=
  [("up", up t); ("down", down t); ("forward", forward t); ("back", back t)].

(** ** Reports and events *)

(** The count of newly cached replays that a report carries. *)
Definition new_replays_of (r : Report) : Z :=
  match r with
  | NoGamesFound g => ng_new_replays g
  | GamesFound f => newReplaysCached f
  end.

(** The report on a folder without replays. *)
Definition nothing_found (o : Options) : Report :=
  NoGamesFound
    {| ng_message := "No games found matching requested parameters.";
       ng_filters := echo o;
       ng_totalGames := 0;
       ng_totalWins := 0;
       ng_winRate := RateNumber 0;
       ng_analyzedTime := "00:00:00";
       ng_totalTimeAllReplays := "00:00:00";
       ng_new_replays := 0;
       ng_stages := [];
       ng_nicknames := [];
       ng_codes := [];
       ng_opponents := [];
       ng_matchups := [] |}.

(** The same world with no window open. *)
Definition without_window (W : World) : World :=
  {| files := files W; win := false; cancelDuringYield := cancelDuringYield W |}.

(** The state with the list of sent events replaced. *)
Definition set_sent (l : list Event) (st : Run) : Run :=
  {| agg := agg st; skippedCount := skippedCount st; new_replays := new_replays st;
     cache := cache st; cancelRequested := cancelRequested st; sent := l;
     decodeCalls := decodeCalls st |}.

(** The [processed] fields of the progress events, in order. *)
Definition processed_numbers (l : list Event) : list nat :=
  omap (fun e => match e with Progress p _ => Some p | _ => None end) l.

(** A well-formed stream of events for a folder of [n] files: progress
    counts lie in [1..n], carry the total [n] and strictly increase, and
    nothing follows a cancellation notice. *)
Definition orderly (n : nat) (l : list Event) : Prop :=
  (forall p t, Progress p t ∈ l -> (1 <= p <= n)%nat /\ t = n) /\
  StronglySorted lt (processed_numbers l) /\
  (forall before after, l = (before ++ Cancelled :: after)%list -> after = []).

(** The invariant behind [orderly], once [i] files have been handled. *)
Definition streaming (n i : nat) (l : list Event) : Prop :=
  (Cancelled ∉ l) /\
  (forall p t, Progress p t ∈ l -> (1 <= p <= i)%nat /\ t = n) /\
  StronglySorted lt (processed_numbers l) /\
  Forall (fun p => (p <= i)%nat) (processed_numbers l).

(* ===================================================================== *)
(** * A sample corpus                                                     *)
(* ===================================================================== *)

Module Sample.

Definition player (tag connect : string) : MetaPlayer :=
  {| names := Some {| netplay := Some tag; code := Some connect |} |}.

(** A decoded two-player replay: characters, stage, kill counts, last
    frame and final percentages of participants 0 and 1. *)
Definition replay (p0 p1 : MetaPlayer) (char0 char1 stage kills0 kills1 lastFrame : Z)
    (percent0 percent1 : float) : Decoded :=
  {| dec_settings :=
       Some {| stageId := Some stage;
               players := Some [ {| characterId := Some char0 |};
                                 {| characterId := Some char1 |} ];
               matchId := Some "mode.unranked-2024-01-01T00:00:00.00-0" |};
     dec_metadata := Some [p0; p1];
     dec_stats := Some {| overall := Some [Some kills0; Some kills1]; actionCounts := None |};
     dec_latestFrame :=
       Some {| frame := Some lastFrame;
               frame_percents := Some [Js.Num percent0; Js.Num percent1] |} |}.

Definition alice := player "Alice" "ALI#1".
Definition bob := player "Bob" "BOB#2".

(** Fox (Alice) beats Falco on Battlefield in 90 s. *)
Definition fileA : File :=
  {| path := "a.slp"; digest := Some "0a";
     decoded := Some (replay alice bob 2 20 31 4 2 5400 50 120) |}.

(** Fox (Alice, participant 1) loses to Falco on Battlefield in 120 s. *)
Definition fileB : File :=
  {| path := "b.slp"; digest := Some "0b";
     decoded := Some (replay bob alice 20 2 31 4 3 7200 50 120) |}.

(** A match abandoned after 29 s (1740 frames), with kills on the board. *)
Definition fileShort : File :=
  {| path := "c.slp"; digest := Some "0c";
     decoded := Some (replay alice bob 2 20 31 1 0 1740 10 80) |}.

(** The same match lasting exactly 30 s (1800 frames). *)
Definition fileThirty : File :=
  {| path := "d.slp"; digest := Some "0d";
     decoded := Some (replay alice bob 2 20 31 1 0 1800 10 80) |}.

(** Marth (Alice) against Fox on Final Destination, twice. *)
Definition fileE : File :=
  {| path := "e.slp"; digest := Some "0e";
     decoded := Some (replay alice bob 9 2 32 4 1 6000 30 90) |}.
Definition fileF : File :=
  {| path := "f.slp"; digest := Some "0f";
     decoded := Some (replay alice bob 9 2 32 2 4 6600 140 60) |}.

(** Fox (Alice) and Falco (Bob) end on three kills each after 100 s, with
    the given final percentages. *)
Definition tied (percent0 percent1 : Js.value) : Decoded :=
  let d := replay alice bob 2 20 31 3 3 6000 0 0 in
  {| dec_settings := dec_settings d;
     dec_metadata := dec_metadata d;
     dec_stats := dec_stats d;
     dec_latestFrame :=
       Some {| frame := Some 6000; frame_percents := Some [percent0; percent1] |} |}.

(** Alice ends lower, higher, level; on a percentage that is not a number;
    on one that is [null]. *)
Definition fileTie : File :=
  {| path := "g.slp"; digest := Some "1a";
     decoded := Some (tied (Js.Num 50) (Js.Num 120)) |}.
Definition fileTieHigher : File :=
  {| path := "h.slp"; digest := Some "1b";
     decoded := Some (tied (Js.Num 120) (Js.Num 50)) |}.
Definition fileTieLevel : File :=
  {| path := "i.slp"; digest := Some "1c";
     decoded := Some (tied (Js.Num 80) (Js.Num 80)) |}.
Definition fileTieNaN : File :=
  {| path := "j.slp"; digest := Some "1d";
     decoded := Some (tied (Js.Num PrimFloat.nan) (Js.Num 50)) |}.
Definition fileTieNull : File :=
  {| path := "k.slp"; digest := Some "1e";
     decoded := Some (tied Js.Null (Js.Num 50)) |}.

(** A file that can be hashed but on which the decoder raises. *)
Definition fileCorrupt : File :=
  {| path := "x.slp"; digest := Some "0x"; decoded := None |}.

Definition me : Options :=
  {| playerTags := ["ALI#1"]; opponentTags := []; ignoredOpponents := [];
     playerCharacter := None; opponentCharacter := None; opt_rankedOnly := false |}.

(** The same request with a character name that is not in the table. *)
Definition me_as_foxx : Options :=
  {| playerTags := ["ALI#1"]; opponentTags := []; ignoredOpponents := [];
     playerCharacter := Some "Foxx"; opponentCharacter := None; opt_rankedOnly := false |}.

Definition folder (fs : list File) : World :=
  {| files := fs; win := true; cancelDuringYield := fun _ => false |}.

(** The user presses Cancel while the loop is suspended ahead of file
    [j]. *)
Definition cancelled_at (j : nat) (fs : list File) : World :=
  {| files := fs; win := true; cancelDuringYield := Nat.eqb j |}.

Definition dataA : GameData := gameData_of fileA (replay alice bob 2 20 31 4 2 5400 50 120).
Definition dataShort : GameData :=
  gameData_of fileShort (replay alice bob 2 20 31 1 0 1740 10 80).
Definition dataTie : GameData := gameData_of fileTie (tied (Js.Num 50) (Js.Num 120)).
Definition dataTieHigher : GameData :=
  gameData_of fileTieHigher (tied (Js.Num 120) (Js.Num 50)).
Definition dataTieLevel : GameData := gameData_of fileTieLevel (tied (Js.Num 80) (Js.Num 80)).
Definition dataTieNaN : GameData :=
  gameData_of fileTieNaN (tied (Js.Num PrimFloat.nan) (Js.Num 50)).
Definition dataTieNull : GameData := gameData_of fileTieNull (tied Js.Null (Js.Num 50)).

End Sample.

(* ===================================================================== *)
(** * Properties                                                          *)
(* ===================================================================== *)

(** ** Numbers *)

Lemma floor_of_zero (x : float) :
  PrimFloat.is_nan x = false -> PrimFloat.is_zero x = true -> Js.floor x = x.
Proof.
  intros Hn Hz. unfold Js.floor, Prim2SF. rewrite Hn, Hz. reflexivity.
Qed.

Lemma zero_below_thirty (x : float) :
  PrimFloat.is_nan x = false -> PrimFloat.is_zero x = true ->
  PrimFloat.ltb x 30%float = true.
Proof.
  intros Hn Hz. rewrite ltb_spec. unfold Prim2SF at 1. rewrite Hn, Hz.
  destruct (get_sign x); reflexivity.
Qed.

(** [Math.floor(x || 0) < 30] is [Math.floor(x) < 30] for every number. *)
Lemma floor_or_zero_below_thirty (x : float) :
  PrimFloat.is_nan x = false ->
  PrimFloat.ltb (Js.floor (Js.or_zero x)) 30%float = PrimFloat.ltb (Js.floor x) 30%float.
Proof.
  intros Hn. unfold Js.or_zero, Js.truthy_num. rewrite Hn. simpl.
  destruct (PrimFloat.is_zero x) eqn:Hz; simpl; [|reflexivity].
  rewrite (floor_of_zero x Hn Hz), (zero_below_thirty x Hn Hz). reflexivity.
Qed.

(** ** Single replay analysis *)

Lemma viewpoint_indices F p0 p1 self opp :
  viewpoint F p0 p1 = Some (self, opp) ->
  (self = 0%nat /\ opp = 1%nat) \/ (self = 1%nat /\ opp = 0%nat).
Proof.
  unfold viewpoint. intros H. repeat case_match; simplify_eq; auto.
Qed.

Lemma resolveSides_proceed F gameData sd :
  resolveSides F gameData = Proceed sd -> Resolved F gameData sd.
Proof.
  unfold resolveSides. intros H.
  destruct (rankedOnly F && negb (matchType_of gameData =? "Ranked")%string) eqn:Hr;
    [discriminate|].
  destruct (negb (Js.truthy_string (displayName (participant gameData 0)))
            || negb (Js.truthy_string (displayName (participant gameData 1))));
    [discriminate|].
  destruct (length (default [] (gd_metadata gameData)) <? 2)%nat; [discriminate|].
  destruct (gd_settings gameData) as [settings|] eqn:Hs; [|discriminate].
  destruct (players settings) as [ps|] eqn:Hp; [|discriminate].
  destruct (length ps <? 2)%nat; [discriminate|].
  destruct (viewpoint F (participant gameData 0) (participant gameData 1))
    as [[self opp]|] eqn:Hv; [|discriminate].
  destruct (isIgnoredOpponent _ _) eqn:Hi; [discriminate|].
  destruct (character_mismatch (playerCharacterFilter F) _) eqn:Hc1; [discriminate|].
  destruct (character_mismatch (opponentCharacterFilter F) _) eqn:Hc2; [discriminate|].
  injection H as <-.
  assert (Hchar : forall i, characterId_at gameData i = ps !! i ≫= characterId).
  { intros i. unfold characterId_at. rewrite Hs. destruct settings; simpl in *.
    rewrite Hp. reflexivity. }
  destruct (viewpoint_indices _ _ _ _ _ Hv) as [[-> ->]|[-> ->]];
    split; simpl in *; rewrite ?Hchar; auto.
  all: apply andb_false_iff in Hr as [Hr|Hr]; auto.
  all: right; apply negb_false_iff, String.eqb_eq in Hr; exact Hr.
Qed.

(** The duration and kill validation answers the partial object exactly
    when the floored duration is below 30 or nobody scored a kill. *)
Lemma classify_partial gameData sd :
  classify gameData sd = Return (RPartial (gd_total_seconds gameData)) <->
  PrimFloat.ltb (game_seconds_of gameData) 30%float = true \/
  (killCount gameData (playerIndex sd) = 0 /\ killCount gameData (opponentIndex sd) = 0).
Proof.
  unfold classify.
  destruct (PrimFloat.ltb (game_seconds_of gameData) 30%float) eqn:Hd.
  { split; auto. }
  destruct (killCount gameData (playerIndex sd) =? 0) eqn:H1;
    destruct (killCount gameData (opponentIndex sd) =? 0) eqn:H2; simpl;
    rewrite ?Z.eqb_eq, ?Z.eqb_neq in *.
  { split; auto. }
  all: split; [discriminate|]; intros [?|[? ?]]; congruence.
Qed.

Lemma classify_proceed gameData sd d :
  classify gameData sd = Proceed d ->
  PrimFloat.ltb (game_seconds_of gameData) 30%float = false /\
  ~ (killCount gameData (playerIndex sd) = 0 /\ killCount gameData (opponentIndex sd) = 0) /\
  res_total_games d = 1 /\
  res_total_wins d = (if didWin gameData (playerIndex sd) (opponentIndex sd) then 1 else 0) /\
  res_game_seconds d = game_seconds_of gameData /\
  player_index d = playerIndex sd /\
  opponent_index d = opponentIndex sd /\
  stage_num d = checked_stageId (sides_settings sd).
Proof.
  unfold classify.
  destruct (PrimFloat.ltb (game_seconds_of gameData) 30%float); [discriminate|].
  destruct (killCount gameData (playerIndex sd) =? 0) eqn:H1;
    destruct (killCount gameData (opponentIndex sd) =? 0) eqn:H2; simpl;
    rewrite ?Z.eqb_eq, ?Z.eqb_neq in *; [discriminate| | |].
  all: intros [= <-]; simpl; repeat split; auto; intros [? ?]; congruence.
Qed.

Lemma classify_total gameData sd :
  (exists d, classify gameData sd = Proceed d) \/
  classify gameData sd = Return (RPartial (gd_total_seconds gameData)).
Proof.
  unfold classify. repeat case_match; eauto.
Qed.

Lemma processSingleReplay_data F gameData d :
  processSingleReplay F gameData = RData d ->
  exists sd, resolveSides F gameData = Proceed sd /\ classify gameData sd = Proceed d.
Proof.
  unfold processSingleReplay, processSingleReplay_body.
  destruct (resolveSides F gameData) as [sd|r|] eqn:Hs; [| |discriminate].
  - destruct (classify gameData sd) as [d'|r|] eqn:Hc; [| |discriminate].
    + intros [= <-]. eauto.
    + destruct (classify_total gameData sd) as [[d' Hd]|Hd]; congruence.
  - intros ->. revert Hs. unfold resolveSides. repeat case_match; discriminate.
Qed.

Lemma processSingleReplay_resolved F gameData sd :
  resolveSides F gameData = Proceed sd ->
  processSingleReplay F gameData =
  match classify gameData sd with
  | Proceed d => RData d
  | Return r => r
  | Throw => RPartial (Js.or_zero (gd_total_seconds gameData))
  end.
Proof.
  intros H. unfold processSingleReplay, processSingleReplay_body. rewrite H. reflexivity.
Qed.



(** The tie-break on the sample games: the lower percentage wins; the
    higher one, an equal one and one that is not a number lose; [null]
    reads as 0 and wins against 50%. *)
Example tie_break_on_the_samples :
  let wins := fun gameData => res_total_wins <$> qualifying (filters_of Sample.me) gameData in
  wins Sample.dataTie = Some 1 /\
  wins Sample.dataTieHigher = Some 0 /\
  wins Sample.dataTieLevel = Some 0 /\
  wins Sample.dataTieNaN = Some 0 /\
  wins Sample.dataTieNull = Some 1.
Proof. vm_compute. repeat split. Qed.

(** C4.  For every match that reaches the duration and kill validation
    (lines 388-406), with a duration that is a number: the validation
    turns it away - answering the partial object - if and only if
    [Math.floor(duration) < 30] or both sides' kill counts are zero;
    otherwise the match passes and its [data] object is populated. *)
Theorem validation_excludes_iff_short_or_killless (F : Filters) (gameData : GameData) (sd : Sides) :
  resolveSides F gameData = Proceed sd ->
  PrimFloat.is_nan (gd_total_seconds gameData) = false ->
  let short := PrimFloat.ltb (Js.floor (gd_total_seconds gameData)) 30%float = true in
  let killless :=
    killCount gameData (playerIndex sd) = 0 /\ killCount gameData (opponentIndex sd) = 0 in
  (processSingleReplay F gameData = RPartial (gd_total_seconds gameData) <-> short \/ killless) /\
  ((exists d, processSingleReplay F gameData = RData d) <-> ~ (short \/ killless)).
Proof.
  intros Hs Hn. simpl.
  rewrite (processSingleReplay_resolved _ _ _ Hs).
  rewrite <- (floor_or_zero_below_thirty _ Hn).
  change (Js.floor (Js.or_zero (gd_total_seconds gameData))) with (game_seconds_of gameData).
  rewrite <- classify_partial.
  destruct (classify_total gameData sd) as [[d Hd]|Hd]; rewrite Hd.
  - split; [split; discriminate|]. split; [discriminate|]. eauto.
  - split; [tauto|]. split; [intros [d ?]; discriminate|]. tauto.
Qed.

Lemma validation_excludes_iff_short_or_killless_witness :
  exists sd,
    resolveSides (filters_of Sample.me) Sample.dataShort = Proceed sd /\
    PrimFloat.is_nan (gd_total_seconds Sample.dataShort) = false /\
    processSingleReplay (filters_of Sample.me) Sample.dataShort
    = RPartial (gd_total_seconds Sample.dataShort).
Proof.
  eexists. split; [vm_compute; reflexivity|]. split; [reflexivity|].
  refine (proj2 (proj1 (validation_excludes_iff_short_or_killless
                          (filters_of Sample.me) Sample.dataShort _ _ _)) _).
  - vm_compute. reflexivity.
  - reflexivity.
  - left. vm_compute. reflexivity.
Defined.

(** Three instances of the validation: 29 seconds with a kill on the
    board is turned away, 30 seconds with one kill passes, and no kills at
    all is turned away whatever the duration. *)
Example twenty_nine_seconds_excluded :
  gd_total_seconds Sample.dataShort = 29%float /\
  processSingleReplay (filters_of Sample.me) Sample.dataShort = RPartial 29%float.
Proof. split; vm_compute; reflexivity. Qed.

Example thirty_seconds_with_a_kill_passes :
  exists d,
    processSingleReplay (filters_of Sample.me)
      (gameData_of Sample.fileThirty (Sample.replay Sample.alice Sample.bob 2 20 31 1 0 1800 10 80))
    = RData d /\ res_game_seconds d = 30%float.
Proof. eexists. split; vm_compute; reflexivity. Qed.

Lemma killless_excluded_whatever_the_duration F gameData sd :
  resolveSides F gameData = Proceed sd ->
  killCount gameData (playerIndex sd) = 0 ->
  killCount gameData (opponentIndex sd) = 0 ->
  processSingleReplay F gameData = RPartial (gd_total_seconds gameData).
Proof.
  intros Hs H1 H2. rewrite (processSingleReplay_resolved _ _ _ Hs).
  assert (Hc : classify gameData sd = Return (RPartial (gd_total_seconds gameData)))
    by (apply classify_partial; auto).
  rewrite Hc. reflexivity.
Qed.

(** ** Exclusion *)

Lemma qualifying_data F gameData d :
  qualifying F gameData = Some d ->
  processSingleReplay F gameData = RData d /\ stage_invalid (stage_num d) = false.
Proof.
  unfold qualifying. destruct (processSingleReplay F gameData); try discriminate.
  destruct (stage_invalid (stage_num d0)) eqn:Hst; [discriminate|].
  intros [= <-]. auto.
Qed.

(** An excluded match never reaches the aggregation. *)
Lemma excluded_not_qualifying F gameData :
  Excluded F gameData -> qualifying F gameData = None.
Proof.
  intros Hex. destruct (qualifying F gameData) as [d|] eqn:Hq; [|reflexivity].
  exfalso. apply qualifying_data in Hq as [Hd Hst].
  destruct (processSingleReplay_data _ _ _ Hd) as (sd & Hs & Hc).
  apply resolveSides_proceed in Hs. apply classify_proceed in Hc.
  destruct Hc as (Hdur & Hk & _ & _ & _ & _ & _ & Hstage).
  destruct Hs as [Hr Hv Hset _ _ Hi Hc1 Hc2 Hm1 Hm2].
  destruct Hex as [Hro Hty|Hv'|self opp Hv' Hi'|self opp Hv' Hm|self opp Hv' Hm|Hd'|K0 K1|Hs'].
  - destruct Hr; congruence.
  - congruence.
  - rewrite Hv in Hv'. injection Hv' as <- <-. congruence.
  - rewrite Hv in Hv'. injection Hv' as <- <-. congruence.
  - rewrite Hv in Hv'. injection Hv' as <- <-. congruence.
  - congruence.
  - apply Hk. destruct (viewpoint_indices _ _ _ _ _ Hv) as [[-> ->]|[-> ->]]; auto.
  - rewrite Hset in Hs'. simpl in Hs'. congruence.
Qed.

Lemma acquire_frame file st gameData st1 :
  acquire file st = (gameData, st1) ->
  agg st1 = agg st /\ skippedCount st1 = skippedCount st /\
  sent st1 = sent st /\ cancelRequested st1 = cancelRequested st.
Proof.
  unfold acquire, store, failed_decode.
  repeat case_match; intros [= <- <-]; simpl; auto.
Qed.

(** The iteration on a file whose match does not qualify: one more
    skipped replay, and straight on to the next file. *)
Lemma handle_file_not_qualifying W F i file st gameData st1 :
  acquire file st = (Some gameData, st1) ->
  qualifying F gameData = None ->
  handle_file W F i file st = (skip st1, false).
Proof.
  intros Ha Hq. unfold handle_file, try_block, account. rewrite Ha.
  unfold qualifying in Hq.
  destruct (processSingleReplay F gameData) as [| |d]; try reflexivity.
  destruct (stage_invalid (stage_num d)); [reflexivity|discriminate].
Qed.

(** C1.  For every replay file whose game data - read from the cache or
    just decoded - is excluded by the ranked gate, the viewpoint, the
    ignore list, a character filter, the duration, the kill counts or the
    stage check, the iteration of [analyzeReplays] on that file leaves
    every aggregate unchanged (total games, total wins, raw scanned
    seconds, counted seconds, stage tables, matchup table, character
    playtime, misc counters and streaks), adds exactly one to the skipped
    counter and sends no event; the cache and its counter are as the
    lookup of lines 544-583 left them. *)
Theorem excluded_match_only_counts_as_skipped
    (W : World) (F : Filters) (i : nat) (file : File) (st st1 : Run) (gameData : GameData) :
  acquire file st = (Some gameData, st1) ->
  Excluded F gameData ->
  handle_file W F i file st = (skip st1, false) /\
  agg (skip st1) = agg st /\
  skippedCount (skip st1) = skippedCount st + 1 /\
  sent (skip st1) = sent st.
Proof.
  intros Ha Hex. split.
  - eapply handle_file_not_qualifying; eauto using excluded_not_qualifying.
  - apply acquire_frame in Ha as (Hagg & Hsk & Hsent & _). simpl.
    rewrite Hagg, Hsk, Hsent. auto.
Qed.

Lemma excluded_match_only_counts_as_skipped_witness :
  let W := Sample.folder [Sample.fileShort] in
  let st1 := store Sample.fileShort Sample.dataShort (start ∅) in
  handle_file W (filters_of Sample.me) 0 Sample.fileShort (start ∅) = (skip st1, false) /\
  agg (skip st1) = no_aggregates /\
  skippedCount (skip st1) = 0 + 1 /\
  sent (skip st1) = [].
Proof.
  apply (excluded_match_only_counts_as_skipped
           (Sample.folder [Sample.fileShort]) (filters_of Sample.me) 0
           Sample.fileShort (start ∅)
           (store Sample.fileShort Sample.dataShort (start ∅)) Sample.dataShort).
  - reflexivity.
  - apply excluded_duration. vm_compute. reflexivity.
Defined.

(** ** The character filter *)

Lemma resolveCharacterFilter_unknown (name : string) :
  Js.indexOf characters_lowercase (Js.toLowerCase name) = None ->
  resolveCharacterFilter (Some name) = None.
Proof.
  intros H. unfold resolveCharacterFilter. rewrite H.
  destruct (negb (Js.truthy_string name)); reflexivity.
Qed.

(** C2, as the code has it.  For every character-filter name that is not
    (case-insensitively) in the fixed character name table,
    [resolveCharacterFilter] answers [null], the value it answers for an
    absent name: the filter turns no match away, and [analyzeReplays] runs
    exactly as it does with no character filter - same filters, hence the
    same loop, states, events and aggregates. *)
Theorem unknown_character_is_no_filter (name : string) :
  Js.indexOf characters_lowercase (Js.toLowerCase name) = None ->
  resolveCharacterFilter (Some name) = resolveCharacterFilter None /\
  (forall charId, character_mismatch (resolveCharacterFilter (Some name)) charId = false) /\
  (forall o,
      filters_of (with_playerCharacter (Some name) o) = filters_of (with_playerCharacter None o) /\
      filters_of (with_opponentCharacter (Some name) o)
      = filters_of (with_opponentCharacter None o)) /\
  (forall W o disk,
      let named := analyzeReplays W (with_playerCharacter (Some name) o) disk in
      let plain := analyzeReplays W (with_playerCharacter None o) disk in
      written named = written plain /\ events named = events plain /\
      decodes named = decodes plain /\
      loop W (filters_of (with_playerCharacter (Some name) o)) 0 (files W) (start disk)
      = loop W (filters_of (with_playerCharacter None o)) 0 (files W) (start disk)).
Proof.
  intros H. pose proof (resolveCharacterFilter_unknown name H) as Hr.
  assert (Hf : forall o,
             filters_of (with_playerCharacter (Some name) o)
             = filters_of (with_playerCharacter None o) /\
             filters_of (with_opponentCharacter (Some name) o)
             = filters_of (with_opponentCharacter None o)).
  { intros o. unfold filters_of. cbn -[resolveCharacterFilter]. rewrite Hr. auto. }
  split; [exact Hr|]. split; [intros c; rewrite Hr; reflexivity|]. split; [exact Hf|].
  intros W o disk. simpl. unfold analyzeReplays.
  rewrite (proj1 (Hf o)).
  destruct (loop W (filters_of (with_playerCharacter None o)) 0 (files W) (start disk))
    as [st []]; simpl; auto.
Qed.

Lemma unknown_character_is_no_filter_witness :
  Js.indexOf characters_lowercase (Js.toLowerCase "Foxx") = None /\
  resolveCharacterFilter (Some "Foxx") = resolveCharacterFilter None.
Proof.
  split; [reflexivity|].
  exact (proj1 (unknown_character_is_no_filter "Foxx" eq_refl)).
Defined.

(** C2 as stated fails: "Foxx" is a non-empty name outside the table, the
    filter it resolves to is the absent filter rather than one that never
    matches, and the run over a folder holding one good match still
    reports that match as a qualifying game. *)
Lemma unknown_character_filter_still_matches :
  Js.indexOf characters_lowercase (Js.toLowerCase "Foxx") = None /\
  resolveCharacterFilter (Some "Foxx") = None /\
  exists f,
    report (analyzeReplays (Sample.folder [Sample.fileA]) Sample.me_as_foxx ∅)
    = Some (GamesFound f) /\
    totalGames f = 1.
Proof.
  split; [reflexivity|]. split; [reflexivity|].
  eexists. split; [vm_compute; reflexivity|]. reflexivity.
Qed.

(** ** Rates *)

Lemma digit_is_digit (k : Z) : 0 <= k < 10 -> Js.is_digit (Js.digit k) = true.
Proof.
  intros H.
  assert (k = 0 \/ k = 1 \/ k = 2 \/ k = 3 \/ k = 4 \/ k = 5 \/ k = 6 \/ k = 7 \/ k = 8 \/ k = 9)
    as Hk by lia.
  destruct Hk as [->|[->|[->|[->|[->|[->|[->|[->|[->| ->]]]]]]]]]; reflexivity.
Qed.

Lemma string_app_assoc (a b c : string) : ((a ++ b) ++ c = a ++ (b ++ c))%string.
Proof.
  induction a as [|x a IH]; [reflexivity|].
  change (String x ((a ++ b) ++ c) = String x (a ++ (b ++ c)))%string.
  rewrite IH. reflexivity.
Qed.

Lemma fixed2_of_two_decimals (sign : string) (n : Z) :
  two_decimals (sign ++ Js.fixed2_of n)%string.
Proof.
  exists (sign ++ Js.string_of_Z (n / 100))%string, (Js.digit ((n / 10) mod 10)),
    (Js.digit (n mod 10)).
  split; [unfold Js.fixed2_of; rewrite string_app_assoc; reflexivity|].
  split; apply digit_is_digit; apply Z.mod_pos_bound; lia.
Qed.

(** [toFixed(2)] of a finite number is digits, a point and two digits. *)
Lemma toFixed2_two_decimals (x : float) :
  finite_number x -> two_decimals (Js.toFixed2 x).
Proof.
  unfold finite_number, Js.toFixed2. destruct (Prim2SF x) as [s|s| |s m e]; try tauto.
  - intros _. exists "0", "0"%char, "0"%char. auto.
  - intros _. apply fixed2_of_two_decimals.
Qed.

Lemma Forall_insert_desc {A} (key : A -> Z) (P : A -> Prop) x l :
  P x -> Forall P l -> Forall P (Js.insert_desc key x l).
Proof.
  intros Hx Hl. induction Hl as [|y l Hy Hl IH]; simpl; [auto|].
  destruct (key x <? key y); auto.
Qed.

Lemma Forall_sort_desc {A} (key : A -> Z) (P : A -> Prop) l :
  Forall P l -> Forall P (Js.sort_desc key l).
Proof.
  unfold Js.sort_desc. induction 1; simpl; auto using Forall_insert_desc.
Qed.

Lemma Forall_set {V} (P : string * V -> Prop) k v (o : list (string * V)) :
  (forall k', P (k', v)) -> Forall P o -> Forall P (Js.set k v o).
Proof.
  intros Hv Ho. induction Ho as [|[k' v'] o Hx Ho IH]; simpl; [auto|].
  destruct (String.eqb k' k); auto.
Qed.

Lemma sortedStageResults_Forall (P : StageRow -> Prop) (Q : string * StageEntry -> Prop) rows :
  (forall k row, P row ->
     Q (k, {| se_games := sr_games row; se_wins := sr_wins row;
              se_winrate := sr_winrate row; se_playtime := sr_playtime row |})) ->
  Forall P rows -> Forall Q (sortedStageResults rows).
Proof.
  intros HPQ. unfold sortedStageResults. generalize (@nil (string * StageEntry)) (List.Forall_nil Q).
  induction rows as [|r rows IH]; intros acc Hacc Hrows; simpl; [exact Hacc|].
  inversion Hrows; subst. apply IH; [|assumption].
  apply Forall_set; [|assumption]. intros k'. apply HPQ. assumption.
Qed.

Lemma stageResults_rates a :
  Forall (fun r => sr_winrate r = rate (sr_wins r) (sr_games r)) (stageResults a).
Proof.
  unfold stageResults. apply Forall_map. apply Forall_forall. intros [k g] _. reflexivity.
Qed.

(** *** The doubles of a rate are finite *)

(** The number of binary digits of a positive integer. *)
Lemma digits2_pos_size (p : positive) : digits2_pos p = Pos.size p.
Proof. induction p as [p IH|p IH|]; simpl; congruence. Qed.

Lemma Zdigits2_log2 (m : Z) : 0 < m -> Zdigits2 m = Z.log2 m + 1.
Proof.
  destruct m as [|p|p]; try lia. intros _. simpl. rewrite digits2_pos_size.
  destruct p as [p|p|]; simpl; try reflexivity; rewrite Pos2Z.inj_succ; lia.
Qed.

Lemma Zdigits2_zero : Zdigits2 0 = 0.
Proof. reflexivity. Qed.

Lemma Zdigits2_nonneg (m : Z) : 0 <= Zdigits2 m.
Proof. destruct m; simpl; lia. Qed.

Lemma Zdigits2_pos (m : Z) : 0 < m -> 1 <= Zdigits2 m.
Proof. intros H. rewrite Zdigits2_log2 by exact H. pose proof (Z.log2_nonneg m). lia. Qed.

Lemma Zdigits2_mono (a b : Z) : 0 <= a <= b -> Zdigits2 a <= Zdigits2 b.
Proof.
  intros [Ha Hab]. destruct (Z.eq_dec a 0) as [->|Hne]; [apply Zdigits2_nonneg|].
  rewrite !Zdigits2_log2 by lia. pose proof (Z.log2_le_mono a b Hab). lia.
Qed.

Lemma Zdigits2_succ (a : Z) : 0 <= a -> Zdigits2 (a + 1) <= Zdigits2 a + 1.
Proof.
  intros Ha. destruct (Z.eq_dec a 0) as [->|Hne]; [simpl; lia|].
  rewrite !Zdigits2_log2 by lia. pose proof (Z.log2_succ_le a). unfold Z.succ in *. lia.
Qed.

Lemma Zdigits2_mul (a b : Z) : 0 < a -> 0 < b -> Zdigits2 (a * b) <= Zdigits2 a + Zdigits2 b.
Proof.
  intros Ha Hb. rewrite !Zdigits2_log2 by lia.
  pose proof (Z.log2_mul_above a b ltac:(lia) ltac:(lia)). lia.
Qed.

Lemma Zdigits2_mul_pow2 (a k : Z) : 0 < a -> 0 <= k -> Zdigits2 (a * 2 ^ k) = Zdigits2 a + k.
Proof.
  intros Ha Hk. assert (0 < 2 ^ k) by (apply Z.pow_pos_nonneg; lia).
  rewrite !Zdigits2_log2 by lia. rewrite Z.log2_mul_pow2 by lia. lia.
Qed.

(** Dropping [k] low bits drops [k] digits, as long as something is left. *)
Lemma Zdigits2_div_pow2 (a k : Z) :
  0 <= a -> 0 <= k ->
  (0 < a / 2 ^ k -> Zdigits2 (a / 2 ^ k) = Zdigits2 a - k) /\
  (a / 2 ^ k = 0 -> Zdigits2 a <= k).
Proof.
  intros Ha Hk. assert (Hp : 0 < 2 ^ k) by (apply Z.pow_pos_nonneg; lia).
  destruct (Z.lt_ge_cases a (2 ^ k)) as [Hlt|Hge].
  - rewrite Z.div_small by lia. split; [lia|]. intros _.
    destruct (Z.eq_dec a 0) as [->|Hne]; [simpl; lia|].
    rewrite Zdigits2_log2 by lia. apply Z.log2_lt_pow2 in Hlt; lia.
  - assert (Hq : 0 < a / 2 ^ k).
    { pose proof (Z.div_le_mono (2 ^ k) a (2 ^ k) Hp Hge) as Hd.
      rewrite Z.div_same in Hd by lia. lia. }
    split; [|lia]. intros _.
    rewrite !Zdigits2_log2 by lia.
    rewrite <- Z.shiftr_div_pow2, Z.log2_shiftr by lia.
    apply Z.log2_le_pow2 in Hge; lia.
Qed.

Lemma fexp_eq (x : Z) : fexp prec emax x = Z.max (x - 53) (-1074).
Proof. reflexivity. Qed.

(** One shift to the right halves the mantissa. *)
Lemma shr_1_m (mrs : shr_record) : 0 <= shr_m mrs -> shr_m (shr_1 mrs) = shr_m mrs / 2.
Proof.
  destruct mrs as [m r s]. simpl. intros Hm.
  destruct m as [|[p|p|]|p]; simpl; try lia; try reflexivity.
  - apply Z.div_unique with 1; lia.
  - apply Z.div_unique with 0; lia.
Qed.

Lemma iter_shr_m (p : positive) : forall mrs,
  0 <= shr_m mrs -> shr_m (SpecFloat.iter_pos shr_1 p mrs) = shr_m mrs / 2 ^ Z.pos p.
Proof.
  induction p as [p IH|p IH|]; intros mrs Hm; cbn [SpecFloat.iter_pos].
  - assert (H1 : 0 <= shr_m (shr_1 mrs)) by (rewrite shr_1_m by lia; apply Z.div_pos; lia).
    assert (Hp : 0 < 2 ^ Z.pos p) by (apply Z.pow_pos_nonneg; lia).
    assert (H2 : 0 <= shr_m (SpecFloat.iter_pos shr_1 p (shr_1 mrs)))
      by (rewrite IH by lia; apply Z.div_pos; lia).
    rewrite IH, IH, shr_1_m by lia. rewrite !Z.div_div by lia. f_equal.
    replace (Z.pos p~1) with (1 + Z.pos p + Z.pos p) by lia.
    rewrite !Z.pow_add_r, Z.pow_1_r by lia. lia.
  - assert (Hp : 0 < 2 ^ Z.pos p) by (apply Z.pow_pos_nonneg; lia).
    assert (H2 : 0 <= shr_m (SpecFloat.iter_pos shr_1 p mrs))
      by (rewrite IH by lia; apply Z.div_pos; lia).
    rewrite IH, IH by lia. rewrite !Z.div_div by lia. f_equal.
    replace (Z.pos p~0) with (Z.pos p + Z.pos p) by lia.
    rewrite Z.pow_add_r by lia. lia.
  - apply shr_1_m. exact Hm.
Qed.

(** [shr_fexp] drops the [k] low bits that do not fit the format. *)
Lemma shr_fexp_spec (m e : Z) (l : location) :
  0 <= m ->
  let k := Z.max (fexp prec emax (Zdigits2 m + e) - e) 0 in
  shr_m (fst (shr_fexp prec emax m e l)) = m / 2 ^ k /\
  snd (shr_fexp prec emax m e l) = e + k.
Proof.
  intros Hm k. unfold shr_fexp, shr. subst k.
  assert (Hr : shr_m (shr_record_of_loc m l) = m) by (destruct l as [|[]]; reflexivity).
  destruct (fexp prec emax (Zdigits2 m + e) - e) as [|p|p]; cbn [fst snd].
  - rewrite Hr. change (Z.max 0 0) with 0. rewrite Z.div_1_r. split; [reflexivity|lia].
  - rewrite iter_shr_m by lia. rewrite Hr.
    replace (Z.max (Z.pos p) 0) with (Z.pos p) by lia. split; reflexivity.
  - rewrite Hr. replace (Z.max (Z.neg p) 0) with 0 by lia.
    rewrite Z.div_1_r. split; [reflexivity|lia].
Qed.

Lemma round_nearest_even_bounds (m : Z) (l : location) :
  m <= round_nearest_even m l <= m + 1.
Proof. destruct l as [|[]]; simpl; try lia. destruct (Z.even m); lia. Qed.

(** Rounding a non-negative mantissa whose magnitude is far from the
    overflow threshold: the result is a zero or a finite double of about
    the same magnitude, and it is no zero unless the input is zero or
    below the normal range. *)
Lemma binary_round_aux_finite (sx : bool) (mx ex : Z) (lx : location) :
  0 <= mx -> ex <= 900 -> Zdigits2 mx + ex <= 1000 ->
  match binary_round_aux prec emax sx mx ex lx with
  | S754_zero _ => 0 < mx -> Zdigits2 mx + ex < -1021
  | S754_finite _ m e =>
      Zdigits2 mx + ex <= Z.pos (digits2_pos m) + e <= Z.max (Zdigits2 mx + ex + 1) (-1073)
  | _ => False
  end.
Proof.
  intros Hm He HD. unfold binary_round_aux.
  pose proof (shr_fexp_spec mx ex lx Hm) as [A1 A2]. cbv zeta in A1, A2.
  destruct (shr_fexp prec emax mx ex lx) as [mrs1 e1]. cbn [fst snd] in A1, A2.
  set (D := Zdigits2 mx + ex) in *.
  set (k1 := Z.max (fexp prec emax D - ex) 0) in *.
  assert (Hk1 : 0 <= k1) by lia.
  assert (Hp1 : 0 < 2 ^ k1) by (apply Z.pow_pos_nonneg; lia).
  assert (Hm0 : 0 <= shr_m mrs1) by (rewrite A1; apply Z.div_pos; lia).
  pose proof (round_nearest_even_bounds (shr_m mrs1) (loc_of_shr_record mrs1)) as Hr.
  set (m1 := round_nearest_even (shr_m mrs1) (loc_of_shr_record mrs1)) in *.
  assert (Hm1 : 0 <= m1) by lia.
  pose proof (shr_fexp_spec m1 e1 loc_Exact Hm1) as [B1 B2]. cbv zeta in B1, B2.
  destruct (shr_fexp prec emax m1 e1 loc_Exact) as [mrs2 e2]. cbn [fst snd] in B1, B2.
  set (D1 := Zdigits2 m1 + e1) in *.
  set (k2 := Z.max (fexp prec emax D1 - e1) 0) in *.
  assert (Hk2 : 0 <= k2) by lia.
  assert (Hp2 : 0 < 2 ^ k2) by (apply Z.pow_pos_nonneg; lia).
  assert (Hmf : 0 <= shr_m mrs2) by (rewrite B1; apply Z.div_pos; lia).
  (* the magnitude after the first shift and the rounding *)
  destruct (Zdigits2_div_pow2 mx k1 Hm Hk1) as [Q1 Q2]. rewrite <- A1 in Q1, Q2.
  pose proof (Zdigits2_mono (shr_m mrs1) m1 ltac:(lia)) as M1.
  pose proof (Zdigits2_mono m1 (shr_m mrs1 + 1) ltac:(lia)) as M2.
  pose proof (Zdigits2_succ (shr_m mrs1) Hm0) as M3.
  pose proof (Zdigits2_nonneg mx) as N0.
  pose proof (Zdigits2_nonneg (shr_m mrs1)) as N1.
  pose proof (fexp_eq D) as FD. pose proof (fexp_eq D1) as FD1.
  assert (U : D1 <= Z.max (D + 1) (-1073)).
  { unfold D1. destruct (Z.eq_dec (shr_m mrs1) 0) as [Z0|NZ].
    - rewrite Z0 in *. simpl in M2. specialize (Q2 eq_refl). unfold k1, D in *. lia.
    - specialize (Q1 ltac:(lia)). unfold k1, D in *. lia. }
  destruct (Zdigits2_div_pow2 m1 k2 Hm1 Hk2) as [R1 R2]. rewrite <- B1 in R1, R2.
  destruct (shr_m mrs2) as [|mf|mf] eqn:Ef; [| |lia].
  - (* zero *)
    intros Hpos. specialize (R2 eq_refl).
    destruct (Z_lt_le_dec D (-1021)) as [|Hn]; [assumption|exfalso].
    assert (Hd : 1 <= Zdigits2 mx) by (apply Zdigits2_pos; exact Hpos).
    assert (Hq : 0 < shr_m mrs1).
    { destruct (Z.eq_dec (shr_m mrs1) 0) as [Z0|NZ]; [|lia].
      specialize (Q2 Z0). unfold k1, D in *. lia. }
    specialize (Q1 Hq).
    assert (1 <= Zdigits2 m1) by (apply Zdigits2_pos; lia).
    unfold k2, D1, k1, D in *. lia.
  - (* a positive mantissa *)
    specialize (R1 ltac:(lia)). change (Zdigits2 (Z.pos mf)) with (Z.pos (digits2_pos mf)) in R1.
    assert (L : D <= D1).
    { unfold D1. destruct (Z.eq_dec (shr_m mrs1) 0) as [Z0|NZ].
      - specialize (Q2 Z0).
        assert (1 <= Zdigits2 m1).
        { apply Zdigits2_pos. destruct (Z.eq_dec m1 0) as [E0|]; [|lia].
          rewrite E0, Z.div_0_l in B1 by lia. discriminate. }
        unfold k1, D in *. lia.
      - specialize (Q1 ltac:(lia)). unfold k1, D in *. lia. }
    assert (Hover : e2 <= 971) by (unfold k2, k1, D1, D in *; lia).
    change (emax - prec) with 971.
    destruct (Z.leb_spec e2 971); [|lia].
    unfold k2, D1 in *. lia.
Qed.

Lemma Zdigits2_mul_below (a b : Z) :
  0 < a -> 0 < b -> Zdigits2 a + Zdigits2 b - 1 <= Zdigits2 (a * b).
Proof.
  intros Ha Hb. rewrite !Zdigits2_log2 by lia.
  pose proof (Z.log2_mul_below a b Ha Hb). lia.
Qed.

(** The exponent of a finite double is the one its magnitude calls for. *)
Lemma finite_canonical (x : float) (s : bool) (m : positive) (e : Z) :
  Prim2SF x = S754_finite s m e -> e = Z.max (Z.pos (digits2_pos m) + e - 53) (-1074).
Proof.
  intros H. pose proof (Prim2SF_valid x) as V. rewrite H in V.
  unfold valid_binary, bounded, canonical_mantissa in V.
  apply andb_true_iff in V as [V _]. apply Z.eqb_eq in V. rewrite fexp_eq in V. lia.
Qed.

Lemma digits2_pos_iter_xO (m k : positive) :
  Z.pos (digits2_pos (Pos.iter xO m k)) = Z.pos (digits2_pos m) + Z.pos k.
Proof.
  induction k as [|k IH] using Pos.peano_ind.
  - simpl. lia.
  - rewrite Pos.iter_succ. simpl. lia.
Qed.

Lemma shl_align_spec (mx : positive) (ex ex' : Z) :
  snd (shl_align mx ex ex') <= ex /\
  Z.pos (digits2_pos (fst (shl_align mx ex ex'))) + snd (shl_align mx ex ex')
  = Z.pos (digits2_pos mx) + ex.
Proof.
  unfold shl_align. destruct (ex' - ex) as [|k|k] eqn:E; cbn [fst snd]; try lia.
  rewrite digits2_pos_iter_xO. lia.
Qed.

(** The double of a 63-bit integer is a zero, for 0, or a finite double
    of the magnitude of the integer. *)
Lemma of_uint63_finite (n : int) :
  match Prim2SF (PrimFloat.of_uint63 n) with
  | S754_zero _ => Uint63.to_Z n = 0
  | S754_finite _ m e => 1 <= Z.pos (digits2_pos m) + e <= 64
  | _ => False
  end.
Proof.
  rewrite of_uint63_spec. pose proof (Uint63.to_Z_bounded n) as Hn.
  change wB with (2 ^ 63) in Hn.
  destruct (Uint63.to_Z n) as [|p|p]; try lia; cbn [binary_normalize]; [reflexivity|].
  unfold binary_round.
  pose proof (shl_align_spec p 0 (fexp prec emax (Z.pos (digits2_pos p) + 0))) as [S1 S2].
  destruct (shl_align p 0 _) as [mz ez]. cbn [fst snd] in S1, S2.
  assert (Hd : 1 <= Zdigits2 (Z.pos p) <= 63).
  { split; [apply Zdigits2_pos; lia|]. rewrite Zdigits2_log2 by lia.
    assert (Z.log2 (Z.pos p) < 63) by (apply Z.log2_lt_pow2; lia). lia. }
  change (Zdigits2 (Z.pos p)) with (Z.pos (digits2_pos p)) in Hd.
  pose proof (binary_round_aux_finite false (Z.pos mz) ez loc_Exact) as R.
  change (Zdigits2 (Z.pos mz)) with (Z.pos (digits2_pos mz)) in R.
  specialize (R ltac:(lia) ltac:(lia) ltac:(lia)).
  destruct (binary_round_aux prec emax false (Z.pos mz) ez loc_Exact) as [s|s| |s m e];
    try contradiction; [|lia].
  specialize (R ltac:(lia)). lia.
Qed.


(** The double of a positive integer below [2^63] is no zero. *)
Lemma of_Z_finite (z : Z) :
  0 < z < 2 ^ 63 ->
  exists s m e,
    Prim2SF (Js.of_Z z) = S754_finite s m e /\ 1 <= Z.pos (digits2_pos m) + e <= 64.
Proof.
  intros Hz. unfold Js.of_Z. destruct (Z.ltb_spec z 0) as [|_]; [lia|].
  pose proof (of_uint63_finite (Uint63.of_Z z)) as H.
  rewrite Uint63.of_Z_spec, Z.mod_small in H by (change wB with (2 ^ 63); lia).
  destruct (Prim2SF (of_uint63 (Uint63.of_Z z))) as [s|s| |s m e]; try contradiction; [lia|].
  eauto.
Qed.

(** The quotient of two finite doubles is a zero or a finite double when
    the magnitudes are far from the range of the format. *)
Lemma SFdiv_finite (s1 : bool) (m1 : positive) (e1 : Z) (s2 : bool) (m2 : positive) (e2 : Z) :
  e1 - e2 <= 900 ->
  (Z.pos (digits2_pos m1) + e1) - (Z.pos (digits2_pos m2) + e2) <= 900 ->
  match SFdiv prec emax (S754_finite s1 m1 e1) (S754_finite s2 m2 e2) with
  | S754_zero _ => True
  | S754_finite _ m e =>
      Z.pos (digits2_pos m) + e
      <= Z.max (Z.max (e1 - e2)
                  ((Z.pos (digits2_pos m1) + e1) - (Z.pos (digits2_pos m2) + e2) + 1) + 1)
               (-1073)
  | _ => False
  end.
Proof.
  intros He HD. unfold SFdiv, SFdiv_core_binary.
  change (Zdigits2 (Z.pos m1)) with (Z.pos (digits2_pos m1)).
  change (Zdigits2 (Z.pos m2)) with (Z.pos (digits2_pos m2)).
  set (d1 := Z.pos (digits2_pos m1)) in *. set (d2 := Z.pos (digits2_pos m2)) in *.
  set (e' := Z.min (fexp prec emax (d1 + e1 - (d2 + e2))) (e1 - e2)).
  set (s := e1 - e2 - e').
  assert (Hs : 0 <= s) by (unfold s, e'; lia).
  set (m' := match s with Z.pos _ => Z.shiftl (Z.pos m1) s | 0 => Z.pos m1 | Z.neg _ => 0 end).
  assert (Hm' : m' = Z.pos m1 * 2 ^ s).
  { unfold m'. destruct s as [|k|k]; [lia| |lia]. apply Z.shiftl_mul_pow2. lia. }
  destruct (Z.div_eucl m' (Z.pos m2)) as [q r] eqn:E.
  assert (Hq : q = m' / Z.pos m2) by (unfold Z.div; rewrite E; reflexivity).
  assert (Hp : 0 < 2 ^ s) by (apply Z.pow_pos_nonneg; lia).
  assert (Hq0 : 0 <= q) by (rewrite Hq; apply Z.div_pos; lia).
  assert (HDq : Zdigits2 q + e' <= Z.max e' (d1 + e1 - (d2 + e2) + 1)).
  { destruct (Z.eq_dec q 0) as [->|Hne]; [simpl; lia|].
    pose proof (Z.mul_div_le m' (Z.pos m2) ltac:(lia)) as Hle. rewrite <- Hq in Hle.
    pose proof (Zdigits2_mono (Z.pos m2 * q) m' ltac:(lia)) as Hmono.
    pose proof (Zdigits2_mul_below (Z.pos m2) q ltac:(lia) ltac:(lia)) as Hb.
    rewrite Hm', Zdigits2_mul_pow2 in Hmono by lia.
    change (Zdigits2 (Z.pos m1)) with d1 in Hmono.
    change (Zdigits2 (Z.pos m2)) with d2 in Hb. unfold s in *. lia. }
  pose proof (binary_round_aux_finite (xorb s1 s2) q e' (new_location (Z.pos m2) r)
                Hq0 ltac:(unfold e'; lia) ltac:(unfold e' in *; lia)) as R.
  destruct (binary_round_aux prec emax (xorb s1 s2) q e' _) as [t|t| |t m e];
    try contradiction; [exact I|].
  unfold e' in *. lia.
Qed.

(** Likewise for the product. *)
Lemma SFmul_finite (s1 : bool) (m1 : positive) (e1 : Z) (s2 : bool) (m2 : positive) (e2 : Z) :
  e1 + e2 <= 900 ->
  (Z.pos (digits2_pos m1) + e1) + (Z.pos (digits2_pos m2) + e2) <= 1000 ->
  match SFmul prec emax (S754_finite s1 m1 e1) (S754_finite s2 m2 e2) with
  | S754_zero _ | S754_finite _ _ _ => True
  | _ => False
  end.
Proof.
  intros He HD. unfold SFmul.
  pose proof (Zdigits2_mul (Z.pos m1) (Z.pos m2) ltac:(lia) ltac:(lia)) as Hm.
  change (Zdigits2 (Z.pos m1)) with (Z.pos (digits2_pos m1)) in Hm.
  change (Zdigits2 (Z.pos m2)) with (Z.pos (digits2_pos m2)) in Hm.
  change (Z.pos m1 * Z.pos m2) with (Z.pos (m1 * m2)) in Hm.
  pose proof (binary_round_aux_finite (xorb s1 s2) (Z.pos (m1 * m2)) (e1 + e2) loc_Exact
                ltac:(lia) He ltac:(lia)) as R.
  destruct (binary_round_aux prec emax (xorb s1 s2) (Z.pos (m1 * m2)) (e1 + e2) loc_Exact);
    try contradiction; exact I.
Qed.

(** [(wins / games) * 100] is a zero or a finite double for all the counts
    that a double holds exactly. *)
Lemma percentage_finite (wins games : Z) :
  0 <= wins < 2 ^ 63 -> 0 < games < 2 ^ 63 ->
  finite_number (PrimFloat.mul (PrimFloat.div (Js.of_Z wins) (Js.of_Z games)) 100%float).
Proof.
  intros Hw Hg. unfold finite_number. rewrite mul_spec, div_spec.
  change (Prim2SF 100) with (S754_finite false 7036874417766400 (-46)).
  destruct (of_Z_finite games Hg) as (s2 & m2 & e2 & G & HG).
  pose proof (finite_canonical _ _ _ _ G) as C2. rewrite G.
  destruct (Z.eq_dec wins 0) as [->|Hne].
  { change (Prim2SF (Js.of_Z 0)) with (S754_zero false). reflexivity. }
  destruct (of_Z_finite wins ltac:(lia)) as (s1 & m1 & e1 & Wf & HW).
  pose proof (finite_canonical _ _ _ _ Wf) as C1. rewrite Wf.
  pose proof (SFdiv_finite s1 m1 e1 s2 m2 e2 ltac:(lia) ltac:(lia)) as Q.
  pose proof (div_spec (Js.of_Z wins) (Js.of_Z games)) as Dv. rewrite Wf, G in Dv.
  unfold SF64div in *.
  destruct (SFdiv prec emax (S754_finite s1 m1 e1) (S754_finite s2 m2 e2)) as [t|t| |t m e];
    try contradiction.
  - reflexivity.
  - pose proof (finite_canonical _ _ _ _ Dv) as C.
    pose proof (SFmul_finite t m e false 7036874417766400 (-46) ltac:(lia)) as P.
    change (Z.pos (digits2_pos 7036874417766400)) with 53 in P.
    specialize (P ltac:(lia)). unfold SF64mul.
    destruct (SFmul prec emax (S754_finite t m e) _); try contradiction; exact I.
Qed.

Lemma rate_two_decimals (wins games : Z) :
  0 <= wins < 2 ^ 63 -> 0 <= games < 2 ^ 63 -> two_decimals (rate wins games).
Proof.
  intros Hw Hg. unfold rate, truthy_Z.
  destruct (Z.eqb_spec games 0); simpl.
  - exists "0", "0"%char, "0"%char. auto.
  - apply toFixed2_two_decimals, percentage_finite; lia.
Qed.


(** ** Progress events *)

(** C7 at the failing input: a folder of one file, a 29-second match that
    the duration check turns away.  The run ends without any event: the
    [continue] of line 610 jumps over the progress message of lines
    757-762, so [{processed: 1, total: 1}] is never sent.  In a folder
    where a good replay comes first, the only progress event is that of
    the good replay.  The sibling path does send it: a file on which the
    decoder raises leaves the [try] block through the [catch], and its
    progress event follows. *)
Lemma skipped_file_sends_no_progress :
  events (analyzeReplays (Sample.folder [Sample.fileShort]) Sample.me ∅) = [] /\
  events (analyzeReplays (Sample.folder [Sample.fileA; Sample.fileShort]) Sample.me ∅)
  = [MatchLog "Alice" "Bob" "Battlefield" true; Progress 1 2] /\
  events (analyzeReplays (Sample.folder [Sample.fileCorrupt]) Sample.me ∅) = [Progress 1 1].
Proof. repeat split; vm_compute; reflexivity. Qed.

(** ** Tables with observable key order *)

Lemma get_set_eq {V} k v (o : list (string * V)) : Js.get k (Js.set k v o) = Some v.
Proof.
  induction o as [|[k' v'] o IH]; simpl.
  - rewrite String.eqb_refl. reflexivity.
  - destruct (String.eqb_spec k' k) as [->|Hne]; simpl.
    + rewrite String.eqb_refl. reflexivity.
    + destruct (String.eqb_spec k' k); [contradiction|exact IH].
Qed.

Lemma get_set_ne {V} k k' v (o : list (string * V)) :
  k <> k' -> Js.get k' (Js.set k v o) = Js.get k' o.
Proof.
  intros Hne. induction o as [|[k0 v0] o IH]; simpl.
  - destruct (String.eqb_spec k k'); [contradiction|reflexivity].
  - destruct (String.eqb_spec k0 k) as [->|H0]; simpl.
    + destruct (String.eqb_spec k k'); [contradiction|reflexivity].
    + rewrite IH. reflexivity.
Qed.

Lemma elem_of_keys_set {V} x k v (o : list (string * V)) :
  x ∈ Js.keys (Js.set k v o) <-> x = k \/ x ∈ Js.keys o.
Proof.
  unfold Js.keys. induction o as [|[k' v'] o IH]; simpl.
  - rewrite list_elem_of_singleton, elem_of_nil. tauto.
  - destruct (String.eqb_spec k' k) as [->|Hne]; simpl.
    + rewrite !elem_of_cons. tauto.
    + rewrite !elem_of_cons, IH. tauto.
Qed.

Lemma NoDup_keys_set {V} k v (o : list (string * V)) :
  NoDup (Js.keys o) -> NoDup (Js.keys (Js.set k v o)).
Proof.
  unfold Js.keys. induction o as [|[k' v'] o IH]; simpl; intros Hnd.
  - apply NoDup_singleton.
  - destruct (String.eqb_spec k' k) as [->|Hne]; simpl; [exact Hnd|].
    apply NoDup_cons in Hnd as [Hk Hnd]. apply NoDup_cons. split; [|auto].
    intros Hin. apply (proj1 (elem_of_keys_set k' k v o)) in Hin as [->|Hin]; contradiction.
Qed.

(** A new key goes last. *)
Lemma set_fresh {V} k v (o : list (string * V)) :
  k ∉ Js.keys o -> Js.set k v o = (o ++ [(k, v)])%list.
Proof.
  unfold Js.keys. induction o as [|[k' v'] o IH]; simpl; intros Hk; [reflexivity|].
  apply not_elem_of_cons in Hk as [Hne Hk].
  destruct (String.eqb_spec k' k) as [->|_]; [contradiction|].
  rewrite IH by assumption. reflexivity.
Qed.

(** An existing key keeps its place. *)
Lemma keys_set_present {V} k v (o : list (string * V)) :
  k ∈ Js.keys o -> Js.keys (Js.set k v o) = Js.keys o.
Proof.
  unfold Js.keys. induction o as [|[k' v'] o IH]; simpl; intros Hk.
  - inversion Hk.
  - destruct (String.eqb_spec k' k) as [->|Hne]; simpl; [reflexivity|].
    apply elem_of_cons in Hk as [->|Hk]; [contradiction|]. rewrite IH by assumption.
    reflexivity.
Qed.

Lemma get_elem_of {V} k v (o : list (string * V)) : Js.get k o = Some v -> (k, v) ∈ o.
Proof.
  induction o as [|[k' v'] o IH]; simpl; [discriminate|].
  destruct (String.eqb_spec k' k) as [->|Hne].
  - intros [= ->]. left.
  - intros H. right. auto.
Qed.

Lemma elem_of_get {V} k v (o : list (string * V)) :
  NoDup (Js.keys o) -> (k, v) ∈ o -> Js.get k o = Some v.
Proof.
  unfold Js.keys. induction o as [|[k' v'] o IH]; simpl; intros Hnd Hin; [inversion Hin|].
  apply NoDup_cons in Hnd as [Hk Hnd].
  apply elem_of_cons in Hin as [[= -> ->]|Hin].
  - rewrite String.eqb_refl. reflexivity.
  - destruct (String.eqb_spec k' k) as [->|Hne]; [|auto].
    exfalso. apply Hk. apply list_elem_of_fmap. exists (k, v). auto.
Qed.

Lemma or0_get_init_count s k o :
  Js.or0 (Js.get s (init_count k o)) = Js.or0 (Js.get s o).
Proof.
  unfold init_count, truthy_Z.
  destruct (Js.or0 (Js.get k o) =? 0) eqn:E; simpl; [|reflexivity].
  apply Z.eqb_eq in E.
  destruct (String.eqb_spec k s) as [<-|Hne].
  - rewrite get_set_eq. simpl. symmetry. exact E.
  - rewrite get_set_ne by assumption. reflexivity.
Qed.

Lemma or0_get_incr s k o :
  Js.or0 (Js.get s (incr k o))
  = if String.eqb k s then Js.or0 (Js.get k o) + 1 else Js.or0 (Js.get s o).
Proof.
  unfold incr. destruct (String.eqb_spec k s) as [<-|Hne].
  - rewrite get_set_eq. reflexivity.
  - rewrite get_set_ne by assumption. reflexivity.
Qed.

Lemma NoDup_keys_init_count k o : NoDup (Js.keys o) -> NoDup (Js.keys (init_count k o)).
Proof.
  unfold init_count. destruct (truthy_Z _); auto using NoDup_keys_set.
Qed.

Lemma NoDup_keys_incr k o : NoDup (Js.keys o) -> NoDup (Js.keys (incr k o)).
Proof. apply NoDup_keys_set. Qed.

(** ** Wins within games *)

Lemma flags_of_data F gameData d : processSingleReplay F gameData = RData d -> flags_ok d.
Proof.
  intros H. destruct (processSingleReplay_data _ _ _ H) as (sd & _ & Hc).
  apply classify_proceed in Hc as (_ & _ & Hg & Hw & _).
  split; [exact Hg|]. rewrite Hw. destruct (didWin _ _ _); auto.
Qed.

Lemma consistent_start : Consistent no_aggregates.
Proof.
  split; [split|].
  - simpl. lia.
  - intros s. simpl. lia.
  - simpl. constructor.
  - simpl. constructor.
Qed.

Lemma add_totals_consistent d a : flags_ok d -> Consistent a -> Consistent (add_totals d a).
Proof.
  intros [Hg Hw] [[Ht Hs Hm] Hk]. split; [split|]; simpl; auto. lia.
Qed.

Lemma add_stage_consistent k d a : flags_ok d -> Consistent a -> Consistent (add_stage k d a).
Proof.
  intros [Hg Hw] [[Ht Hs Hm] Hk]. split; [split|]; simpl; auto.
  - intros s. specialize (Hs s). pose proof (Hs' := Hs).
    rewrite or0_get_incr, !or0_get_init_count.
    destruct (truthy_Z (res_total_wins d)).
    + rewrite or0_get_incr, !or0_get_init_count.
      destruct (String.eqb_spec k s) as [<-|Hne]; lia.
    + rewrite or0_get_init_count. destruct (String.eqb_spec k s) as [<-|Hne]; lia.
  - apply NoDup_keys_incr, NoDup_keys_init_count, Hk.
Qed.

Lemma init_matchups_consistent a : Consistent a -> Consistent (init_matchups a).
Proof.
  intros [[Ht Hs Hm] Hk]. split; [split|]; simpl; auto.
Qed.

Lemma bump_cell_ok oc d row :
  flags_ok d -> Forall (fun c => cell_ok (snd c)) row ->
  Forall (fun c => cell_ok (snd c)) (bump_cell oc d row).
Proof.
  intros [Hg Hw] Hrow. unfold bump_cell. apply Forall_set; [|exact Hrow].
  intros k'. unfold cell_ok. simpl.
  assert (Hc : cell_ok (default {| games := 0; wins := 0; totalSeconds := PrimFloat.zero |}
                          (Js.get oc row))).
  { destruct (Js.get oc row) as [c|] eqn:E; simpl; [|unfold cell_ok; simpl; lia].
    apply get_elem_of in E. rewrite Forall_forall in Hrow. apply (Hrow _ E). }
  unfold cell_ok in Hc. destruct (truthy_Z (res_total_wins d)); lia.
Qed.

Lemma add_matchup_consistent pc oc d a :
  flags_ok d -> Consistent a -> Consistent (add_matchup pc oc d a).
Proof.
  intros Hd [[Ht Hs Hm] Hk]. split; [split|]; simpl; auto.
  unfold bump_matchup. apply Forall_set; [|exact Hm].
  intros k'. unfold row_ok. simpl. apply bump_cell_ok; [exact Hd|].
  destruct (Js.get pc (default [] (matchups a))) as [row|] eqn:E; simpl; [|constructor].
  apply get_elem_of in E. rewrite Forall_forall in Hm. apply (Hm _ E).
Qed.

Lemma add_misc_consistent gameData d a : Consistent a -> Consistent (add_misc gameData d a).
Proof.
  intros [[Ht Hs Hm] Hk]. split; [split|]; simpl; auto.
Qed.

Lemma aggregate_consistent W gameData d st :
  flags_ok d -> Consistent (agg st) -> Consistent (agg (fst (aggregate W gameData d st))).
Proof.
  intros Hd Hc. unfold aggregate.
  repeat case_match; simpl;
    repeat first [ apply add_misc_consistent | apply add_matchup_consistent
                 | apply init_matchups_consistent | apply add_stage_consistent
                 | apply add_totals_consistent ];
    assumption.
Qed.

Lemma account_consistent W F gameData st :
  Consistent (agg st) -> Consistent (agg (fst (account W F gameData st))).
Proof.
  intros Hc. unfold account.
  destruct (processSingleReplay F gameData) as [| |d] eqn:Hp; simpl; auto.
  destruct (stage_invalid (stage_num d)); simpl; auto.
  apply aggregate_consistent; eauto using flags_of_data.
Qed.

Lemma finish_agg W i r : agg (fst (finish W i r)) = agg (fst r).
Proof. destruct r as [st []]; simpl; destruct (win W); reflexivity. Qed.

Lemma handle_file_consistent W F i file st :
  Consistent (agg st) -> Consistent (agg (fst (handle_file W F i file st))).
Proof.
  intros Hc. unfold handle_file. rewrite finish_agg. unfold try_block.
  destruct (acquire file st) as [[gameData|] st1] eqn:Ha;
    apply acquire_frame in Ha as (Hagg & _); rewrite <- Hagg in Hc; simpl; auto.
  apply account_consistent, Hc.
Qed.

Lemma loop_consistent W F fs : forall i st,
  Consistent (agg st) -> Consistent (agg (fst (loop W F i fs st))).
Proof.
  induction fs as [|file rest IH]; intros i st Hc; simpl; [exact Hc|].
  destruct (cancelRequested st); [destruct (win W); exact Hc|].
  pose proof (handle_file_consistent W F i file (yield W i st) Hc) as Hc'.
  destruct (handle_file W F i file (yield W i st)) as [st' []]; simpl in *; auto.
Qed.

(** ** The loop never leaves through line 628 *)

Lemma aggregate_never_returns W gameData d st :
  stage_invalid (stage_num d) = false -> snd (aggregate W gameData d st) <> Returns.
Proof.
  intros H. unfold aggregate. rewrite H. repeat case_match; simpl; discriminate.
Qed.

Lemma account_never_returns W F gameData st : snd (account W F gameData st) <> Returns.
Proof.
  unfold account. destruct (processSingleReplay F gameData) as [| |d]; simpl; try discriminate.
  destruct (stage_invalid (stage_num d)) eqn:H; simpl; [discriminate|].
  apply aggregate_never_returns, H.
Qed.

Lemma handle_file_goes_on W F i file st : snd (handle_file W F i file st) = false.
Proof.
  unfold handle_file, try_block.
  destruct (acquire file st) as [[gameData|] st1]; [|reflexivity].
  pose proof (account_never_returns W F gameData st1) as H.
  destruct (account W F gameData st1) as [st2 []]; simpl in *; congruence.
Qed.

(** One turn of the loop: the suspension, then the work on the file. *)
Lemma loop_cons W F i file rest st :
  loop W F i (file :: rest) st =
  if cancelRequested st then (if win W then send Cancelled st else st, false)
  else loop W F (S i) rest (fst (handle_file W F i file (yield W i st))).
Proof.
  simpl. destruct (cancelRequested st); [reflexivity|].
  pose proof (handle_file_goes_on W F i file (yield W i st)) as H.
  destruct (handle_file W F i file (yield W i st)) as [st' r]. simpl in *. subst r.
  reflexivity.
Qed.

Lemma loop_goes_on W F fs : forall i st, snd (loop W F i fs st) = false.
Proof.
  induction fs as [|file rest IH]; intros i st; [reflexivity|].
  rewrite loop_cons. destruct (cancelRequested st); [reflexivity|apply IH].
Qed.

(** [analyzeReplays] always resolves to a report, built from the state in
    which the loop ended. *)
Lemma analyzeReplays_outcome W o disk :
  let st := fst (loop W (filters_of o) 0 (files W) (start disk)) in
  analyzeReplays W o disk =
  {| report := Some (build_report o (length (files W)) st);
     written := cache st; events := sent st; decodes := decodeCalls st |}.
Proof.
  simpl. unfold analyzeReplays.
  pose proof (loop_goes_on W (filters_of o) (files W) 0 (start disk)) as H.
  destruct (loop W (filters_of o) 0 (files W) (start disk)) as [st r]. simpl in *. subst r.
  reflexivity.
Qed.

Lemma stageResults_within a :
  Consistent a -> Forall (fun r => 0 <= sr_wins r <= sr_games r) (stageResults a).
Proof.
  intros [[_ Hs _] Hk]. unfold stageResults. apply Forall_fmap, Forall_forall.
  intros [k g] Hin. simpl. specialize (Hs k).
  rewrite (elem_of_get k g _ Hk Hin) in Hs. exact Hs.
Qed.

Lemma build_report_within o scanned st :
  Consistent (agg st) -> report_within (build_report o scanned st).
Proof.
  intros Hc. unfold build_report.
  destruct (negb (truthy_Z (total_games (agg st)))); simpl; [lia|].
  split; [apply Hc|]. split.
  - apply (sortedStageResults_Forall (fun r => 0 <= sr_wins r <= sr_games r)).
    + intros k row H. exact H.
    + apply Forall_sort_desc, stageResults_within, Hc.
  - destruct Hc as [[_ _ Hm] _]. destruct (matchups (agg st)) as [m|]; simpl in *; [exact Hm|].
    vm_compute. constructor.
Qed.

(** C10.  At every point of the run - whatever the folder, the request,
    the cache and the cancellation schedule, and after any number [k] of
    files - wins never exceed games: [total_wins <= total_games], every
    stage has [wins <= games], every matchup cell has [wins <= games];
    and the same holds in the report the run resolves to.  The reason is
    that a populated result carries [total_games = 1] and a win flag that
    is 0 or 1. *)
Theorem wins_never_exceed_games (W : World) (o : Options) (disk : gmap string GameData) :
  (forall k, WinsWithinGames (agg (state_at W o disk k))) /\
  (exists r, report (analyzeReplays W o disk) = Some r /\ report_within r) /\
  (forall F gameData d, processSingleReplay F gameData = RData d -> flags_ok d).
Proof.
  split; [|split].
  - intros k. apply consistent_within, loop_consistent, consistent_start.
  - rewrite analyzeReplays_outcome. simpl. eexists. split; [reflexivity|].
    apply build_report_within, loop_consistent, consistent_start.
  - exact flags_of_data.
Qed.

Lemma wins_never_exceed_games_witness :
  exists f,
    report (analyzeReplays (Sample.folder [Sample.fileA; Sample.fileB]) Sample.me ∅)
    = Some (GamesFound f) /\
    totalWins f = 1 /\ totalGames f = 2 /\ report_within (GamesFound f).
Proof.
  destruct (wins_never_exceed_games (Sample.folder [Sample.fileA; Sample.fileB]) Sample.me ∅)
    as (_ & (r & Hr & Hin) & _).
  assert (E : exists f,
             report (analyzeReplays (Sample.folder [Sample.fileA; Sample.fileB]) Sample.me ∅)
             = Some (GamesFound f) /\ totalWins f = 1 /\ totalGames f = 2).
  { eexists. split; [vm_compute; reflexivity|]. split; reflexivity. }
  destruct E as (f & Hf & H1 & H2). exists f. rewrite Hf in Hr. injection Hr as <-.
  auto.
Defined.

(** ** Order of the breakdowns *)

Section SortDesc.
Context {A : Type} (key : A -> Z).

Lemma insert_desc_perm x l : Permutation (Js.insert_desc key x l) (x :: l).
Proof.
  induction l as [|y l IH]; simpl; [reflexivity|].
  destruct (key x <? key y); [|reflexivity].
  rewrite IH. apply perm_swap.
Qed.

Lemma sort_desc_perm l : Permutation (Js.sort_desc key l) l.
Proof.
  unfold Js.sort_desc. induction l as [|x l IH]; simpl; [reflexivity|].
  rewrite insert_desc_perm, IH. reflexivity.
Qed.

Lemma insert_desc_hd x y l :
  key y >= key x -> HdRel Z.ge (key y) (map key l) ->
  HdRel Z.ge (key y) (map key (Js.insert_desc key x l)).
Proof.
  intros Hyx Hl. destruct l as [|z l]; simpl; [constructor; exact Hyx|].
  destruct (key x <? key z); constructor; [|exact Hyx].
  inversion Hl; assumption.
Qed.

Lemma insert_desc_sorted x l :
  descending (map key l) -> descending (map key (Js.insert_desc key x l)).
Proof.
  unfold descending. induction l as [|y l IH]; simpl; intros Hs.
  - repeat constructor.
  - destruct (key x <? key y) eqn:E.
    + apply Z.ltb_lt in E. inversion Hs; subst. simpl. constructor; [auto|].
      apply insert_desc_hd; [lia|assumption].
    + apply Z.ltb_ge in E. simpl. constructor; [exact Hs|]. constructor. lia.
Qed.

Lemma sort_desc_sorted l : descending (map key (Js.sort_desc key l)).
Proof.
  unfold Js.sort_desc. induction l as [|x l IH]; simpl; [constructor|].
  apply insert_desc_sorted, IH.
Qed.

End SortDesc.

Lemma stageResults_keys a : map sr_stage (stageResults a) = Js.keys (stage_totals a).
Proof.
  unfold stageResults, Js.keys. rewrite map_map. apply map_ext. intros [k g]. reflexivity.
Qed.

(** Rows with distinct stage names land in the fresh object one after the
    other. *)
Lemma sortedStageResults_distinct rows :
  NoDup (map sr_stage rows) ->
  sortedStageResults rows =
  map (fun row => (sr_stage row,
                   {| se_games := sr_games row; se_wins := sr_wins row;
                      se_winrate := sr_winrate row; se_playtime := sr_playtime row |})) rows.
Proof.
  unfold sortedStageResults.
  set (entry := fun row => (sr_stage row,
                   {| se_games := sr_games row; se_wins := sr_wins row;
                      se_winrate := sr_winrate row; se_playtime := sr_playtime row |})).
  assert (G : forall acc,
             NoDup (Js.keys acc ++ map sr_stage rows)%list ->
             foldl (fun o row => Js.set (sr_stage row) (snd (entry row)) o) acc rows
             = (acc ++ map entry rows)%list).
  { induction rows as [|r rows IH]; intros acc Hnd; simpl.
    - rewrite app_nil_r. reflexivity.
    - simpl in Hnd. apply NoDup_app in Hnd as (Hacc & Hdisj & Hrows).
      apply NoDup_cons in Hrows as [Hr Hrows].
      assert (Hfresh : sr_stage r ∉ Js.keys acc).
      { intros Hin. apply (Hdisj _ Hin). left. }
      rewrite (set_fresh _ _ _ Hfresh). rewrite IH.
      + rewrite <- app_assoc. reflexivity.
      + unfold Js.keys. rewrite map_app. simpl. rewrite <- app_assoc. simpl.
        apply NoDup_app. split; [exact Hacc|]. split.
        * intros x Hx Hin. apply elem_of_cons in Hin as [->|Hin]; [contradiction|].
          apply (Hdisj _ Hx). right. exact Hin.
        * apply NoDup_cons. auto. }
  intros Hnd. apply (G []). simpl. exact Hnd.
Qed.

Lemma stages_sorted a :
  NoDup (Js.keys (stage_totals a)) ->
  descending (map (fun e => se_games (snd e))
                (sortedStageResults (Js.sort_desc sr_games (stageResults a)))).
Proof.
  intros Hk. rewrite sortedStageResults_distinct.
  - rewrite map_map. simpl. apply sort_desc_sorted.
  - rewrite (sort_desc_perm sr_games (stageResults a)), stageResults_keys. exact Hk.
Qed.

(** Line 641 has run as soon as one game is counted. *)
Lemma aggregate_defines_matchups W gameData d st :
  stage_invalid (stage_num d) = false ->
  is_Some (matchups (agg (fst (aggregate W gameData d st)))).
Proof.
  intros H. unfold aggregate. rewrite H. repeat case_match; simpl; eauto.
Qed.

Lemma account_matchups W F gameData st :
  (total_games (agg st) = 0 \/ is_Some (matchups (agg st))) ->
  total_games (agg (fst (account W F gameData st))) = 0 \/
  is_Some (matchups (agg (fst (account W F gameData st)))).
Proof.
  intros H. unfold account.
  destruct (processSingleReplay F gameData) as [| |d]; simpl; auto.
  destruct (stage_invalid (stage_num d)) eqn:E; simpl; auto.
  right. apply aggregate_defines_matchups, E.
Qed.

Lemma loop_matchups W F fs : forall i st,
  (total_games (agg st) = 0 \/ is_Some (matchups (agg st))) ->
  total_games (agg (fst (loop W F i fs st))) = 0 \/
  is_Some (matchups (agg (fst (loop W F i fs st)))).
Proof.
  induction fs as [|file rest IH]; intros i st H; [exact H|].
  rewrite loop_cons. destruct (cancelRequested st); [destruct (win W); exact H|].
  apply IH. unfold handle_file. rewrite finish_agg. unfold try_block.
  destruct (acquire file (yield W i st)) as [[gameData|] st1] eqn:Ha;
    apply acquire_frame in Ha as (Hagg & _); simpl in Hagg.
  - apply account_matchups. rewrite Hagg. exact H.
  - simpl. rewrite Hagg. exact H.
Qed.

(** The table of line 641 lists a character where it first appeared. *)
Lemma bump_matchup_keys pc oc d m :
  Js.keys (bump_matchup pc oc d m)
  = if decide (pc ∈ Js.keys m) then Js.keys m else (Js.keys m ++ [pc])%list.
Proof.
  unfold bump_matchup. destruct (decide (pc ∈ Js.keys m)) as [Hin|Hout].
  - apply keys_set_present, Hin.
  - rewrite set_fresh by exact Hout. unfold Js.keys. rewrite map_app. reflexivity.
Qed.

(** C6, as the code has it.  In every report with at least one qualifying
    game, the stage breakdown and the opponent breakdown are ordered by
    descending game count, and so is the sorted array [matchup_results];
    but the [matchups] property of the report is not that array: it is the
    table [matchups] of line 641, as the loop left it, with rows in order
    of first appearance. *)
Theorem breakdowns_sorted_by_games
    (W : World) (o : Options) (disk : gmap string GameData) (f : Found) :
  report (analyzeReplays W o disk) = Some (GamesFound f) ->
  descending (map (fun e => se_games (snd e)) (fd_stages f)) /\
  descending (map nr_games (opponents f)) /\
  descending (map mr_games matchup_results) /\
  exists m,
    matchups (agg (fst (loop W (filters_of o) 0 (files W) (start disk)))) = Some m /\
    fd_matchups f = MatchupTable m.
Proof.
  rewrite analyzeReplays_outcome. simpl. intros [= H]. revert H.
  pose proof (loop_consistent W (filters_of o) (files W) 0 (start disk) consistent_start) as Hc.
  pose proof (loop_matchups W (filters_of o) (files W) 0 (start disk) (or_introl eq_refl)) as Hm.
  set (st := fst (loop W (filters_of o) 0 (files W) (start disk))) in *.
  unfold build_report, truthy_Z.
  destruct (total_games (agg st) =? 0) eqn:E; simpl; [discriminate|].
  apply Z.eqb_neq in E. intros [= <-]. cbn [fd_stages opponents fd_matchups].
  split; [apply stages_sorted, Hc|].
  split; [apply (sort_desc_sorted nr_games
                   (named_results opponent_totals opponent_wins opponent_playtime))|].
  split; [apply (sort_desc_sorted mr_games (matchup_rows character_head_to_head))|].
  destruct Hm as [Hm|[m Hm]]; [contradiction|].
  exists m. rewrite Hm. auto.
Qed.

Lemma breakdowns_sorted_by_games_witness :
  exists f,
    report (analyzeReplays (Sample.folder [Sample.fileA; Sample.fileE; Sample.fileF])
              Sample.me ∅) = Some (GamesFound f) /\
    map (fun e => se_games (snd e)) (fd_stages f) = [2; 1] /\
    descending (map (fun e => se_games (snd e)) (fd_stages f)).
Proof.
  eexists. split; [vm_compute; reflexivity|]. split; [reflexivity|].
  refine (proj1 (breakdowns_sorted_by_games
                   (Sample.folder [Sample.fileA; Sample.fileE; Sample.fileF])
                   Sample.me ∅ _ _)).
  vm_compute. reflexivity.
Defined.

(** C6 as stated fails on the matchup rows: Fox against Falco is met
    first and once, Marth against Fox later and twice, and the report
    lists them in that order, one game before two. *)
Lemma matchups_listed_in_order_of_appearance :
  exists f,
    report (analyzeReplays (Sample.folder [Sample.fileA; Sample.fileE; Sample.fileF])
              Sample.me ∅) = Some (GamesFound f) /\
    matchup_games (fd_matchups f) = [1; 2] /\
    ~ descending (matchup_games (fd_matchups f)).
Proof.
  eexists. split; [vm_compute; reflexivity|]. split; [reflexivity|].
  intros H. vm_compute in H. inversion H as [|? ? _ Hd]; subst.
  inversion Hd as [|? ? Hge]; subst. apply Hge. reflexivity.
Qed.

(** ** Cancellation and the cache *)

Lemma undisturbed_handle_file W F i file st :
  handle_file (undisturbed W) F i file st = handle_file W F i file st.
Proof. reflexivity. Qed.

Lemma yield_flag W i st :
  yield W i st = set_flag (cancelRequested st || cancelDuringYield W i) st.
Proof. reflexivity. Qed.

Lemma set_flag_same st : set_flag (cancelRequested st) st = st.
Proof. destruct st; reflexivity. Qed.

Lemma acquire_set_flag b file st :
  acquire file (set_flag b st) = (fst (acquire file st), set_flag b (snd (acquire file st))).
Proof.
  unfold acquire, cached, store, failed_decode. simpl.
  repeat case_match; simplify_eq; reflexivity.
Qed.

Lemma account_set_flag b W F gameData st :
  account W F gameData (set_flag b st)
  = (set_flag b (fst (account W F gameData st)), snd (account W F gameData st)).
Proof.
  unfold account, aggregate.
  repeat case_match; simplify_eq; reflexivity.
Qed.

Lemma finish_set_flag b W i st c :
  finish W i (set_flag b st, c) = (set_flag b (fst (finish W i (st, c))), snd (finish W i (st, c))).
Proof. destruct c; simpl; try reflexivity; destruct (win W); reflexivity. Qed.

Lemma handle_file_set_flag b W F i file st :
  handle_file W F i file (set_flag b st)
  = (set_flag b (fst (handle_file W F i file st)), snd (handle_file W F i file st)).
Proof.
  unfold handle_file, try_block. rewrite acquire_set_flag.
  destruct (acquire file st) as [[gameData|] st1]; simpl.
  - rewrite account_set_flag. destruct (account W F gameData st1) as [st2 c]. simpl.
    apply finish_set_flag.
  - destruct (win W); reflexivity.
Qed.

Lemma handle_file_flag W F i file st :
  cancelRequested (fst (handle_file W F i file st)) = cancelRequested st.
Proof.
  rewrite <- (set_flag_same st) at 1. rewrite handle_file_set_flag. reflexivity.
Qed.

Lemma yield_quiet W i st :
  cancelRequested st = false -> cancelDuringYield W i = false -> yield W i st = st.
Proof.
  destruct st. unfold yield. simpl. intros -> ->. reflexivity.
Qed.

Lemma yield_undisturbed W i st :
  cancelRequested st = false -> yield (undisturbed W) i st = st.
Proof. intros H. apply yield_quiet; [exact H|reflexivity]. Qed.

(** As long as nobody asks, the loop runs as in the undisturbed world. *)
Lemma loop_quiet W F fs : forall i st,
  cancelRequested st = false ->
  (forall k, (i <= k < i + length fs)%nat -> cancelDuringYield W k = false) ->
  loop W F i fs st = loop (undisturbed W) F i fs st /\
  cancelRequested (fst (loop W F i fs st)) = false.
Proof.
  induction fs as [|file rest IH]; intros i st Hflag Hquiet; [auto|].
  rewrite !loop_cons, Hflag. simpl.
  assert (Hy : yield W i st = st) by (apply yield_quiet; [|apply Hquiet; simpl; lia]; exact Hflag).
  rewrite Hy, (yield_undisturbed W i st Hflag), undisturbed_handle_file.
  apply IH.
  - rewrite handle_file_flag. exact Hflag.
  - intros k Hk. apply Hquiet. simpl. lia.
Qed.

Lemma loop_app_quiet W F fs1 fs2 : forall i st,
  cancelRequested st = false ->
  (forall k, (i <= k < i + length fs1)%nat -> cancelDuringYield W k = false) ->
  loop W F i (fs1 ++ fs2) st = loop W F (i + length fs1) fs2 (fst (loop W F i fs1 st)).
Proof.
  induction fs1 as [|file rest IH]; intros i st Hflag Hquiet.
  - simpl. rewrite Nat.add_0_r. reflexivity.
  - simpl app. rewrite !loop_cons, Hflag.
    assert (Hy : yield W i st = st)
      by (apply yield_quiet; [|apply Hquiet; simpl; lia]; exact Hflag).
    rewrite Hy. rewrite IH.
    + simpl. rewrite Nat.add_succ_r. reflexivity.
    + rewrite handle_file_flag. exact Hflag.
    + intros k Hk. apply Hquiet. simpl. lia.
Qed.

(** The report reads the aggregates and two counters, nothing else. *)
Lemma build_report_frame o scanned a b :
  agg a = agg b -> new_replays a = new_replays b -> skippedCount a = skippedCount b ->
  build_report o scanned a = build_report o scanned b.
Proof. intros H1 H2 H3. unfold build_report. rewrite H1, H2, H3. reflexivity. Qed.

Lemma account_store W F gameData st :
  cache (fst (account W F gameData st)) = cache st /\
  new_replays (fst (account W F gameData st)) = new_replays st /\
  decodeCalls (fst (account W F gameData st)) = decodeCalls st.
Proof.
  unfold account, aggregate. repeat case_match; simpl; auto.
Qed.

Lemma finish_store W i r :
  cache (fst (finish W i r)) = cache (fst r) /\
  new_replays (fst (finish W i r)) = new_replays (fst r) /\
  decodeCalls (fst (finish W i r)) = decodeCalls (fst r).
Proof. destruct r as [st []]; simpl; destruct (win W); auto. Qed.

(** Only the cache lookup of lines 544-583 touches the cache. *)
Lemma handle_file_store W F i file st :
  let st1 := snd (acquire file st) in
  let st2 := fst (handle_file W F i file st) in
  cache st2 = cache st1 /\ new_replays st2 = new_replays st1 /\
  decodeCalls st2 = decodeCalls st1.
Proof.
  simpl. unfold handle_file, try_block.
  destruct (acquire file st) as [[gameData|] st1]; simpl.
  - destruct (finish_store W i (account W F gameData st1)) as (-> & -> & ->).
    apply account_store.
  - destruct (win W); auto.
Qed.

(** What the lookup leaves in the cache. *)
Lemma acquire_cache file st :
  cache (snd (acquire file st)) =
  match usable_hash file, decoded file with
  | Some hash, Some d =>
      match cache st !! hash with
      | Some _ => cache st
      | None => <[hash := gameData_of file d]> (cache st)
      end
  | _, _ => cache st
  end.
Proof.
  unfold acquire, cached, store, failed_decode.
  destruct (usable_hash file) as [hash|]; destruct (decoded file) as [d|]; simpl;
    try destruct (cache st !! hash); reflexivity.
Qed.

Lemma acquire_dom file st h :
  h ∈ dom (cache (snd (acquire file st))) <->
  h ∈ dom (cache st) \/ (usable_hash file = Some h /\ is_Some (decoded file)).
Proof.
  rewrite acquire_cache.
  destruct (usable_hash file) as [hash|]; destruct (decoded file) as [d|].
  - destruct (cache st !! hash) eqn:E.
    + split; [auto|]. intros [?|[[= ->] _]]; [assumption|]. apply elem_of_dom; eauto.
    + rewrite dom_insert, elem_of_union, elem_of_singleton.
      split; [intros [->|?]; eauto|]. intros [?|[[= ->] _]]; auto.
  - split; [auto|]. intros [?|[_ [? [=]]]]; assumption.
  - split; [auto|]. intros [?|[[=] _]]; assumption.
  - split; [auto|]. intros [?|[[=] _]]; assumption.
Qed.

Lemma acquire_keeps file st h gd :
  cache st !! h = Some gd -> cache (snd (acquire file st)) !! h = Some gd.
Proof.
  intros H. rewrite acquire_cache.
  destruct (usable_hash file) as [hash|]; destruct (decoded file) as [d|]; try exact H.
  destruct (cache st !! hash) eqn:E; [exact H|].
  rewrite lookup_insert_ne; [exact H|]. intros ->. congruence.
Qed.

Lemma yield_cache W i st : cache (yield W i st) = cache st.
Proof. reflexivity. Qed.

Lemma loop_dom W F fs : forall i st h,
  cancelRequested st = false ->
  h ∈ dom (cache (fst (loop (undisturbed W) F i fs st))) <->
  h ∈ dom (cache st) \/
  exists f, f ∈ fs /\ usable_hash f = Some h /\ is_Some (decoded f).
Proof.
  induction fs as [|file rest IH]; intros i st h Hflag.
  - simpl. split; [auto|]. intros [?|(f & Hin & _)]; [assumption|inversion Hin].
  - rewrite loop_cons, Hflag.
    rewrite (yield_undisturbed W i st Hflag), IH by (rewrite handle_file_flag; exact Hflag).
    destruct (handle_file_store (undisturbed W) F i file st) as (-> & _ & _).
    rewrite acquire_dom. split.
    + intros [[?|[? ?]]|(f & Hin & ?)]; auto.
      * right. exists file. split; [left|auto].
      * right. exists f. split; [right; exact Hin|auto].
    + intros [?|(f & Hin & Hd & Hdec)]; auto.
      apply elem_of_cons in Hin as [->|Hin]; [auto|]. right. eauto.
Qed.

Lemma loop_keeps W F fs : forall i st h gd,
  cache st !! h = Some gd -> cache (fst (loop W F i fs st)) !! h = Some gd.
Proof.
  induction fs as [|file rest IH]; intros i st h gd H; [exact H|].
  rewrite loop_cons. destruct (cancelRequested st); [destruct (win W); exact H|].
  apply IH. destruct (handle_file_store W F i file (yield W i st)) as (-> & _ & _).
  apply acquire_keeps. exact H.
Qed.

(** C9, as the code has it.  The flag is tested at the head of an
    iteration, before the loop suspends; a request can only arrive during a
    suspension.  So if the first request arrives while the loop is
    suspended ahead of file [j] - when [j] files have been handled - and
    at least one file follows, the loop still handles file [j], stops
    before file [j + 1], sends one [{cancelled: true}] event (when the
    window exists) after everything else, and resolves to the report built
    from exactly the first [j + 1] files; the cache written to disk is the
    one those [j + 1] files leave: every earlier entry is kept, and its
    keys are the earlier keys plus the hashes of those among the [j + 1]
    files that could be hashed and decoded. *)
Theorem cancel_stops_at_next_check
    (W : World) (o : Options) (disk : gmap string GameData) (j : nat) :
  first_request W j ->
  (S j < length (files W))%nat ->
  let out := analyzeReplays W o disk in
  let st := after_files W o disk (S j) in
  report out = Some (build_report o (length (files W)) st) /\
  events out = (sent st ++ (if win W then [Cancelled] else []))%list /\
  written out = cache st /\
  (forall h, h ∈ dom (written out) <->
             h ∈ dom disk \/
             exists f, f ∈ take (S j) (files W) /\ usable_hash f = Some h /\ is_Some (decoded f)) /\
  (forall h gd, disk !! h = Some gd -> written out !! h = Some gd).
Proof.
  intros [Hreq Hquiet] Hlen. simpl.
  rewrite analyzeReplays_outcome. simpl.
  set (F := filters_of o). set (st0 := start disk).
  destruct (lookup_lt_is_Some_2 (files W) j) as [fj Hj]; [lia|].
  pose proof (take_drop_middle _ _ _ Hj) as Hsplit.
  destruct (drop (S j) (files W)) as [|f' rest'] eqn:Hrest.
  { apply (f_equal length) in Hrest. rewrite length_drop in Hrest. simpl in Hrest. lia. }
  assert (Hlj : length (take j (files W)) = j) by (rewrite length_take; lia).
  (* the quiet prefix *)
  destruct (loop_quiet W F (take j (files W)) 0 st0 eq_refl) as [Hpre Hflag].
  { intros k Hk. apply Hquiet. rewrite Hlj in Hk. lia. }
  set (stj := fst (loop W F 0 (take j (files W)) st0)) in *.
  set (st' := fst (handle_file W F j fj stj)).
  (* the state in which the cancelled run ends *)
  assert (Hrun : fst (loop W F 0 (files W) st0)
                 = if win W then send Cancelled (set_flag true st') else set_flag true st').
  { rewrite <- Hsplit at 1.
    rewrite loop_app_quiet; [|reflexivity|intros k Hk; apply Hquiet; rewrite Hlj in Hk; lia].
    rewrite Hlj. simpl Nat.add. fold stj.
    rewrite loop_cons, Hflag, yield_flag, Hflag, Hreq. simpl orb.
    rewrite handle_file_set_flag. cbn [fst]. fold st'.
    rewrite loop_cons. reflexivity. }
  (* the state after the first j+1 files, undisturbed *)
  assert (Hafter : after_files W o disk (S j) = st').
  { unfold after_files. fold F st0. rewrite (take_S_r _ _ _ Hj).
    rewrite loop_app_quiet; [|reflexivity|reflexivity].
    rewrite <- Hpre. fold stj. rewrite Hlj. simpl Nat.add.
    rewrite loop_cons, Hflag, (yield_undisturbed W j stj Hflag), undisturbed_handle_file.
    reflexivity. }
  rewrite Hrun, Hafter.
  split; [f_equal; apply build_report_frame; destruct (win W); reflexivity|].
  split; [destruct (win W); simpl; [reflexivity|rewrite app_nil_r; reflexivity]|].
  assert (Hcache : cache (if win W then send Cancelled (set_flag true st') else set_flag true st')
                   = cache st') by (destruct (win W); reflexivity).
  rewrite Hcache. split; [reflexivity|].
  rewrite <- Hafter. unfold after_files. fold F st0. split.
  - intros h. apply (loop_dom W F (take (S j) (files W)) 0 st0 h eq_refl).
  - intros h gd H. apply loop_keeps. exact H.
Qed.

Lemma cancel_stops_at_next_check_witness :
  let W := Sample.cancelled_at 1 [Sample.fileA; Sample.fileB; Sample.fileE] in
  first_request W 1 /\
  (2 < length (files W))%nat /\
  report (analyzeReplays W Sample.me ∅)
  = Some (build_report Sample.me 3 (after_files W Sample.me ∅ 2)).
Proof.
  assert (H : first_request
                (Sample.cancelled_at 1 [Sample.fileA; Sample.fileB; Sample.fileE]) 1).
  { split; [reflexivity|]. intros i Hi. destruct i; [reflexivity|lia]. }
  split; [exact H|]. split; [simpl; lia|].
  refine (proj1 (cancel_stops_at_next_check
                   (Sample.cancelled_at 1 [Sample.fileA; Sample.fileB; Sample.fileE])
                   Sample.me ∅ 1 H _)).
  simpl. lia.
Defined.

(** C9 as stated fails: with three good replays and a request that
    arrives when one file has been handled (one progress event sent, one
    game counted), the loop handles the second file before it stops: the
    report counts two games and the cache holds the second file. *)
Lemma cancel_request_handles_one_more_file :
  let W := Sample.cancelled_at 1 [Sample.fileA; Sample.fileB; Sample.fileE] in
  let out := analyzeReplays W Sample.me ∅ in
  first_request W 1 /\
  sent (state_at W Sample.me ∅ 1) = [MatchLog "Alice" "Bob" "Battlefield" true; Progress 1 3] /\
  total_games (agg (state_at W Sample.me ∅ 1)) = 1 /\
  (exists f, report out = Some (GamesFound f) /\ totalGames f = 2) /\
  is_Some (written out !! "0b") /\
  events out = [MatchLog "Alice" "Bob" "Battlefield" true; Progress 1 3;
                MatchLog "Alice" "Bob" "Battlefield" false; Progress 2 3; Cancelled].
Proof.
  split; [split; [reflexivity|intros i Hi; destruct i; [reflexivity|lia]]|].
  split; [vm_compute; reflexivity|]. split; [vm_compute; reflexivity|].
  split; [eexists; split; [vm_compute; reflexivity|reflexivity]|].
  split; [vm_compute; eauto|]. vm_compute. reflexivity.
Qed.

(** A flag found set at the head of an iteration ends the loop on the
    spot: no file is handled any more, and the window is told. *)
Lemma flag_set_stops_the_loop W F i file rest st :
  cancelRequested st = true ->
  loop W F i (file :: rest) st = (if win W then send Cancelled st else st, false).
Proof. intros H. rewrite loop_cons, H. reflexivity. Qed.

(** A request that arrives while the loop is suspended ahead of the last
    file is never looked at: every file is handled and no cancellation
    event is sent. *)
Lemma late_request_goes_unnoticed W o disk j :
  first_request W j ->
  S j = length (files W) ->
  let out := analyzeReplays W o disk in
  let st := after_files W o disk (length (files W)) in
  report out = Some (build_report o (length (files W)) st) /\
  events out = sent st /\
  written out = cache st.
Proof.
  intros [Hreq Hquiet] Hlen. simpl.
  rewrite analyzeReplays_outcome. simpl.
  set (F := filters_of o). set (st0 := start disk).
  destruct (lookup_lt_is_Some_2 (files W) j) as [fj Hj]; [lia|].
  assert (Hall : take (S j) (files W) = files W) by (apply take_ge; lia).
  assert (Hlj : length (take j (files W)) = j) by (rewrite length_take; lia).
  destruct (loop_quiet W F (take j (files W)) 0 st0 eq_refl) as [Hpre Hflag].
  { intros k Hk. apply Hquiet. rewrite Hlj in Hk. lia. }
  set (stj := fst (loop W F 0 (take j (files W)) st0)) in *.
  set (st' := fst (handle_file W F j fj stj)).
  assert (Hrun : fst (loop W F 0 (files W) st0) = set_flag true st').
  { rewrite <- Hall at 1. rewrite (take_S_r _ _ _ Hj).
    rewrite loop_app_quiet; [|reflexivity|intros k Hk; apply Hquiet; rewrite Hlj in Hk; lia].
    rewrite Hlj. simpl Nat.add. fold stj.
    rewrite loop_cons, Hflag, yield_flag, Hflag, Hreq. simpl orb.
    rewrite handle_file_set_flag. reflexivity. }
  assert (Hafter : after_files W o disk (length (files W)) = st').
  { unfold after_files. fold F st0. rewrite <- Hlen, (take_S_r _ _ _ Hj).
    rewrite loop_app_quiet; [|reflexivity|reflexivity].
    rewrite <- Hpre. fold stj. rewrite Hlj. simpl Nat.add.
    rewrite loop_cons, Hflag, (yield_undisturbed W j stj Hflag), undisturbed_handle_file.
    reflexivity. }
  rewrite Hrun, Hafter. auto.
Qed.

(** ** The second run *)

Lemma same_tally_refl a : same_tally a a.
Proof. repeat split. Qed.






Lemma acquire_hit file st h gd :
  usable_hash file = Some h -> cache st !! h = Some gd -> acquire file st = (Some gd, st).
Proof. intros Hh Hc. unfold acquire, cached. rewrite Hh, Hc. reflexivity. Qed.







(** A record survives the cache file when its duration and its final
    percentages do. *)
Lemma survives_json_iff (gameData : GameData) :
  survives_json gameData <->
  Js.json_number (gd_total_seconds gameData) = Some (gd_total_seconds gameData) /\
  Forall (fun v => Js.json_value v = v) (gd_latestFramePercents gameData).
Proof.
  unfold survives_json, json_gameData. destruct gameData as [h f st md ss t ps].
  cbn [gd_hash gd_file gd_settings gd_metadata gd_stats gd_total_seconds gd_latestFramePercents].
  assert (Hmap : map Js.json_value ps = ps <-> Forall (fun v => Js.json_value v = v) ps).
  { induction ps as [|v ps IH]; simpl; [split; [constructor|reflexivity]|].
    split.
    - intros [= Hv Hps]. constructor; [exact Hv|]. apply IH, Hps.
    - intros H. inversion H as [|? ? Hv Hps]; subst. rewrite Hv. f_equal. apply IH, Hps. }
  destruct (Js.json_number t) as [t'|].
  - split.
    + intros [= -> Hps]. split; [reflexivity|]. apply Hmap, Hps.
    + intros [[= ->] Hps]. apply Hmap in Hps. rewrite Hps. reflexivity.
  - split; [discriminate|]. intros [? _]. discriminate.
Qed.

(** The sample games with finite percentages survive it; the one whose
    percentage is NaN does not. *)
Example survives_json_on_the_samples :
  survives_json Sample.dataA /\ survives_json Sample.dataTieNull /\
  ~ survives_json Sample.dataTieNaN.
Proof.
  split; [vm_compute; reflexivity|]. split; [vm_compute; reflexivity|].
  vm_compute. discriminate.
Qed.







(* ===================================================================== *)
(** * Further properties                                                  *)
(* ===================================================================== *)

(** ** Tags, match types and identities *)

Lemma prefix_occurs (p s : string) :
  String.prefix p s = true <-> exists after, s = p ++ after.
Proof.
  revert s. induction p as [|c p IH]; intros s.
  - destruct s; simpl; split; eauto.
  - destruct s as [|d s]; simpl.
    + split; [discriminate | intros [a Ha]; discriminate].
    + destruct (ascii_dec c d) as [->|Hne].
      * rewrite IH. split; intros [a Ha]; exists a.
        -- change (String d s = String d (p ++ a)). now rewrite Ha.
        -- change (String d s = String d (p ++ a)) in Ha. now injection Ha.
      * split; [discriminate|]. intros [a Ha].
        change (String d s = String c (p ++ a)) in Ha. injection Ha as -> _. congruence.
Qed.

Lemma includes_occurs (s p : string) :
  Js.includes s p = true <-> occurs_in p s.
Proof.
  unfold occurs_in. induction s as [|c s IH].
  - change (Js.includes "" p) with (String.prefix p "" || false)%bool.
    rewrite orb_false_r, prefix_occurs. split.
    + intros [a Ha]. exists "", a. exact Ha.
    + intros (b & a & Hb). destruct b; [eauto | discriminate].
  - change (Js.includes (String c s) p)
      with (String.prefix p (String c s) || Js.includes s p)%bool.
    rewrite orb_true_iff, prefix_occurs, IH. split.
    + intros [[a Ha] | (b & a & Hb)].
      * exists "", a. exact Ha.
      * exists (String c b), a. change (String c s = String c (b ++ p ++ a)). now rewrite Hb.
    + intros (b & a & Hb). destruct b as [|d b].
      * left. exists a. exact Hb.
      * right. change (String c s = String d (b ++ p ++ a)) in Hb.
        injection Hb as _ ->. eauto.
Qed.

Lemma some_includes_spec (tags wanted : list string) :
  some_includes tags wanted = true <->
  exists tag req, tag ∈ tags /\ req ∈ wanted /\ occurs_in req tag.
Proof.
  unfold some_includes. rewrite existsb_exists. split.
  - intros (tag & Ht & H). apply existsb_exists in H as (req & Hr & H).
    exists tag, req. rewrite !list_elem_of_In. now rewrite <- includes_occurs.
  - intros (tag & req & Ht & Hr & H). exists tag. rewrite <- list_elem_of_In. split; [done|].
    apply existsb_exists. exists req. rewrite <- list_elem_of_In. now rewrite includes_occurs.
Qed.

(** X1.  [matchesAnyTag] answers true exactly when the wanted list is
    empty or some tag of the identity contains some wanted entry as a
    substring: an identity without tags matches only the empty list, and
    a wanted entry need not equal a tag, it only has to occur in one. *)
Theorem matchesAnyTag_substring (identity : Identity) (wanted : list string) :
  matchesAnyTag identity wanted = true <-> wanted = [] \/ tag_contains identity wanted.
Proof.
  unfold matchesAnyTag, tag_contains. destruct wanted as [|w ws].
  - split; auto.
  - destruct (tagLower identity) as [[|t ts]|].
    + split; [discriminate|]. intros [?|(tags & tag & req & Ht & Hin & _)]; [discriminate|].
      injection Ht as <-. inversion Hin.
    + rewrite some_includes_spec. split.
      * intros (tag & req & ? & ? & ?). right. exists (t :: ts), tag, req. auto.
      * intros [?|(tags & tag & req & Ht & ? & ? & ?)]; [discriminate|].
        injection Ht as <-. eauto.
    + split; [discriminate|]. intros [?|(tags & tag & req & Ht & _)]; discriminate.
Qed.

Lemma isIgnoredOpponent_spec identity ignored :
  isIgnoredOpponent identity ignored = true <-> tag_contains identity ignored.
Proof.
  unfold isIgnoredOpponent, tag_contains. destruct ignored as [|w ws].
  - split; [discriminate|]. intros (tags & tag & req & _ & _ & Hin & _). inversion Hin.
  - destruct (tagLower identity) as [[|t ts]|].
    + split; [discriminate|]. intros (tags & tag & req & Ht & Hin & _).
      injection Ht as <-. inversion Hin.
    + rewrite some_includes_spec. split.
      * intros (tag & req & ? & ? & ?). exists (t :: ts), tag, req. auto.
      * intros (tags & tag & req & Ht & ? & ? & ?). injection Ht as <-. eauto.
    + split; [discriminate|]. intros (tags & tag & req & Ht & _). discriminate.
Qed.

(** X2.  [isIgnoredOpponent] answers true exactly when some tag of the
    identity contains some entry of the ignore list as a substring; with
    an empty ignore list, or for an identity without tags, nobody is
    ignored. *)
Theorem isIgnoredOpponent_substring (identity : Identity) (ignored : list string) :
  isIgnoredOpponent identity ignored = true <-> tag_contains identity ignored.
Proof. apply isIgnoredOpponent_spec. Qed.

(** X3.  [getMatchType] answers ["Ranked"] exactly for the match ids that
    start with ["mode.ranked"], and ["Unknown"] exactly for those that
    start with none of the three known prefixes (the empty id among
    them). *)
Theorem getMatchType_ranked (matchId : string) :
  (getMatchType matchId = "Ranked" <-> Js.startsWith matchId "mode.ranked" = true) /\
  (getMatchType matchId = "Unknown" <->
     Js.startsWith matchId "mode.ranked" = false /\
     Js.startsWith matchId "mode.unranked" = false /\
     Js.startsWith matchId "mode.direct" = false).
Proof.
  unfold getMatchType, modes. destruct matchId as [|c s].
  - split; split; intros; try discriminate; auto.
  - cbn [Js.truthy_string negb List.find fst snd].
    destruct (Js.startsWith (String c s) "mode.ranked");
    destruct (Js.startsWith (String c s) "mode.unranked");
    destruct (Js.startsWith (String c s) "mode.direct");
    cbn [snd]; split; split; intros; try discriminate; auto;
      try (exfalso; intuition discriminate).
Qed.

Lemma lower_ascii_idem (c : ascii) : Js.lower_ascii (Js.lower_ascii c) = Js.lower_ascii c.
Proof. destruct c as [[] [] [] [] [] [] [] []]; reflexivity. Qed.

Lemma toLowerCase_idem (s : string) : lower_case (Js.toLowerCase s).
Proof.
  unfold lower_case. induction s as [|c s IH]; simpl; [done|].
  now rewrite lower_ascii_idem, IH.
Qed.

Lemma toLowerCase_empty (s : string) : Js.toLowerCase s = "" <-> s = "".
Proof. destruct s; simpl; split; congruence. Qed.

Lemma lower_case_cons (c : ascii) (s : string) :
  lower_case (String c s) <-> Js.lower_ascii c = c /\ lower_case s.
Proof.
  unfold lower_case. simpl. split.
  - intros H. now injection H.
  - intros [-> ->]. reflexivity.
Qed.

Lemma trimStart_lower (s : string) : lower_case s -> lower_case (Js.trimStart s).
Proof.
  induction s as [|c s IH]; simpl; [done|].
  intros H. destruct (Js.is_space c); [|done].
  apply IH. now apply lower_case_cons in H.
Qed.

Lemma trimEnd_lower (s : string) : lower_case s -> lower_case (Js.trimEnd s).
Proof.
  induction s as [|c s IH]; simpl; [done|].
  intros H. apply lower_case_cons in H as [Hc Hs]. specialize (IH Hs).
  destruct (Js.trimEnd s) as [|d r].
  - destruct (Js.is_space c); [done|]. now apply lower_case_cons.
  - now apply lower_case_cons.
Qed.

Lemma trimStart_no_leading (s : string) : no_leading_space (Js.trimStart s).
Proof.
  induction s as [|c s IH]; simpl; [done|].
  destruct (Js.is_space c) eqn:E; [done|]. exact E.
Qed.

Lemma trimStart_fixed (s : string) : no_leading_space s -> Js.trimStart s = s.
Proof. destruct s as [|c s]; simpl; [done|]. now intros ->. Qed.

Lemma trimEnd_no_leading (s : string) : no_leading_space s -> no_leading_space (Js.trimEnd s).
Proof.
  destruct s as [|c s]; simpl; [done|]. intros H.
  destruct (Js.trimEnd s); [rewrite H|]; exact H.
Qed.

Lemma trimEnd_idem (s : string) : Js.trimEnd (Js.trimEnd s) = Js.trimEnd s.
Proof.
  induction s as [|c s IH]; simpl; [done|].
  destruct (Js.trimEnd s) as [|d r] eqn:E.
  - destruct (Js.is_space c) eqn:Ec; simpl; [done|]. now rewrite Ec.
  - change (Js.trimEnd (String c (String d r))) with
      (match Js.trimEnd (String d r) with
       | EmptyString => if Js.is_space c then EmptyString else String c EmptyString
       | r' => String c r'
       end).
    rewrite IH. reflexivity.
Qed.

Lemma trim_idem (s : string) : Js.trim (Js.trim s) = Js.trim s.
Proof.
  unfold Js.trim.
  rewrite (trimStart_fixed (Js.trimEnd (Js.trimStart s))).
  - apply trimEnd_idem.
  - apply trimEnd_no_leading, trimStart_no_leading.
Qed.

Lemma truthy_string_ne (s : string) : Js.truthy_string s = true <-> s <> "".
Proof. destruct s; simpl; split; congruence. Qed.

Lemma lower_ascii_ascii (c : ascii) :
  (nat_of_ascii (Js.lower_ascii c) <? 128)%nat = (nat_of_ascii c <? 128)%nat.
Proof. destruct c as [[] [] [] [] [] [] [] []]; reflexivity. Qed.

Lemma toLowerCase_ascii (s : string) : is_ascii (Js.toLowerCase s) = is_ascii s.
Proof.
  induction s as [|c s IH]; [reflexivity|].
  cbn [Js.toLowerCase is_ascii]. now rewrite lower_ascii_ascii, IH.
Qed.

Lemma trimStart_ascii (s : string) : is_ascii s = true -> is_ascii (Js.trimStart s) = true.
Proof.
  induction s as [|c s IH]; [done|]. cbn [Js.trimStart].
  destruct (Js.is_space c); [|done].
  cbn [is_ascii]. intros H. apply andb_true_iff in H as [_ H]. now apply IH.
Qed.

Lemma trimEnd_ascii (s : string) : is_ascii s = true -> is_ascii (Js.trimEnd s) = true.
Proof.
  induction s as [|c s IH]; [done|].
  cbn [is_ascii]. intros H. apply andb_true_iff in H as [Hc Hs]. specialize (IH Hs).
  cbn [Js.trimEnd]. destruct (Js.trimEnd s) as [|d r].
  - destruct (Js.is_space c); [done|]. cbn [is_ascii]. now rewrite Hc.
  - change (is_ascii (String c (String d r)))
      with ((nat_of_ascii c <? 128)%nat && is_ascii (String d r)).
    now rewrite Hc, IH.
Qed.

(** X4.  For a request written in ASCII characters, the tag lists that
    [analyzeReplays] builds from it (lines 466-468) hold only non-empty
    ASCII strings without capital letters and without leading or trailing
    white space; and every entry of the request that already has this
    form is kept. *)
Theorem normalize_clean (tags : list string) :
  Forall (fun s => is_ascii s = true) tags ->
  Forall (fun t => t <> "" /\ is_ascii t = true /\ lower_case t /\ Js.trim t = t)
         (normalize tags) /\
  (forall t, t <> "" -> lower_case t -> Js.trim t = t -> t ∈ tags -> t ∈ normalize tags).
Proof.
  intros Hascii. unfold normalize, filter_truthy. split.
  - apply List.Forall_forall. intros t Ht.
    apply filter_In in Ht as [Ht Hne]. apply in_map_iff in Ht as (s & <- & Hs).
    split; [now apply truthy_string_ne|]. split; [|split].
    + apply trimEnd_ascii, trimStart_ascii. rewrite toLowerCase_ascii.
      rewrite List.Forall_forall in Hascii. now apply Hascii.
    + apply trimEnd_lower, trimStart_lower, toLowerCase_idem.
    + apply trim_idem.
  - intros t Hne Hl Ht Hin. apply list_elem_of_In, filter_In. split.
    + apply in_map_iff. exists t. rewrite Hl, Ht. split; [done|]. now apply list_elem_of_In.
    + now apply truthy_string_ne.
Qed.

Lemma normalize_clean_witness :
  normalize ["  Alice "; "   "; "BOB#2"; "carol"] = ["alice"; "bob#2"; "carol"] /\
  Forall (fun t => t <> "" /\ is_ascii t = true /\ lower_case t /\ Js.trim t = t)
         (normalize ["  Alice "; "   "; "BOB#2"; "carol"]) /\
  "carol" ∈ normalize ["  Alice "; "   "; "BOB#2"; "carol"].
Proof.
  assert (H : Forall (fun s => is_ascii s = true) ["  Alice "; "   "; "BOB#2"; "carol"]).
  { repeat (apply List.Forall_cons; [reflexivity|]). constructor. }
  split; [reflexivity|]. split.
  - exact (proj1 (normalize_clean _ H)).
  - apply (proj2 (normalize_clean _ H)); [discriminate|reflexivity|reflexivity|].
    apply list_elem_of_In. simpl. auto.
Defined.

(** ** Filters and viewpoint of a single replay *)

Lemma indexOf_lookup (l : list string) (x : string) (i : nat) :
  Js.indexOf l x = Some i -> l !! i = Some x.
Proof.
  revert i. induction l as [|y l IH]; intros i; simpl; [discriminate|].
  destruct (String.eqb y x) eqn:E.
  - intros [= <-]. apply String.eqb_eq in E. now subst.
  - destruct (Js.indexOf l x) as [j|]; [|discriminate].
    intros [= <-]. simpl. now apply IH.
Qed.

(** X6.  For a requested name written in ASCII characters,
    [resolveCharacterFilter] answers the filter [{ num, name }] exactly
    when [name] is the entry [num] of the character table and equals the
    requested name up to the case of the letters A-Z: every table name
    resolves, in any letter case, to its own index and canonical
    spelling, and no other ASCII name resolves to a filter. *)
Theorem resolveCharacterFilter_table (requested : string) (cf : CharacterFilter) :
  is_ascii requested = true ->
  resolveCharacterFilter (Some requested) = Some cf <->
  characters !! num cf = Some (name cf) /\
  Js.toLowerCase (name cf) = Js.toLowerCase requested.
Proof.
  intros _. split.
  - unfold resolveCharacterFilter.
    destruct (negb (Js.truthy_string requested)); [discriminate|].
    destruct (Js.indexOf characters_lowercase (Js.toLowerCase requested)) as [idx|] eqn:Hi;
      [|discriminate].
    intros [= <-]. apply indexOf_lookup in Hi. unfold characters_lowercase in Hi.
    rewrite list_lookup_fmap in Hi. cbn [num name]. revert Hi.
    destruct (characters !! idx) as [c|]; [|discriminate].
    intros [= Hi]. auto.
  - destruct cf as [idx c]. cbn [num name]. intros [Hc Hl].
    assert (Hlt : (idx < 34)%nat) by (apply lookup_lt_Some in Hc; exact Hc).
    unfold resolveCharacterFilter. rewrite <- Hl.
    assert (Hne : Js.truthy_string requested = true).
    { destruct requested; [|reflexivity]. exfalso.
      do 34 (destruct idx as [|idx]; [injection Hc as <-; discriminate Hl|]). lia. }
    rewrite Hne. cbn [negb].
    do 34 (destruct idx as [|idx]; [injection Hc as <-; vm_compute; reflexivity|]). lia.
Qed.

Lemma resolveCharacterFilter_table_witness :
  is_ascii "fAlCo" = true /\
  resolveCharacterFilter (Some "fAlCo") = Some {| num := 20; name := "Falco" |}.
Proof.
  split; [reflexivity|].
  apply (resolveCharacterFilter_table "fAlCo" {| num := 20; name := "Falco" |}).
  - reflexivity.
  - split; reflexivity.
Defined.

(** X7.  The two branches of the viewpoint resolution (lines 319-348)
    compute one and the same rule, with or without an opponent filter:
    participant 0 is "you" when it matches the player tags and
    participant 1 the opponent tags; otherwise participant 1 is "you"
    when it matches the player tags and participant 0 the opponent tags;
    otherwise the replay is turned away.  In particular participant 0
    wins every tie. *)
Theorem viewpoint_first_match (F : Filters) (p0 p1 : Identity) :
  viewpoint F p0 p1 =
  if matchesAnyTag p0 (wantedPlayersLower F) && matchesAnyTag p1 (wantedOpponentLower F)
  then Some (0%nat, 1%nat)
  else if matchesAnyTag p1 (wantedPlayersLower F) && matchesAnyTag p0 (wantedOpponentLower F)
  then Some (1%nat, 0%nat)
  else None.
Proof.
  unfold viewpoint. destruct (wantedOpponentLower F) as [|w ws]; [|reflexivity].
  cbn [matchesAnyTag]. rewrite !andb_true_r.
  destruct (matchesAnyTag p0 (wantedPlayersLower F)), (matchesAnyTag p1 (wantedPlayersLower F));
    reflexivity.
Qed.

(** X8.  [processSingleReplay] answers [null] exactly when the replay
    passes the ranked gate and one of the two participants has no display
    name. *)
Theorem null_iff_nameless (F : Filters) (gameData : GameData) :
  processSingleReplay F gameData = RNull <->
  (rankedOnly F = false \/ matchType_of gameData = "Ranked") /\
  (displayName (participant gameData 0) = "" \/ displayName (participant gameData 1) = "").
Proof.
  unfold processSingleReplay, processSingleReplay_body, resolveSides.
  destruct (rankedOnly F) eqn:Hr; cbn [andb].
  - destruct (String.eqb (matchType_of gameData) "Ranked") eqn:Hm; cbn [negb].
    + apply String.eqb_eq in Hm.
      destruct (displayName (participant gameData 0)) eqn:H0; cbn [Js.truthy_string negb orb].
      { split; auto. }
      destruct (displayName (participant gameData 1)) eqn:H1; cbn [Js.truthy_string negb].
      { split; auto. }
      split; [|intros [_ [?|?]]; discriminate].
      intros H. exfalso. revert H. unfold classify. repeat case_match; intros; simplify_eq.
    + apply String.eqb_neq in Hm. split; [discriminate|]. intros [[?|?] _]; [discriminate|done].
  - destruct (displayName (participant gameData 0)) eqn:H0; cbn [Js.truthy_string negb orb].
    { split; auto. }
    destruct (displayName (participant gameData 1)) eqn:H1; cbn [Js.truthy_string negb].
    { split; auto. }
    split; [|intros [_ [?|?]]; discriminate].
    intros H. exfalso. revert H. unfold classify. repeat case_match; intros; simplify_eq.
Qed.

(** X9.  With [rankedOnly] set, a replay whose match id does not start
    with ["mode.ranked"] (a missing id included) is answered with the
    partial object, whatever else it holds, and never contributes. *)
Theorem ranked_only_turns_away_other_modes (F : Filters) (gameData : GameData) :
  rankedOnly F = true ->
  Js.startsWith (Js.or_string (gd_settings gameData ≫= matchId) "") "mode.ranked" = false ->
  processSingleReplay F gameData = RPartial (gd_total_seconds gameData) /\
  qualifying F gameData = None.
Proof.
  intros Hr Hm.
  assert (H : processSingleReplay F gameData = RPartial (gd_total_seconds gameData)).
  { assert (Hg : String.eqb (matchType_of gameData) "Ranked" = false).
    { unfold matchType_of, getMatchType, modes.
      destruct (Js.or_string (gd_settings gameData ≫= matchId) "") as [|c s]; [reflexivity|].
      cbn [Js.truthy_string negb find fst snd]. rewrite Hm.
      destruct (Js.startsWith (String c s) "mode.unranked"); [reflexivity|].
      destruct (Js.startsWith (String c s) "mode.direct"); reflexivity. }
    unfold processSingleReplay, processSingleReplay_body, resolveSides.
    rewrite Hr, Hg. reflexivity. }
  split; [exact H|]. unfold qualifying. now rewrite H.
Qed.

Lemma ranked_only_turns_away_other_modes_witness :
  let F := filters_of
             {| playerTags := ["ALI#1"]; opponentTags := []; ignoredOpponents := [];
                playerCharacter := None; opponentCharacter := None; opt_rankedOnly := true |} in
  processSingleReplay F Sample.dataA = RPartial (gd_total_seconds Sample.dataA) /\
  qualifying F Sample.dataA = None.
Proof.
  apply ranked_only_turns_away_other_modes; reflexivity.
Defined.

Lemma participant_named_lookup (gameData : GameData) (i : nat) :
  displayName (participant gameData i) <> "" ->
  is_Some (default [] (gd_metadata gameData) !! i).
Proof.
  unfold participant. destruct (default [] (gd_metadata gameData) !! i); [eauto|].
  simpl. congruence.
Qed.

Lemma characterId_at_players gameData settings ps i :
  gd_settings gameData = Some settings -> players settings = Some ps ->
  characterId_at gameData i = ps !! i ≫= characterId.
Proof.
  intros Hs Hp. unfold characterId_at. rewrite Hs. destruct settings. simpl in *.
  now rewrite Hp.
Qed.

(** X10.  For a replay with two named participants and two entries in
    [settings.players], the exclusion reasons are complete: the replay
    contributes to the statistics if and only if it is excluded by none of
    the ranked gate, the viewpoint, the ignore list, the character
    filters, the duration, the kill counts and the stage check. *)
Theorem not_excluded_qualifies (F : Filters) (gameData : GameData) :
  two_named_players gameData ->
  (is_Some (qualifying F gameData) <-> ~ Excluded F gameData).
Proof.
  intros (H0 & H1 & settings & ps & Hs & Hp & Hlen). split.
  { intros [d Hd] Hex. apply excluded_not_qualifying in Hex. congruence. }
  intros Hne.
  unfold qualifying, processSingleReplay, processSingleReplay_body, resolveSides.
  destruct (rankedOnly F && negb (String.eqb (matchType_of gameData) "Ranked")) eqn:Hr.
  { exfalso. apply Hne. apply andb_true_iff in Hr as [Hr Hm].
    apply excluded_ranked; [done|]. now apply negb_true_iff, String.eqb_neq in Hm. }
  apply truthy_string_ne in H0 as T0. apply truthy_string_ne in H1 as T1.
  rewrite T0, T1. cbn [negb orb].
  assert (Hl : (length (default [] (gd_metadata gameData)) <? 2)%nat = false).
  { apply Nat.ltb_ge. destruct (participant_named_lookup _ _ H1) as [m Hm].
    apply lookup_lt_Some in Hm. lia. }
  rewrite Hl, Hs, Hp.
  assert (Hl' : (length ps <? 2)%nat = false) by (apply Nat.ltb_ge; lia).
  rewrite Hl'.
  destruct (viewpoint F (participant gameData 0) (participant gameData 1))
    as [[self opp]|] eqn:Hv.
  2:{ exfalso. apply Hne. now apply excluded_viewpoint. }
  assert (Hopp : (if (opp =? 0)%nat then participant gameData 0 else participant gameData 1)
                 = participant gameData opp).
  { destruct (viewpoint_indices _ _ _ _ _ Hv) as [[-> ->]|[-> ->]]; reflexivity. }
  rewrite Hopp.
  destruct (isIgnoredOpponent (participant gameData opp) (ignoredOpponentsLower F)) eqn:Hi.
  { exfalso. apply Hne. eapply excluded_ignored; eauto. }
  rewrite <- !(characterId_at_players gameData settings ps) by assumption.
  destruct (character_mismatch (playerCharacterFilter F) (characterId_at gameData self)) eqn:Hc1.
  { exfalso. apply Hne. eapply excluded_player_character; eauto. }
  destruct (character_mismatch (opponentCharacterFilter F) (characterId_at gameData opp)) eqn:Hc2.
  { exfalso. apply Hne. eapply excluded_opponent_character; eauto. }
  unfold classify. cbn [playerIndex opponentIndex sides_settings].
  destruct (PrimFloat.ltb (game_seconds_of gameData) 30) eqn:Hd.
  { exfalso. apply Hne. now apply excluded_duration. }
  destruct ((killCount gameData self =? 0) && (killCount gameData opp =? 0)) eqn:Hk.
  { exfalso. apply Hne. apply andb_true_iff in Hk as [K1 K2].
    apply Z.eqb_eq in K1, K2.
    destruct (viewpoint_indices _ _ _ _ _ Hv) as [[-> ->]|[-> ->]];
      now apply excluded_kills. }
  cbn [stage_num].
  destruct (stage_invalid (checked_stageId settings)) eqn:Hst.
  { exfalso. apply Hne. apply excluded_stage. rewrite Hs. exact Hst. }
  eauto.
Qed.

Lemma not_excluded_qualifies_witness :
  is_Some (qualifying (filters_of Sample.me) Sample.dataA) <->
  ~ Excluded (filters_of Sample.me) Sample.dataA.
Proof.
  apply not_excluded_qualifies.
  split; [vm_compute; discriminate|]. split; [vm_compute; discriminate|].
  eexists _, _. split; [reflexivity|]. split; [reflexivity|]. simpl. lia.
Defined.

Lemma ltb_asym (x y : float) : PrimFloat.ltb x y = true -> PrimFloat.ltb y x = false.
Proof.
  rewrite !ltb_spec. unfold SFltb, SFcompare.
  destruct (Prim2SF x) as [[]|[]| |[] m1 e1], (Prim2SF y) as [[]|[]| |[] m2 e2];
    try discriminate; try reflexivity.
  all: change (Pos.compare_cont Eq m1 m2) with (Pos.compare m1 m2);
       change (Pos.compare_cont Eq m2 m1) with (Pos.compare m2 m1);
       rewrite (Pos.compare_antisym m1 m2), (Z.compare_antisym e1 e2);
       destruct (e1 ?= e2), (m1 ?= m2)%positive; simpl; congruence.
Qed.

(** X11.  The outcome rule of lines 409-411 never declares both sides the
    winner: seen from the two viewpoints of the same game data, at most
    one of them wins (a draw in kills and percentages is a loss for
    both). *)
Theorem at_most_one_winner (gameData : GameData) (a b : nat) :
  didWin gameData a b && didWin gameData b a = false.
Proof.
  unfold didWin.
  destruct (killCount gameData b <? killCount gameData a) eqn:H1;
    destruct (killCount gameData a <? killCount gameData b) eqn:H2;
    destruct (killCount gameData a =? killCount gameData b) eqn:E1;
    destruct (killCount gameData b =? killCount gameData a) eqn:E2;
    rewrite ?Z.ltb_lt, ?Z.ltb_ge, ?Z.eqb_eq, ?Z.eqb_neq in *; try lia;
    cbn [orb andb]; try reflexivity; rewrite ?andb_false_r; try reflexivity.
  unfold lt_num.
  destruct (PrimFloat.ltb _ _) eqn:L; [|reflexivity]. now rewrite (ltb_asym _ _ L).
Qed.

Lemma resolveSides_named F gameData sd :
  resolveSides F gameData = Proceed sd ->
  displayName (participant gameData 0) <> "" /\
  displayName (participant gameData 1) <> "".
Proof.
  unfold resolveSides.
  destruct (rankedOnly F && negb (String.eqb (matchType_of gameData) "Ranked")); [discriminate|].
  destruct (displayName (participant gameData 0)); [discriminate|].
  destruct (displayName (participant gameData 1)); [discriminate|].
  intros _. split; discriminate.
Qed.

(** X12.  A populated result of [processSingleReplay] names two different
    participants with indices 0 and 1, carries their non-empty display
    names, the raw duration and the character ids read from the settings,
    agrees with every character filter that is set, and its ticker
    message shows the two display names: the fallbacks to the connect code
    and to ["P1"]/["P2"] of lines 741-742 are never used. *)
Theorem populated_result_is_well_formed (F : Filters) (gameData : GameData) (d : MatchData) :
  processSingleReplay F gameData = RData d ->
  player_index d <> opponent_index d /\
  (player_index d < 2)%nat /\ (opponent_index d < 2)%nat /\
  player_name d = displayName (participant gameData (player_index d)) /\
  opponent_name d = displayName (participant gameData (opponent_index d)) /\
  player_name d <> "" /\ opponent_name d <> "" /\
  res_total_seconds d = gd_total_seconds gameData /\
  player_character_num d = characterId_at gameData (player_index d) /\
  opponent_character_num d = characterId_at gameData (opponent_index d) /\
  (forall cf, playerCharacterFilter F = Some cf ->
     player_character_num d = Some (Z.of_nat (num cf))) /\
  (forall cf, opponentCharacterFilter F = Some cf ->
     opponent_character_num d = Some (Z.of_nat (num cf))) /\
  match_log d =
    MatchLog (player_name d) (opponent_name d)
      (Js.or_string (stage_at (stage_num d)) "Unknown") (res_total_wins d =? 1).
Proof.
  intros H.
  destruct (processSingleReplay_data _ _ _ H) as (sd & Hs & Hc).
  pose proof (resolveSides_named _ _ _ Hs) as Hnames.
  apply resolveSides_proceed in Hs.
  destruct Hs as [Hr Hv Hset Hself Hopp Hi Hc1 Hc2 Hm1 Hm2].
  assert (Hd : d = {| res_total_games := 1;
         res_total_wins := if didWin gameData (playerIndex sd) (opponentIndex sd) then 1 else 0;
         res_total_seconds := gd_total_seconds gameData;
         res_game_seconds := game_seconds_of gameData;
         player_character_num := playerCharId sd;
         player_character_name := character_name (playerCharId sd);
         opponent_character_num := oppCharId sd;
         opponent_character_name := character_name (oppCharId sd);
         stage_num := checked_stageId (sides_settings sd);
         stage_name := Js.or_string (stage_at (checked_stageId (sides_settings sd))) "Unknown Stage";
         player_index := playerIndex sd;
         player_name := Js.or_string (Some (displayName (playerIdentity sd))) "";
         player_code := Js.or_string (Some (connectCode (playerIdentity sd))) "";
         opponent_index := opponentIndex sd;
         opponent_name := Js.or_string (Some (displayName (opponentIdentity sd))) "";
         opponent_code := Js.or_string (Some (connectCode (opponentIdentity sd))) "" |}).
  { revert Hc. unfold classify.
    destruct (PrimFloat.ltb (game_seconds_of gameData) 30); [discriminate|].
    destruct ((killCount gameData (playerIndex sd) =? 0)
              && (killCount gameData (opponentIndex sd) =? 0)); [discriminate|].
    now intros [= <-]. }
  assert (Hor : forall s, Js.or_string (Some s) "" = s) by (intros []; reflexivity).
  subst d. cbn [player_index opponent_index player_name opponent_name res_total_seconds
                player_character_num opponent_character_num]. rewrite !Hor, Hself, Hopp.
  assert (Hn : displayName (participant gameData (playerIndex sd)) <> "" /\
               displayName (participant gameData (opponentIndex sd)) <> "").
  { destruct (viewpoint_indices _ _ _ _ _ Hv) as [[-> ->]|[-> ->]]; tauto. }
  destruct Hn as [Hn1 Hn2].
  assert (Hidx : playerIndex sd <> opponentIndex sd /\
                 (playerIndex sd < 2)%nat /\ (opponentIndex sd < 2)%nat).
  { destruct (viewpoint_indices _ _ _ _ _ Hv) as [[-> ->]|[-> ->]]; lia. }
  destruct Hidx as (I1 & I2 & I3).
  do 10 (split; [solve [auto]|]).
  split; [|split].
  - intros cf Hcf. rewrite Hcf in Hm1. unfold character_mismatch in Hm1.
    destruct (playerCharId sd) as [c|] eqn:E; [|discriminate].
    apply negb_false_iff, Z.eqb_eq in Hm1. now subst.
  - intros cf Hcf. rewrite Hcf in Hm2. unfold character_mismatch in Hm2.
    destruct (oppCharId sd) as [c|] eqn:E; [|discriminate].
    apply negb_false_iff, Z.eqb_eq in Hm2. now subst.
  - unfold match_log.
    cbn [player_name opponent_name player_code opponent_code stage_num res_total_wins].
    rewrite ?Hor, ?Hself, ?Hopp.
    destruct (displayName (participant gameData (playerIndex sd))); [done|].
    destruct (displayName (participant gameData (opponentIndex sd))); [done|].
    cbn [Js.or_string Js.truthy_string].
    destruct (didWin gameData (playerIndex sd) (opponentIndex sd)); reflexivity.
Qed.

Lemma populated_result_is_well_formed_witness :
  exists d,
    processSingleReplay (filters_of Sample.me) Sample.dataA = RData d /\
    player_name d = "Alice" /\ opponent_name d = "Bob" /\
    player_index d <> opponent_index d.
Proof.
  eexists. split; [vm_compute; reflexivity|].
  split; [reflexivity|]. split; [reflexivity|].
  refine (proj1 (populated_result_is_well_formed
                   (filters_of Sample.me) Sample.dataA _ _)).
  vm_compute; reflexivity.
Defined.

(** ** Renderings and durations, checked over a range *)

Lemma all_from_spec (p : Z -> bool) (n : nat) : forall z,
  all_from z n p = true -> forall x, z <= x < z + Z.of_nat n -> p x = true.
Proof.
  induction n as [|n IH]; intros z H x Hx; [lia|].
  cbn [all_from] in H. apply andb_true_iff in H as [Hz H].
  destruct (Z.eq_dec x z) as [->|Hne]; [exact Hz|].
  apply (IH (z + 1) H). lia.
Qed.

Lemma all_below_spec (p : Z -> bool) (n : Z) :
  all_below n p = true -> forall x, 0 <= x < n -> p x = true.
Proof.
  intros H x Hx. apply (all_from_spec p (Z.to_nat n) 0 H). lia.
Qed.

Lemma same_number_eq (x y : float) : same_number x y = true -> x = y.
Proof.
  unfold same_number. intros H. apply Prim2SF_inj.
  destruct (Prim2SF x) as [s|s| |s m e], (Prim2SF y) as [t|t| |t m' e']; try discriminate.
  - apply Bool.eqb_prop in H. now subst.
  - apply Bool.eqb_prop in H. now subst.
  - reflexivity.
  - apply andb_true_iff in H as [H He]. apply andb_true_iff in H as [Hs Hm].
    apply Bool.eqb_prop in Hs. apply Pos.eqb_eq in Hm. apply Z.eqb_eq in He. now subst.
Qed.

(** X13.  With fewer than 160 games, every rate
    [((wins / games) * 100).toFixed(2)] is the exact percentage rounded
    half-up to two decimals.  The bound is sharp: at 23 wins in 160 games
    the double arithmetic prints ["14.37"] where the exact value 14.375
    rounds to ["14.38"]. *)
Theorem rate_exact_below_160_games :
  (forall wins games, 0 <= wins <= games -> 0 < games < 160 ->
     rate wins games = exact_rate wins games) /\
  rate 23 160 = "14.37" /\ exact_rate 23 160 = "14.38".
Proof.
  split; [|split; vm_compute; reflexivity].
  assert (H : all_below 160
                (fun g => all_below (g + 1)
                  (fun w => (g =? 0) || String.eqb (rate w g) (exact_rate w g))) = true)
    by (vm_cast_no_check (eq_refl true)).
  intros w g Hw Hg.
  pose proof (all_below_spec _ _ H g ltac:(lia)) as H1. cbv beta in H1.
  pose proof (all_below_spec _ _ H1 w ltac:(lia)) as H2. cbv beta in H2.
  apply orb_true_iff in H2 as [H2|H2]; [apply Z.eqb_eq in H2; lia|].
  now apply String.eqb_eq.
Qed.

Lemma rate_exact_below_160_games_witness : rate 2 3 = "66.67".
Proof.
  rewrite (proj1 rate_exact_below_160_games 2 3); [reflexivity|lia|lia].
Defined.

(** X14.  For every whole number of seconds below three hours,
    [secondsToHMS] prints [hh:mm:ss] with each field padded to two
    digits. *)
Theorem secondsToHMS_clock (n : Z) :
  0 <= n < 10800 -> secondsToHMS (Js.of_Z n) = clock n.
Proof.
  assert (H : all_below 10800 (fun n => String.eqb (secondsToHMS (Js.of_Z n)) (clock n)) = true)
    by (vm_cast_no_check (eq_refl true)).
  intros Hn. apply String.eqb_eq. exact (all_below_spec _ _ H n Hn).
Qed.

Lemma secondsToHMS_clock_witness : secondsToHMS (Js.of_Z 3725) = "01:02:05".
Proof.
  rewrite (secondsToHMS_clock 3725); [reflexivity|lia].
Defined.

(** X15.  For a freshly decoded replay whose last frame index is below
    18000 (five minutes), [game_seconds] is the whole number of seconds
    [frame div 60]; the duration check turns the replay away exactly when
    the last frame is below 1800, and such a replay never contributes.  A
    missing last frame counts as frame 0. *)
Theorem thirty_seconds_are_1800_frames (F : Filters) (file : File) (d : Decoded) :
  0 <= lastFrame d < 18000 ->
  let gameData := gameData_of file d in
  game_seconds_of gameData = Js.of_Z (lastFrame d / 60) /\
  (PrimFloat.ltb (game_seconds_of gameData) 30 = true <-> lastFrame d < 1800) /\
  (lastFrame d < 1800 -> qualifying F gameData = None).
Proof.
  assert (H : all_below 18000
                (fun f =>
                   let s := Js.floor (Js.or_zero (PrimFloat.div (Js.of_Z f) 60)) in
                   same_number s (Js.of_Z (f / 60)) &&
                   Bool.eqb (PrimFloat.ltb s 30) (f <? 1800)) = true)
    by (vm_cast_no_check (eq_refl true)).
  intros Hf gameData.
  pose proof (all_below_spec _ _ H _ Hf) as H1. cbv beta zeta in H1.
  apply andb_true_iff in H1 as [H1 H2]. apply same_number_eq in H1.
  apply Bool.eqb_prop in H2.
  assert (E : game_seconds_of gameData
              = Js.floor (Js.or_zero (PrimFloat.div (Js.of_Z (lastFrame d)) 60)))
    by reflexivity.
  assert (Hlt : PrimFloat.ltb (game_seconds_of gameData) 30 = true <-> lastFrame d < 1800).
  { rewrite E, H2. apply Z.ltb_lt. }
  split; [now rewrite E|]. split; [exact Hlt|].
  intros Hs. apply excluded_not_qualifying, excluded_duration, Hlt, Hs.
Qed.

Lemma thirty_seconds_are_1800_frames_witness :
  game_seconds_of Sample.dataShort = 29%float /\
  qualifying (filters_of Sample.me) Sample.dataShort = None.
Proof.
  pose proof (thirty_seconds_are_1800_frames (filters_of Sample.me) Sample.fileShort
                (Sample.replay Sample.alice Sample.bob 2 20 31 1 0 1740 10 80)) as H.
  destruct H as (H1 & _ & H3); [vm_compute; split; [discriminate|reflexivity]|].
  split; [exact H1|]. apply H3. vm_compute. reflexivity.
Defined.

(** X16.  Two files with the same content hash are decoded once: after
    the iteration on the first, which found or stored its game data, the
    lookup for the second answers that same game data without calling the
    decoder and without touching the cache or its counter - whatever the
    second file itself would decode to. *)
Theorem duplicate_content_is_decoded_once
    (W : World) (F : Filters) (i j : nat) (f1 f2 : File) (st : Run) :
  is_Some (usable_hash f1) ->
  usable_hash f2 = usable_hash f1 ->
  is_Some (fst (acquire f1 st)) ->
  let st1 := yield W j (fst (handle_file W F i f1 st)) in
  acquire f2 st1 = (fst (acquire f1 st), st1).
Proof.
  intros [h Hh] H2 [gd Hgd] st1. rewrite Hh in H2.
  rewrite Hgd. apply (acquire_hit f2 st1 h gd H2).
  unfold st1. rewrite yield_cache.
  destruct (handle_file_store W F i f1 st) as (-> & _).
  revert Hgd. unfold acquire, cached. rewrite Hh.
  destruct (cache st !! h) as [gd'|] eqn:Hc.
  - cbn [fst snd]. intros [= <-]. exact Hc.
  - destruct (decoded f1) as [d|]; cbn [fst snd]; [|discriminate].
    intros [= <-]. unfold store. rewrite Hh. cbn [cache]. apply lookup_insert_eq.
Qed.

Lemma duplicate_content_is_decoded_once_witness :
  let W := Sample.folder [] in
  let copy := {| path := "copy.slp"; digest := Some "0a"; decoded := None |} in
  let st1 := yield W 1 (fst (handle_file W (filters_of Sample.me) 0 Sample.fileA (start ∅))) in
  fst (acquire Sample.fileA (start ∅)) = Some Sample.dataA /\
  acquire copy st1 = (fst (acquire Sample.fileA (start ∅)), st1).
Proof.
  split; [vm_compute; reflexivity|].
  apply (duplicate_content_is_decoded_once (Sample.folder []) (filters_of Sample.me) 0 1
           Sample.fileA {| path := "copy.slp"; digest := Some "0a"; decoded := None |}
           (start ∅)).
  - eexists. reflexivity.
  - reflexivity.
  - eexists. vm_compute. reflexivity.
Defined.

(** ** A proof rule for the loop *)

Lemma loop_rule W F (n : nat) (P : nat -> Run -> Prop) (Q : Run -> Prop) :
  (forall i st, (i <= n)%nat -> P i st -> Q st) ->
  (forall i st, (i < n)%nat -> P i st -> cancelRequested st = true ->
     Q (if win W then send Cancelled st else st)) ->
  (forall i file st, (i < n)%nat -> P i st -> cancelRequested st = false ->
     P (S i) (fst (handle_file W F i file (yield W i st)))) ->
  forall fs i st, (i + length fs = n)%nat -> P i st -> Q (fst (loop W F i fs st)).
Proof.
  intros Hend Hbreak Hstep. induction fs as [|file rest IH]; intros i st Hn HP.
  - simpl in *. apply (Hend i); [lia|exact HP].
  - rewrite loop_cons. simpl in Hn. destruct (cancelRequested st) eqn:Hc.
    + cbn [fst]. apply (Hbreak i); [lia|exact HP|exact Hc].
    + apply IH; [lia|]. apply Hstep; [lia|exact HP|exact Hc].
Qed.

(** ** What one iteration does to the aggregates and the skipped count *)

Lemma aggregate_counted W gameData d st :
  stage_invalid (stage_num d) = false ->
  agg (fst (aggregate W gameData d st)) = counted gameData d (agg st) /\
  skippedCount (fst (aggregate W gameData d st)) = skippedCount st.
Proof.
  intros H. unfold aggregate, counted.
  cbn [agg set_agg add_totals stage_num]. rewrite H.
  destruct (unknown_character (player_character_name d)
            || unknown_character (opponent_character_name d)); [split; reflexivity|].
  destruct (win W); split; reflexivity.
Qed.

Lemma account_qualifying W F gameData st :
  let st' := fst (account W F gameData st) in
  match qualifying F gameData with
  | Some d => agg st' = counted gameData d (agg st) /\ skippedCount st' = skippedCount st
  | None => agg st' = agg st /\ skippedCount st' = skippedCount st + 1
  end.
Proof.
  unfold account, qualifying.
  destruct (processSingleReplay F gameData) as [| |d]; cbn; auto.
  destruct (stage_invalid (stage_num d)) eqn:E; cbn; auto.
  apply aggregate_counted, E.
Qed.

Lemma finish_skipped W i r : skippedCount (fst (finish W i r)) = skippedCount (fst r).
Proof. destruct r as [st []]; simpl; destruct (win W); reflexivity. Qed.

Lemma handle_file_tally W F i file st :
  let st' := fst (handle_file W F i file st) in
  match fst (acquire file st) with
  | None => agg st' = agg st /\ skippedCount st' = skippedCount st
  | Some gameData =>
      match qualifying F gameData with
      | Some d => agg st' = counted gameData d (agg st) /\ skippedCount st' = skippedCount st
      | None => agg st' = agg st /\ skippedCount st' = skippedCount st + 1
      end
  end.
Proof.
  unfold handle_file. cbv zeta. rewrite finish_agg, finish_skipped. unfold try_block.
  destruct (acquire file st) as [[gameData|] st1] eqn:Ha;
    apply acquire_frame in Ha as (Hagg & Hsk & _); cbn [fst].
  - pose proof (account_qualifying W F gameData st1) as H. cbv zeta in H.
    rewrite Hagg, Hsk in H. exact H.
  - auto.
Qed.

Lemma qualifying_flags F gameData d : qualifying F gameData = Some d -> flags_ok d.
Proof. intros H. apply qualifying_data in H as [H _]. eapply flags_of_data, H. Qed.

Lemma counted_total_games gameData d a :
  total_games (counted gameData d a) = total_games a + res_total_games d.
Proof. unfold counted. case_match; reflexivity. Qed.

Lemma counted_total_wins gameData d a :
  total_wins (counted gameData d a) = total_wins a + res_total_wins d.
Proof. unfold counted. case_match; reflexivity. Qed.

(** ** Games, skipped and scanned replays *)

Lemma loop_counts W F fs : forall i st,
  0 <= total_games (agg st) -> 0 <= skippedCount st ->
  let st' := fst (loop W F i fs st) in
  total_games (agg st) <= total_games (agg st') /\
  skippedCount st <= skippedCount st' /\
  total_games (agg st') + skippedCount st'
  <= total_games (agg st) + skippedCount st + Z.of_nat (length fs).
Proof.
  induction fs as [|file rest IH]; intros i st Hg Hs; cbv zeta.
  - simpl. lia.
  - rewrite loop_cons. destruct (cancelRequested st).
    + cbn [fst length]. destruct (win W); cbn; lia.
    + pose proof (handle_file_tally W F i file (yield W i st)) as H. cbv zeta in H.
      change (agg (yield W i st)) with (agg st) in H.
      change (skippedCount (yield W i st)) with (skippedCount st) in H.
      set (st1 := fst (handle_file W F i file (yield W i st))) in *.
      assert (H1 : total_games (agg st) <= total_games (agg st1) /\
                   skippedCount st <= skippedCount st1 /\
                   total_games (agg st1) + skippedCount st1
                   <= total_games (agg st) + skippedCount st + 1).
      { destruct (fst (acquire file (yield W i st))) as [gd|].
        - destruct (qualifying F gd) as [d|] eqn:Hq; destruct H as [-> ->].
          + rewrite counted_total_games. destruct (qualifying_flags _ _ _ Hq) as [-> _]. lia.
          + lia.
        - destruct H as [-> ->]. lia. }
      specialize (IH (S i) st1 ltac:(lia) ltac:(lia)). cbv zeta in IH.
      cbn [length]. lia.
Qed.

(** Without cancellation and decoding failures every file is either
    counted or skipped. *)
Lemma loop_counts_all W F fs : forall i st,
  cancelRequested st = false ->
  (forall k, cancelDuringYield W k = false) ->
  Forall decodable fs ->
  let st' := fst (loop W F i fs st) in
  total_games (agg st') + skippedCount st'
  = total_games (agg st) + skippedCount st + Z.of_nat (length fs).
Proof.
  induction fs as [|file rest IH]; intros i st Hc Hq Hd; cbv zeta.
  - simpl. lia.
  - rewrite loop_cons, Hc. apply Forall_cons in Hd as [[dc Hdc] Hd].
    rewrite (yield_quiet W i st Hc (Hq i)).
    pose proof (handle_file_tally W F i file st) as H. cbv zeta in H.
    set (st1 := fst (handle_file W F i file st)) in *.
    assert (Ha : is_Some (fst (acquire file st))).
    { unfold acquire. destruct (cached file st); [eauto|]. rewrite Hdc. eauto. }
    destruct Ha as [gd Ha]. rewrite Ha in H.
    assert (H1 : total_games (agg st1) + skippedCount st1
                 = total_games (agg st) + skippedCount st + 1).
    { destruct (qualifying F gd) as [d|] eqn:Hqq; destruct H as [-> ->].
      - rewrite counted_total_games. destruct (qualifying_flags _ _ _ Hqq) as [-> _]. lia.
      - lia. }
    assert (Hc1 : cancelRequested st1 = false).
    { unfold st1. rewrite handle_file_flag. exact Hc. }
    specialize (IH (S i) st1 Hc1 Hq Hd). cbv zeta in IH. cbn [length]. lia.
Qed.

(** X17.  In every report with games, [totalReplaysScanned] is the number
    of files of the folder, [totalGames] is at least 1, [skippedReplays]
    is not negative, and games and skipped replays together never exceed
    the scanned ones; they add up to them whenever the run is not
    cancelled and every file can be decoded. *)
Theorem games_and_skipped_within_scanned
    (W : World) (o : Options) (disk : gmap string GameData) (f : Found) :
  report (analyzeReplays W o disk) = Some (GamesFound f) ->
  totalReplaysScanned f = length (files W) /\
  1 <= totalGames f /\
  0 <= skippedReplays f /\
  totalGames f + skippedReplays f <= Z.of_nat (totalReplaysScanned f) /\
  ((forall k, cancelDuringYield W k = false) -> Forall decodable (files W) ->
   totalGames f + skippedReplays f = Z.of_nat (totalReplaysScanned f)).
Proof.
  rewrite analyzeReplays_outcome. cbn [report]. intros [= Hf].
  pose proof (loop_counts W (filters_of o) (files W) 0 (start disk)) as H.
  cbn [start agg total_games no_aggregates skippedCount] in H.
  specialize (H ltac:(lia) ltac:(lia)). cbv zeta in H.
  pose proof (loop_counts_all W (filters_of o) (files W) 0 (start disk) eq_refl) as H'.
  cbn [start agg total_games no_aggregates skippedCount] in H'. cbv zeta in H'.
  revert Hf. unfold build_report.
  set (st := fst (loop W (filters_of o) 0 (files W) (start disk))) in *.
  destruct (negb (truthy_Z (total_games (agg st)))) eqn:Hz; [discriminate|].
  intros [= <-]. cbn [totalReplaysScanned totalGames skippedReplays].
  apply negb_false_iff in Hz. unfold truthy_Z in Hz. apply negb_true_iff, Z.eqb_neq in Hz.
  repeat split; try lia. intros Hq Hd. specialize (H' Hq Hd). lia.
Qed.

Lemma games_and_skipped_within_scanned_witness :
  exists f,
    report (analyzeReplays (Sample.folder [Sample.fileA; Sample.fileShort; Sample.fileCorrupt])
              Sample.me ∅) = Some (GamesFound f) /\
    totalGames f = 1 /\ skippedReplays f = 1 /\ totalReplaysScanned f = 3%nat /\
    totalGames f + skippedReplays f <= Z.of_nat (totalReplaysScanned f).
Proof.
  eexists. split; [vm_compute; reflexivity|].
  split; [reflexivity|]. split; [reflexivity|]. split; [reflexivity|].
  refine (proj1 (proj2 (proj2 (proj2 (games_and_skipped_within_scanned
            (Sample.folder [Sample.fileA; Sample.fileShort; Sample.fileCorrupt])
            Sample.me ∅ _ _))))).
  vm_compute; reflexivity.
Defined.

(** ** The cache and its counters *)

Lemma acquire_counters file st :
  let st1 := snd (acquire file st) in
  cache st ⊆ cache st1 /\
  new_replays st1 - new_replays st = Z.of_nat (size (cache st1)) - Z.of_nat (size (cache st)) /\
  0 <= new_replays st1 - new_replays st
    <= Z.of_nat (decodeCalls st1) - Z.of_nat (decodeCalls st) /\
  (decodeCalls st1 <= S (decodeCalls st))%nat.
Proof.
  unfold acquire, cached, store, failed_decode.
  destruct (usable_hash file) as [h|] eqn:Hh.
  - destruct (cache st !! h) as [gd|] eqn:Hc; cbn [snd].
    + split; [done|]. lia.
    + destruct (decoded file) as [d|]; cbn [snd cache new_replays decodeCalls].
      * split; [apply insert_subseteq, Hc|].
        rewrite (map_size_insert_None _ _ _ Hc). lia.
      * split; [done|]. lia.
  - destruct (decoded file) as [d|]; cbn [snd cache new_replays decodeCalls];
      (split; [done|]); lia.
Qed.

Lemma loop_counters W F fs : forall i st,
  let st' := fst (loop W F i fs st) in
  cache st ⊆ cache st' /\
  new_replays st' - new_replays st = Z.of_nat (size (cache st')) - Z.of_nat (size (cache st)) /\
  0 <= new_replays st' - new_replays st
    <= Z.of_nat (decodeCalls st') - Z.of_nat (decodeCalls st) /\
  (decodeCalls st' <= decodeCalls st + length fs)%nat.
Proof.
  induction fs as [|file rest IH]; intros i st; cbv zeta.
  - simpl. split; [done|]. lia.
  - rewrite loop_cons. destruct (cancelRequested st).
    + cbn [fst length]. destruct (win W); cbn; (split; [done|]); lia.
    + destruct (handle_file_store W F i file (yield W i st)) as (Hc & Hn & Hd).
      pose proof (acquire_counters file (yield W i st)) as Ha. cbv zeta in Ha.
      change (cache (yield W i st)) with (cache st) in Ha.
      change (new_replays (yield W i st)) with (new_replays st) in Ha.
      change (decodeCalls (yield W i st)) with (decodeCalls st) in Ha.
      rewrite <- Hc, <- Hn, <- Hd in Ha.
      set (st1 := fst (handle_file W F i file (yield W i st))) in *.
      specialize (IH (S i) st1). cbv zeta in IH.
      destruct Ha as (A1 & A2 & A3 & A4). destruct IH as (B1 & B2 & B3 & B4).
      split; [etrans; eassumption|]. cbn [length]. lia.
Qed.

(** X18.  A run never drops or overwrites a cache entry it read from
    disk; the count of newly cached replays in its report is exactly the
    growth of the cache, it never exceeds the number of decoder calls,
    which never exceeds the number of files. *)
Theorem cache_only_grows (W : World) (o : Options) (disk : gmap string GameData) :
  let out := analyzeReplays W o disk in
  (forall hash gameData, disk !! hash = Some gameData -> written out !! hash = Some gameData) /\
  (exists r, report out = Some r /\
     new_replays_of r = Z.of_nat (size (written out)) - Z.of_nat (size disk) /\
     0 <= new_replays_of r <= Z.of_nat (decodes out)) /\
  (decodes out <= length (files W))%nat.
Proof.
  cbv zeta. rewrite analyzeReplays_outcome. cbn [report written decodes].
  pose proof (loop_counters W (filters_of o) (files W) 0 (start disk)) as H. cbv zeta in H.
  set (st := fst (loop W (filters_of o) 0 (files W) (start disk))) in *.
  cbn [start cache new_replays decodeCalls] in H. destruct H as (H1 & H2 & H3 & H4).
  split; [|split].
  - intros h gd Hd. eapply lookup_weaken; eassumption.
  - eexists. split; [reflexivity|].
    assert (E : new_replays_of (build_report o (length (files W)) st) = new_replays st).
    { unfold build_report. destruct (negb _); reflexivity. }
    rewrite E. lia.
  - lia.
Qed.

(** ** Stage tables and streaks *)

Lemma sum_of_app {A} (f : A -> Z) l1 l2 :
  sum_of f (l1 ++ l2)%list = sum_of f l1 + sum_of f l2.
Proof. induction l1 as [|x l1 IH]; simpl; [reflexivity|]. rewrite IH. lia. Qed.

Lemma sum_of_perm {A} (f : A -> Z) l1 l2 : Permutation l1 l2 -> sum_of f l1 = sum_of f l2.
Proof. induction 1; simpl; lia. Qed.

Lemma sum_of_map {A B} (f : B -> Z) (g : A -> B) l :
  sum_of f (map g l) = sum_of (fun x => f (g x)) l.
Proof. induction l as [|x l IH]; simpl; [reflexivity|]. now rewrite IH. Qed.

Lemma sum_of_ext {A} (f g : A -> Z) l :
  Forall (fun x => f x = g x) l -> sum_of f l = sum_of g l.
Proof. induction 1 as [|x l Hx _ IH]; simpl; [reflexivity|]. now rewrite Hx, IH. Qed.

Lemma sum_of_set k v (o : list (string * Z)) :
  sum_of snd (Js.set k v o) = sum_of snd o - Js.or0 (Js.get k o) + v.
Proof.
  induction o as [|[k' v'] o IH]; simpl; [lia|].
  destruct (String.eqb k' k); simpl; [lia|]. rewrite IH. lia.
Qed.

Lemma sum_of_init_count k o : sum_of snd (init_count k o) = sum_of snd o.
Proof.
  unfold init_count, truthy_Z. destruct (Js.or0 (Js.get k o) =? 0) eqn:E; simpl; [|reflexivity].
  apply Z.eqb_eq in E. rewrite sum_of_set. lia.
Qed.

Lemma sum_of_incr k o : sum_of snd (incr k o) = sum_of snd o + 1.
Proof. unfold incr. rewrite sum_of_set. lia. Qed.

Lemma keys_set {V} k v (o : list (string * V)) :
  Js.keys (Js.set k v o)
  = if decide (k ∈ Js.keys o) then Js.keys o else (Js.keys o ++ [k])%list.
Proof.
  destruct (decide (k ∈ Js.keys o)) as [Hin|Hout].
  - apply keys_set_present, Hin.
  - rewrite set_fresh by exact Hout. unfold Js.keys. rewrite map_app. reflexivity.
Qed.

Lemma get_keys {V} k (o : list (string * V)) : is_Some (Js.get k o) -> k ∈ Js.keys o.
Proof.
  intros [v Hv]. apply get_elem_of in Hv. unfold Js.keys.
  apply list_elem_of_fmap. exists (k, v). auto.
Qed.

Lemma keys_init_count k o : Js.keys (init_count k o) = Js.keys (Js.set k 0 o).
Proof.
  unfold init_count, truthy_Z. destruct (Js.or0 (Js.get k o) =? 0) eqn:E; simpl; [reflexivity|].
  symmetry. apply keys_set_present. apply get_keys.
  destruct (Js.get k o); [eauto|]. simpl in E. discriminate.
Qed.

Lemma keys_incr k o : Js.keys (incr k o) = Js.keys (Js.set k 0 o).
Proof. unfold incr. rewrite !keys_set. reflexivity. Qed.

Lemma keys_set_twice {V} k v w (o : list (string * V)) :
  Js.keys (Js.set k v (Js.set k w o)) = Js.keys (Js.set k w o).
Proof. apply keys_set_present. apply elem_of_keys_set. auto. Qed.

Lemma keys_stage_step k (o : list (string * Z)) (b : bool) :
  Js.keys (if b then incr k (init_count k o) else init_count k o) = Js.keys (Js.set k 0 o).
Proof.
  destruct b; [|apply keys_init_count].
  rewrite keys_incr. rewrite !keys_set. rewrite keys_init_count.
  destruct (decide (k ∈ Js.keys (Js.set k 0 o))) as [_|Hn]; [apply keys_set|].
  exfalso. apply Hn, elem_of_keys_set. auto.
Qed.

Lemma keys_set_same_keys {V1 V2} k (v1 : V1) (v2 : V2) o1 o2 :
  Js.keys o1 = Js.keys o2 -> Js.keys (Js.set k v1 o1) = Js.keys (Js.set k v2 o2).
Proof. intros H. rewrite !keys_set, H. reflexivity. Qed.

Lemma get_absent {V} k (o : list (string * V)) : k ∉ Js.keys o -> Js.get k o = None.
Proof.
  intros Hk. destruct (Js.get k o) as [v|] eqn:E; [|reflexivity].
  exfalso. apply Hk, get_keys. eauto.
Qed.

Lemma balanced_start : Balanced no_aggregates.
Proof.
  split; simpl; try reflexivity; try lia; [constructor|].
  intros s Hs. inversion Hs.
Qed.

Lemma balanced_counted gameData d a :
  flags_ok d -> Balanced a -> Balanced (counted gameData d a).
Proof.
  intros [Hg Hw] [B1 B2 B3 B4 B6 B5].
  set (k := default "" (stage_at (stage_num d))).
  assert (S5 : forall s, s ∈ Js.keys (incr k (init_count k (stage_totals a))) ->
                 1 <= Js.or0 (Js.get s (incr k (init_count k (stage_totals a))))).
  { intros s Hs. rewrite or0_get_incr, !or0_get_init_count.
    assert (H0 : 0 <= Js.or0 (Js.get k (stage_totals a))).
    { destruct (decide (k ∈ Js.keys (stage_totals a))) as [Hin|Hout].
      - specialize (B6 k Hin). lia.
      - rewrite (get_absent _ _ Hout). simpl. lia. }
    destruct (String.eqb_spec k s) as [<-|Hne]; [lia|].
    apply B6. rewrite keys_incr in Hs.
    apply (proj1 (elem_of_keys_set _ _ _ _)) in Hs as [->|Hs]; [contradiction|].
    rewrite keys_init_count in Hs.
    apply (proj1 (elem_of_keys_set _ _ _ _)) in Hs as [->|Hs]; [contradiction|exact Hs]. }
  assert (S1 : sum_of snd (incr k (init_count k (stage_totals a))) = total_games a + 1).
  { rewrite sum_of_incr, sum_of_init_count. lia. }
  assert (S2 : sum_of snd (if truthy_Z (res_total_wins d)
                           then incr k (init_count k (stage_wins a))
                           else init_count k (stage_wins a))
               = total_wins a + res_total_wins d).
  { unfold truthy_Z. destruct Hw as [-> | ->]; simpl.
    - rewrite sum_of_init_count. lia.
    - rewrite sum_of_incr, sum_of_init_count. lia. }
  assert (S3 : Js.keys (if truthy_Z (res_total_wins d)
                        then incr k (init_count k (stage_wins a))
                        else init_count k (stage_wins a))
               = Js.keys (incr k (init_count k (stage_totals a)))).
  { rewrite keys_stage_step. rewrite (keys_stage_step k (stage_totals a) true).
    apply keys_set_same_keys, B3. }
  assert (S4 : NoDup (Js.keys (incr k (init_count k (stage_totals a))))).
  { apply NoDup_keys_incr, NoDup_keys_init_count, B4. }
  unfold counted. fold k.
  destruct (unknown_character (player_character_name d)
            || unknown_character (opponent_character_name d)).
  - split; cbn; rewrite ?Hg; auto. destruct Hw as [-> | ->]; lia.
  - split; cbn; rewrite ?Hg; auto.
    unfold truthy_Z. destruct Hw as [-> | ->]; cbn; [lia|].
    destruct (bestWinStreak (misc a) <? currentStreak (misc a) + 1) eqn:E;
      rewrite ?Z.ltb_lt, ?Z.ltb_ge in E; lia.
Qed.

Lemma loop_balanced W F fs : forall i st,
  Balanced (agg st) -> Balanced (agg (fst (loop W F i fs st))).
Proof.
  induction fs as [|file rest IH]; intros i st HB; [exact HB|].
  rewrite loop_cons. destruct (cancelRequested st); [destruct (win W); exact HB|].
  apply IH.
  pose proof (handle_file_tally W F i file (yield W i st)) as H. cbv zeta in H.
  change (agg (yield W i st)) with (agg st) in H.
  destruct (fst (acquire file (yield W i st))) as [gd|].
  - destruct (qualifying F gd) as [d|] eqn:Hq; destruct H as [-> _]; [|exact HB].
    apply balanced_counted; [eapply qualifying_flags, Hq|exact HB].
  - destruct H as [-> _]. exact HB.
Qed.

Lemma sum_of_get_keys (o : list (string * Z)) :
  NoDup (Js.keys o) -> sum_of (fun k => Js.or0 (Js.get k o)) (Js.keys o) = sum_of snd o.
Proof.
  unfold Js.keys. induction o as [|[k v] o IH]; simpl; intros Hnd; [reflexivity|].
  apply NoDup_cons in Hnd as [Hk Hnd]. rewrite String.eqb_refl. simpl.
  rewrite <- (IH Hnd). f_equal. apply sum_of_ext, Forall_forall. intros k' Hin.
  destruct (String.eqb_spec k k') as [->|_]; [contradiction|reflexivity].
Qed.

Lemma stageResults_sums a :
  Balanced a ->
  sum_of sr_games (stageResults a) = total_games a /\
  sum_of sr_wins (stageResults a) = total_wins a.
Proof.
  intros [B1 B2 B3 B4 _ _]. unfold stageResults. rewrite !sum_of_map. split.
  - rewrite <- B1. apply sum_of_ext, Forall_forall. intros [k g] _. reflexivity.
  - rewrite <- B2, <- sum_of_get_keys by (rewrite B3; exact B4).
    rewrite B3. unfold Js.keys. rewrite sum_of_map.
    apply sum_of_ext, Forall_forall. intros [k g] _. reflexivity.
Qed.

(** X19.  The stage breakdown of a report partitions its games: the games
    of the listed stages add up to [totalGames], their wins to
    [totalWins], no stage is listed twice and every listed stage has at
    least one game. *)
Theorem stage_breakdown_adds_up
    (W : World) (o : Options) (disk : gmap string GameData) (f : Found) :
  report (analyzeReplays W o disk) = Some (GamesFound f) ->
  sum_of (fun e => se_games (snd e)) (fd_stages f) = totalGames f /\
  sum_of (fun e => se_wins (snd e)) (fd_stages f) = totalWins f /\
  NoDup (Js.keys (fd_stages f)) /\
  Forall (fun e => 1 <= se_games (snd e)) (fd_stages f).
Proof.
  rewrite analyzeReplays_outcome. cbn [report]. intros [= Hf].
  pose proof (loop_balanced W (filters_of o) (files W) 0 (start disk) balanced_start) as HB.
  pose proof (loop_consistent W (filters_of o) (files W) 0 (start disk) consistent_start) as HC.
  revert Hf. unfold build_report.
  set (st := fst (loop W (filters_of o) 0 (files W) (start disk))) in *.
  destruct (negb (truthy_Z (total_games (agg st)))); [discriminate|].
  intros [= <-]. cbn [fd_stages totalGames totalWins].
  destruct (stageResults_sums _ HB) as [S1 S2].
  pose proof (sort_desc_perm sr_games (stageResults (agg st))) as HP.
  assert (Hnd : NoDup (map sr_stage (Js.sort_desc sr_games (stageResults (agg st))))).
  { rewrite HP, stageResults_keys. apply HB. }
  rewrite (sortedStageResults_distinct _ Hnd). unfold Js.keys.
  rewrite !sum_of_map, map_map. cbn [snd fst se_games se_wins].
  rewrite !(sum_of_perm _ _ _ HP).
  split; [exact S1|]. split; [exact S2|]. split; [exact Hnd|].
  apply Forall_fmap. rewrite HP. unfold stageResults. apply Forall_fmap, Forall_forall.
  intros [k g] Hin. cbn.
  destruct HB as [_ _ _ B4 B6 _].
  assert (Hk : k ∈ Js.keys (stage_totals (agg st))).
  { unfold Js.keys. apply list_elem_of_fmap. exists (k, g). auto. }
  specialize (B6 k Hk). rewrite (elem_of_get k g _ B4 Hin) in B6. exact B6.
Qed.

Lemma stage_breakdown_adds_up_witness :
  exists f,
    report (analyzeReplays (Sample.folder [Sample.fileA; Sample.fileE; Sample.fileF])
              Sample.me ∅) = Some (GamesFound f) /\
    map (fun e => (fst e, se_games (snd e), se_wins (snd e))) (fd_stages f)
    = [("Final Destination", 2, 1); ("Battlefield", 1, 1)] /\
    sum_of (fun e => se_games (snd e)) (fd_stages f) = totalGames f.
Proof.
  eexists. split; [vm_compute; reflexivity|]. split; [reflexivity|].
  refine (proj1 (stage_breakdown_adds_up
            (Sample.folder [Sample.fileA; Sample.fileE; Sample.fileF]) Sample.me ∅ _ _)).
  vm_compute; reflexivity.
Defined.

(** X20.  The best win streak of a report lies between 0 and [totalWins];
    it is the loop's [bestWinStreak], which the current streak never
    exceeds. *)
Theorem best_streak_within_wins
    (W : World) (o : Options) (disk : gmap string GameData) (f : Found) :
  report (analyzeReplays W o disk) = Some (GamesFound f) ->
  0 <= ms_bestWinStreak (fd_misc f) <= totalWins f /\
  let m := misc (agg (fst (loop W (filters_of o) 0 (files W) (start disk)))) in
  ms_bestWinStreak (fd_misc f) = bestWinStreak m /\
  0 <= currentStreak m <= bestWinStreak m.
Proof.
  rewrite analyzeReplays_outcome. cbn [report]. intros [= Hf].
  pose proof (loop_balanced W (filters_of o) (files W) 0 (start disk) balanced_start) as HB.
  revert Hf. unfold build_report.
  set (st := fst (loop W (filters_of o) 0 (files W) (start disk))) in *.
  destruct (negb (truthy_Z (total_games (agg st)))); [discriminate|].
  intros [= <-]. cbn [fd_misc totalWins miscStats ms_bestWinStreak].
  destruct HB as [_ _ _ _ _ B5]. lia.
Qed.

Lemma best_streak_within_wins_witness :
  exists f,
    report (analyzeReplays (Sample.folder [Sample.fileA; Sample.fileE; Sample.fileF])
              Sample.me ∅) = Some (GamesFound f) /\
    ms_bestWinStreak (fd_misc f) = 2 /\ totalWins f = 2 /\
    0 <= ms_bestWinStreak (fd_misc f) <= totalWins f.
Proof.
  eexists. split; [vm_compute; reflexivity|]. split; [reflexivity|]. split; [reflexivity|].
  refine (proj1 (best_streak_within_wins
            (Sample.folder [Sample.fileA; Sample.fileE; Sample.fileF]) Sample.me ∅ _ _)).
  vm_compute; reflexivity.
Defined.

(** ** The rates of a report *)

Lemma rate_is_rate (wins games : Z) :
  0 <= wins <= games -> 0 < games < 2 ^ 53 -> is_rate (rate wins games) wins games.
Proof.
  intros Hw Hg. split; [exact Hw|]. split; [lia|]. split.
  - unfold rate, truthy_Z. destruct (Z.eqb_spec games 0); [lia|reflexivity].
  - apply rate_two_decimals; lia.
Qed.

Lemma sum_of_bound {A} (f : A -> Z) (l : list A) (x : A) :
  Forall (fun y => 0 <= f y) l -> x ∈ l -> f x <= sum_of f l.
Proof.
  induction 1 as [|y l Hy Hl IH]; intros Hin; [inversion Hin|].
  assert (0 <= sum_of f l).
  { clear -Hl. induction Hl as [|z l Hz Hl IH]; simpl; unfold sum_of in *; simpl; lia. }
  apply elem_of_cons in Hin as [->|Hin]; [|specialize (IH Hin)]; unfold sum_of in *; simpl; lia.
Qed.

(** Every row of [stageResults] carries the rate of its own counts, with
    at least one game and no more than all the games. *)
Lemma stageResults_rated a :
  Consistent a -> Balanced a ->
  Forall (fun r => sr_winrate r = rate (sr_wins r) (sr_games r) /\
                   0 <= sr_wins r <= sr_games r /\ 1 <= sr_games r <= total_games a)
         (stageResults a).
Proof.
  intros HC HB.
  pose proof (stageResults_rates a) as H1. pose proof (stageResults_within a HC) as H2.
  destruct (stageResults_sums a HB) as [S1 _].
  assert (H3 : Forall (fun r => 1 <= sr_games r) (stageResults a)).
  { unfold stageResults. apply Forall_fmap, Forall_forall. intros [k g] Hin. cbn.
    destruct HB as [_ _ _ B4 B6 _].
    assert (Hk : k ∈ Js.keys (stage_totals a)).
    { unfold Js.keys. apply list_elem_of_fmap. exists (k, g). auto. }
    specialize (B6 k Hk). rewrite (elem_of_get k g _ B4 Hin) in B6. exact B6. }
  apply Forall_forall. intros r Hr.
  rewrite Forall_forall in H1, H2. pose proof (proj1 (Forall_forall _ _) H3 r Hr) as G3.
  split; [apply H1, Hr|]. split; [apply H2, Hr|]. split; [exact G3|].
  rewrite <- S1. apply sum_of_bound; [|exact Hr].
  eapply Forall_impl; [exact H3|]. intros y Hy. simpl in Hy. lia.
Qed.

(** C5, as the code has it.  The rate expression of the report builder,
    [games ? ((wins / games) * 100).toFixed(2) : "0.00"], is "0.00"
    whenever games = 0 and "75.00" for 3 wins in 4 games; for counts with
    [0 <= wins <= games] and [1 <= games < 2^53] it is
    [((wins / games) * 100).toFixed(2)], a string with exactly two
    decimals.  In the report with games found - on an array of files,
    which has fewer than [2^32] elements - the overall win rate and the
    rate of every stage entry is that string for the entry's own wins and
    games, of which there is at least one; the nickname, code and opponent
    lists are empty and the [matchups] value is the table of counts, which
    carries no rate.  The rows of [matchup_results] (line 896) carry
    [((wins / games) * 100).toFixed(2)] for their own counts, with at
    least one game, whatever the head-to-head matrix.  In the report with
    no games found, the win rate is the number 0, not a string. *)
Theorem rates_are_two_decimal_percentages :
  (forall wins games,
      0 <= wins <= games -> 0 < games < 2 ^ 53 ->
      rate wins games
      = Js.toFixed2 (PrimFloat.mul (PrimFloat.div (Js.of_Z wins) (Js.of_Z games)) 100%float) /\
      two_decimals (rate wins games)) /\
  (forall wins, rate wins 0 = "0.00") /\
  rate 3 4 = "75.00" /\
  (forall W o disk f,
      report (analyzeReplays W o disk) = Some (GamesFound f) ->
      Z.of_nat (length (files W)) < 2 ^ 32 ->
      (exists s, winRate f = RateString s /\ is_rate s (totalWins f) (totalGames f)) /\
      Forall (fun e => is_rate (se_winrate (snd e)) (se_wins (snd e)) (se_games (snd e)))
             (fd_stages f) /\
      nicknames f = [] /\ codes f = [] /\ opponents f = [] /\
      exists m, fd_matchups f = MatchupTable m) /\
  (forall h2h,
      Forall (fun r =>
                0 < mr_games r /\
                mr_winrate r
                = Js.toFixed2 (PrimFloat.mul (PrimFloat.div (Js.of_Z (mr_wins r))
                                                            (Js.of_Z (mr_games r))) 100%float) /\
                (0 <= mr_wins r <= mr_games r -> mr_games r < 2 ^ 53 ->
                 two_decimals (mr_winrate r)))
             (matchup_rows h2h)) /\
  (forall W o disk g,
      report (analyzeReplays W o disk) = Some (NoGamesFound g) ->
      ng_totalGames g = 0 /\ ng_winRate g = RateNumber 0).
Proof.
  split; [intros w g Hw Hg; apply (rate_is_rate w g Hw Hg)|].
  split; [reflexivity|]. split; [vm_compute; reflexivity|].
  split; [|split].
  - intros W o disk f. rewrite analyzeReplays_outcome. cbn [report]. intros [= Hf] Hn.
    pose proof (loop_balanced W (filters_of o) (files W) 0 (start disk) balanced_start) as HB.
    pose proof (loop_consistent W (filters_of o) (files W) 0 (start disk) consistent_start) as HC.
    pose proof (loop_counts W (filters_of o) (files W) 0 (start disk)
                  ltac:(cbn; lia) ltac:(cbn; lia)) as (_ & Hs & Hc).
    pose proof (loop_matchups W (filters_of o) (files W) 0 (start disk) (or_introl eq_refl)) as HM.
    cbv zeta in Hs, Hc. cbn [start agg no_aggregates total_games skippedCount] in Hs, Hc.
    revert Hf. unfold build_report.
    set (st := fst (loop W (filters_of o) 0 (files W) (start disk))) in *.
    destruct (negb (truthy_Z (total_games (agg st)))) eqn:Hz; [discriminate|].
    apply negb_false_iff in Hz. unfold truthy_Z in Hz. apply negb_true_iff, Z.eqb_neq in Hz.
    intros [= <-].
    cbn [winRate totalWins totalGames fd_stages nicknames codes opponents fd_matchups].
    pose proof (total_within _ (consistent_within _ HC)) as Hw.
    assert (Hg : 0 < total_games (agg st) < 2 ^ 53) by lia.
    split; [eexists; split; [reflexivity|apply rate_is_rate; assumption]|].
    split.
    + apply (sortedStageResults_Forall
               (fun r => sr_winrate r = rate (sr_wins r) (sr_games r) /\
                         0 <= sr_wins r <= sr_games r /\
                         1 <= sr_games r <= total_games (agg st))).
      * intros k row (E & H1 & H2). cbn. rewrite E. apply rate_is_rate; lia.
      * apply Forall_sort_desc, stageResults_rated; assumption.
    + split; [reflexivity|]. split; [reflexivity|]. split; [reflexivity|].
      destruct HM as [HM|[m HM]]; [contradiction|]. rewrite HM. eauto.
  - intros h2h. unfold matchup_rows. apply Forall_concat. apply Forall_forall. intros rows Hin.
    apply list_elem_of_lookup in Hin as [i Hi].
    rewrite list_lookup_imap in Hi.
    destruct (h2h !! i) as [row|]; [|discriminate]. injection Hi as <-.
    apply Forall_forall. intros r Hr.
    apply list_elem_of_omap in Hr as ([[w g] oc] & _ & Hr).
    destruct (0 <? g) eqn:Hg; [|discriminate]. injection Hr as <-.
    apply Z.ltb_lt in Hg. cbn. split; [exact Hg|]. split; [reflexivity|].
    intros Hw Hb. apply toFixed2_two_decimals, percentage_finite; lia.
  - intros W o disk g. rewrite analyzeReplays_outcome. cbn [report]. intros [= Hf].
    revert Hf. unfold build_report.
    destruct (negb (truthy_Z (total_games (agg _)))); [|discriminate].
    intros [= <-]. simpl. auto.
Qed.

Lemma rates_are_two_decimal_percentages_witness :
  exists f,
    report (analyzeReplays (Sample.folder [Sample.fileA; Sample.fileB]) Sample.me ∅)
    = Some (GamesFound f) /\
    winRate f = RateString "50.00" /\
    map (fun e => (fst e, se_winrate (snd e))) (fd_stages f) = [("Battlefield", "50.00")] /\
    Forall (fun e => is_rate (se_winrate (snd e)) (se_wins (snd e)) (se_games (snd e)))
           (fd_stages f).
Proof.
  eexists. split; [vm_compute; reflexivity|]. split; [vm_compute; reflexivity|].
  split; [vm_compute; reflexivity|].
  refine (proj1 (proj2 (proj1 (proj2 (proj2 (proj2 rates_are_two_decimal_percentages)))
                          (Sample.folder [Sample.fileA; Sample.fileB]) Sample.me ∅ _ _ _))).
  - vm_compute; reflexivity.
  - vm_compute; reflexivity.
Defined.

(** C5 as stated fails on the report with no games found: a folder whose
    only match is too short yields [totalGames = 0] and the win rate is
    the number 0, which is not the string "0.00". *)
Lemma no_games_winRate_is_number :
  exists g,
    report (analyzeReplays (Sample.folder [Sample.fileShort]) Sample.me ∅)
    = Some (NoGamesFound g) /\
    ng_totalGames g = 0 /\
    ng_winRate g = RateNumber 0 /\
    ng_winRate g <> RateString "0.00".
Proof.
  eexists. split; [vm_compute; reflexivity|]. simpl. repeat split. discriminate.
Qed.

(** ** Without a window *)

Lemma acquire_set_sent l file st :
  acquire file (set_sent l st) = (fst (acquire file st), set_sent l (snd (acquire file st))).
Proof.
  unfold acquire, cached, store, failed_decode.
  destruct (usable_hash file); cbn [cache set_sent]; repeat case_match; reflexivity.
Qed.

Lemma account_without_window l W F gameData st :
  let r := account W F gameData st in
  let q := account (without_window W) F gameData (set_sent l st) in
  fst q = set_sent l (fst r) /\
  (snd r = Continues <-> snd q = Continues) /\ snd q <> Returns.
Proof.
  cbv zeta. split; [|split; [|apply account_never_returns]].
  - unfold account. destruct (processSingleReplay F gameData) as [| |d]; try reflexivity.
    destruct (stage_invalid (stage_num d)) eqn:E; [reflexivity|].
    unfold aggregate. cbn [agg set_agg set_sent stage_num add_totals]. rewrite E.
    destruct (unknown_character _ || unknown_character _); [reflexivity|].
    cbn [win without_window]. destruct (win W); reflexivity.
  - unfold account. destruct (processSingleReplay F gameData) as [| |d]; try tauto.
    destruct (stage_invalid (stage_num d)) eqn:E; [tauto|].
    unfold aggregate. cbn [agg set_agg set_sent stage_num add_totals]. rewrite E.
    destruct (unknown_character _ || unknown_character _); [tauto|].
    cbn [win without_window]. destruct (win W); cbn [snd]; split; discriminate.
Qed.

Lemma handle_file_without_window l W F i file st :
  fst (handle_file (without_window W) F i file (set_sent l st))
  = set_sent l (fst (handle_file W F i file st)).
Proof.
  unfold handle_file, try_block. rewrite acquire_set_sent.
  destruct (acquire file st) as [[gameData|] st1]; cbn [fst snd].
  - destruct (account_without_window l W F gameData st1) as (H1 & H2 & H3).
    pose proof (account_never_returns W F gameData st1) as H4.
    destruct (account W F gameData st1) as [st2 c],
             (account (without_window W) F gameData (set_sent l st1)) as [st2' c'].
    cbn [fst snd] in *. subst st2'.
    destruct c, c'; cbn [finish fst win without_window]; try reflexivity;
      try congruence; try (destruct (win W); reflexivity);
      try (exfalso; destruct H2 as [H2 H2']; first [discriminate (H2 eq_refl)
                                                   | discriminate (H2' eq_refl)]).
  - cbn [finish fst win without_window]. destruct (win W); reflexivity.
Qed.

Lemma loop_without_window W F fs : forall l i st,
  fst (loop (without_window W) F i fs (set_sent l st)) = set_sent l (fst (loop W F i fs st)).
Proof.
  induction fs as [|file rest IH]; intros l i st; [reflexivity|].
  rewrite !loop_cons. cbn [cancelRequested set_sent].
  destruct (cancelRequested st).
  - cbn [win without_window fst]. destruct (win W); reflexivity.
  - change (yield (without_window W) i (set_sent l st)) with (set_sent l (yield W i st)).
    rewrite handle_file_without_window. apply IH.
Qed.

(** X21.  The window only receives: a run without any window sends no
    event, and resolves to the same report, writes the same cache and
    calls the decoder as often as the run with a window. *)
Theorem window_only_receives (W : World) (o : Options) (disk : gmap string GameData) :
  let out := analyzeReplays W o disk in
  let quiet := analyzeReplays (without_window W) o disk in
  events quiet = [] /\
  report quiet = report out /\
  written quiet = written out /\
  decodes quiet = decodes out.
Proof.
  cbv zeta. rewrite !analyzeReplays_outcome.
  cbn [events report written decodes].
  change (files (without_window W)) with (files W).
  pose proof (loop_without_window W (filters_of o) (files W) [] 0 (start disk)) as H.
  change (set_sent [] (start disk)) with (start disk) in H.
  rewrite H. cbn [sent cache decodeCalls set_sent].
  repeat split; reflexivity.
Qed.

(** ** The stream of events *)

Lemma handle_file_sent W F i file st :
  exists log,
    sent (fst (handle_file W F i file st)) = (sent st ++ log)%list /\
    (log = [] \/ log = [Progress (i + 1) (length (files W))] \/
     exists p1 p2 stage userWon,
       log = [MatchLog p1 p2 stage userWon; Progress (i + 1) (length (files W))]).
Proof.
  unfold handle_file, try_block.
  destruct (acquire file st) as [[gameData|] st1] eqn:Ha;
    apply acquire_frame in Ha as (_ & _ & Hs & _); rewrite <- Hs.
  - unfold account. destruct (processSingleReplay F gameData) as [| |d].
    + exists []. rewrite app_nil_r. auto.
    + exists []. rewrite app_nil_r. auto.
    + destruct (stage_invalid (stage_num d)) eqn:E.
      * exists []. rewrite app_nil_r. auto.
      * unfold aggregate. cbn [agg set_agg stage_num add_totals]. rewrite E.
        destruct (unknown_character _ || unknown_character _).
        -- exists []. rewrite app_nil_r. auto.
        -- destruct (win W) eqn:Hw; cbn [finish fst]; rewrite Hw.
           ++ eexists. split; [|right; right; unfold match_log; eauto].
              cbn. rewrite <- app_assoc. reflexivity.
           ++ exists []. rewrite app_nil_r. auto.
  - cbn [finish fst]. destruct (win W).
    + eexists. split; [reflexivity|auto].
    + exists []. rewrite app_nil_r. auto.
Qed.

Lemma processed_numbers_app l1 l2 :
  processed_numbers (l1 ++ l2) = (processed_numbers l1 ++ processed_numbers l2)%list.
Proof. unfold processed_numbers. apply omap_app. Qed.

Lemma StronglySorted_snoc (l : list nat) (x : nat) :
  StronglySorted lt l -> Forall (fun y => (y < x)%nat) l -> StronglySorted lt (l ++ [x]).
Proof.
  induction 1 as [|y l Hs IH Hy]; intros Hl; simpl.
  - repeat constructor.
  - apply Forall_cons in Hl as [Hyx Hl]. constructor; [auto|].
    apply Forall_app. split; [exact Hy|]. repeat constructor. exact Hyx.
Qed.

Lemma nothing_after_final_notice (l before after : list Event) :
  Cancelled ∉ l -> (l ++ [Cancelled])%list = (before ++ Cancelled :: after)%list -> after = [].
Proof.
  revert before. induction l as [|x l IH]; intros before Hn H.
  - destruct before as [|y before]; simpl in H; [congruence|].
    injection H as _ H. destruct before; discriminate.
  - apply not_elem_of_cons in Hn as [Hx Hn].
    destruct before as [|y before]; simpl in H; [congruence|].
    injection H as _ H. eauto.
Qed.

Lemma no_notice_no_split (l before after : list Event) :
  Cancelled ∉ l -> l <> (before ++ Cancelled :: after)%list.
Proof.
  intros Hn ->. apply Hn. apply elem_of_app. right. left.
Qed.

Lemma streaming_progress n i l pre :
  streaming n i l ->
  Cancelled ∉ pre -> (forall p t, Progress p t ∈ pre -> False) ->
  processed_numbers pre = [] ->
  streaming n (S i) (l ++ pre ++ [Progress (i + 1) n])%list.
Proof.
  intros (H1 & H2 & H3 & H4) Hc Hp Hpn.
  assert (Hmono : Forall (fun p => (p <= S i)%nat) (processed_numbers l)).
  { eapply Forall_impl; [exact H4|]. intros p Hle. simpl in Hle. lia. }
  assert (Hlt : Forall (fun p => (p < i + 1)%nat) (processed_numbers l)).
  { eapply Forall_impl; [exact H4|]. intros p Hle. simpl in Hle. lia. }
  split; [|split; [|split]].
  - rewrite !elem_of_app, list_elem_of_singleton. intros [?|[?|?]]; [auto|auto|discriminate].
  - intros p t. rewrite !elem_of_app, list_elem_of_singleton. intros [Hin|[Hin|[= -> ->]]].
    + destruct (H2 p t Hin). split; [lia|done].
    + destruct (Hp p t Hin).
    + split; [lia|reflexivity].
  - rewrite !processed_numbers_app, Hpn. apply StronglySorted_snoc; assumption.
  - rewrite !processed_numbers_app, Hpn. apply Forall_app. split; [exact Hmono|].
    cbn. apply List.Forall_cons; [lia|constructor].
Qed.

Lemma streaming_step W F i file st :
  streaming (length (files W)) i (sent st) ->
  streaming (length (files W)) (S i) (sent (fst (handle_file W F i file (yield W i st)))).
Proof.
  intros H.
  destruct (handle_file_sent W F i file (yield W i st)) as (log & -> & Hlog).
  change (sent (yield W i st)) with (sent st).
  destruct Hlog as [->|[->|(p1 & p2 & s & w & ->)]].
  - rewrite app_nil_r. destruct H as (H1 & H2 & H3 & H4).
    split; [exact H1|]. split; [|split; [exact H3|]].
    + intros p t Hin. destruct (H2 p t Hin). split; [lia|done].
    + eapply Forall_impl; [exact H4|]. intros p Hle. simpl in Hle. lia.
  - apply (streaming_progress _ _ _ [] H); [apply not_elem_of_nil| |reflexivity].
    intros p t Hin. inversion Hin.
  - apply (streaming_progress _ _ _ [MatchLog p1 p2 s w] H); [| |reflexivity].
    + rewrite list_elem_of_singleton. discriminate.
    + intros p t Hin. apply list_elem_of_singleton in Hin. discriminate.
Qed.

Lemma streaming_orderly n i l : (i <= n)%nat -> streaming n i l -> orderly n l.
Proof.
  intros Hi (H1 & H2 & H3 & H4). split; [|split; [exact H3|]].
  - intros p t Hin. destruct (H2 p t Hin). split; [lia|done].
  - intros before after E. exfalso. eapply no_notice_no_split; eauto.
Qed.

Lemma streaming_break n i l : (i <= n)%nat -> streaming n i l -> orderly n (l ++ [Cancelled]).
Proof.
  intros Hi (H1 & H2 & H3 & H4). split; [|split].
  - intros p t. rewrite elem_of_app, list_elem_of_singleton. intros [Hin|?]; [|discriminate].
    destruct (H2 p t Hin). split; [lia|done].
  - rewrite processed_numbers_app. cbn. rewrite app_nil_r. exact H3.
  - intros before after E. eapply nothing_after_final_notice; eauto.
Qed.

(** X22.  The events of every run are orderly: each progress event
    carries the number of files as its total and a count between 1 and
    that number, the counts strictly increase, and nothing follows a
    cancellation notice (so there is at most one). *)
Theorem events_are_orderly (W : World) (o : Options) (disk : gmap string GameData) :
  orderly (length (files W)) (events (analyzeReplays W o disk)).
Proof.
  rewrite analyzeReplays_outcome. cbn [events].
  apply (loop_rule W (filters_of o) (length (files W))
           (fun i st => streaming (length (files W)) i (sent st))
           (fun st => orderly (length (files W)) (sent st))) with (i := 0%nat).
  - intros i st Hi H. eapply streaming_orderly; eauto.
  - intros i st Hi H _. destruct (win W).
    + cbn [sent send]. eapply streaming_break; [|exact H]. lia.
    + eapply streaming_orderly; [|exact H]. lia.
  - intros i file st _ H _. apply streaming_step, H.
  - reflexivity.
  - cbn. split; [apply not_elem_of_nil|]. split; [|split; constructor].
    intros p t Hin. inversion Hin.
Qed.

(** ** Unknown characters, empty folders and ties *)

Lemma character_known_name (id : option Z) :
  unknown_character (character_name id) = negb (character_known id).
Proof.
  destruct id as [z|]; [|reflexivity].
  unfold character_known, character_name, at_index.
  destruct (z <? 0) eqn:Hneg.
  { apply Z.ltb_lt in Hneg. assert (E : (0 <=? z) = false) by (apply Z.leb_gt; lia).
    rewrite E. reflexivity. }
  apply Z.ltb_ge in Hneg. assert (E : (0 <=? z) = true) by (apply Z.leb_le; lia).
  rewrite E. cbn [andb].
  destruct (z <? 33) eqn:Hlt.
  - apply Z.ltb_lt in Hlt. remember (Z.to_nat z) as n eqn:En.
    assert (Hn : (n < 33)%nat) by lia. clear - Hn.
    do 33 (destruct n as [|n]; [reflexivity|]). lia.
  - apply Z.ltb_ge in Hlt. destruct (Z.eq_dec z 33) as [->|Hne]; [reflexivity|].
    rewrite (proj2 (lookup_ge_None characters (Z.to_nat z))); [reflexivity|].
    change (length characters) with 34%nat. lia.
Qed.

Lemma stage_at_named (id : option Z) (s : string) :
  stage_at id = Some s -> Js.truthy_string s = true.
Proof.
  unfold stage_at, at_index. destruct id as [z|]; [|discriminate].
  destruct (z <? 0); [discriminate|].
  generalize (Z.to_nat z). intros n H.
  do 33 (destruct n as [|n];
         [cbn in H; first [discriminate H | injection H as <-; reflexivity]|]).
  cbn in H. discriminate.
Qed.

Lemma data_character_names F gameData d :
  processSingleReplay F gameData = RData d ->
  player_character_name d = character_name (player_character_num d) /\
  opponent_character_name d = character_name (opponent_character_num d).
Proof.
  intros H. destruct (processSingleReplay_data _ _ _ H) as (sd & _ & Hc).
  revert Hc. unfold classify.
  destruct (PrimFloat.ltb (game_seconds_of gameData) 30); [discriminate|].
  destruct ((killCount gameData (playerIndex sd) =? 0)
            && (killCount gameData (opponentIndex sd) =? 0)); [discriminate|].
  intros [= <-]. split; reflexivity.
Qed.

(** X23.  A qualifying match in which a participant's character id is
    missing or outside 0..32 is counted in the totals and in its stage,
    but it adds nothing to the matchup table, the character playtime and
    the misc counters (line 641 only makes the table exist), and the
    iteration sends neither a ticker message nor a progress event. *)
Theorem unknown_character_counts_without_matchup
    (W : World) (F : Filters) (i : nat) (file : File) (st : Run)
    (gameData : GameData) (d : MatchData) :
  fst (acquire file st) = Some gameData ->
  qualifying F gameData = Some d ->
  character_known (player_character_num d) && character_known (opponent_character_num d)
  = false ->
  let st' := fst (handle_file W F i file st) in
  total_games (agg st') = total_games (agg st) + 1 /\
  total_wins (agg st') = total_wins (agg st) + res_total_wins d /\
  Js.or0 (Js.get (stage_name d) (stage_totals (agg st')))
  = Js.or0 (Js.get (stage_name d) (stage_totals (agg st))) + 1 /\
  matchups (agg st') = Some (default [] (matchups (agg st))) /\
  characterPlaytime (agg st') = characterPlaytime (agg st) /\
  misc (agg st') = misc (agg st) /\
  skippedCount st' = skippedCount st /\
  sent st' = sent st.
Proof.
  intros Ha Hq Hk. cbv zeta.
  apply qualifying_data in Hq as [Hd Hst].
  destruct (data_character_names _ _ _ Hd) as [N1 N2].
  destruct (flags_of_data _ _ _ Hd) as [Hg _].
  assert (Hu : unknown_character (player_character_name d)
               || unknown_character (opponent_character_name d) = true).
  { rewrite N1, N2, !character_known_name, <- negb_andb, Hk. reflexivity. }
  assert (Hname : stage_name d = default "" (stage_at (stage_num d))).
  { destruct (processSingleReplay_data _ _ _ Hd) as (sd & _ & Hc).
    revert Hc Hst. unfold classify.
    destruct (PrimFloat.ltb (game_seconds_of gameData) 30); [discriminate|].
    destruct ((killCount gameData (playerIndex sd) =? 0)
              && (killCount gameData (opponentIndex sd) =? 0)); [discriminate|].
    intros [= <-]. cbn [stage_num stage_name]. unfold stage_invalid.
    destruct (stage_at (checked_stageId (sides_settings sd))) as [s|] eqn:Es; [|discriminate].
    intros _. apply stage_at_named in Es. cbn. now rewrite Es. }
  unfold handle_file, try_block.
  destruct (acquire file st) as [g st1] eqn:Hacq. cbn [fst] in Ha. subst g.
  apply acquire_frame in Hacq as (A1 & A2 & A3 & _).
  unfold account. rewrite Hd, Hst. unfold aggregate.
  cbn [agg set_agg stage_num add_totals]. rewrite Hst, Hu.
  cbn [finish fst agg set_agg init_matchups add_stage add_totals total_games total_wins
       matchups characterPlaytime misc skippedCount sent stage_totals].
  rewrite A1, A2, A3, Hg, Hname, or0_get_incr, or0_get_init_count, String.eqb_refl.
  repeat split; reflexivity.
Qed.

Lemma unknown_character_counts_without_matchup_witness :
  let file :=
    {| path := "u.slp"; digest := Some "0u";
       decoded := Some (Sample.replay Sample.alice Sample.bob 40 20 31 4 2 5400 50 120) |} in
  let st' := fst (handle_file (Sample.folder [file]) (filters_of Sample.me) 0 file (start ∅)) in
  total_games (agg st') = 0 + 1 /\ matchups (agg st') = Some [] /\ sent st' = [].
Proof.
  intros file st'.
  edestruct (unknown_character_counts_without_matchup
               (Sample.folder [file]) (filters_of Sample.me) 0%nat file (start ∅))
    as (H1 & _ & _ & H4 & _ & _ & _ & H8).
  - vm_compute. reflexivity.
  - vm_compute. reflexivity.
  - vm_compute. reflexivity.
  - split; [exact H1|]. split; [exact H4|exact H8].
Defined.

(** X24.  On a folder without replay files [analyzeReplays] resolves to
    the no-games report with all times ["00:00:00"], leaves the cache as
    it was read, sends no event and never calls the decoder. *)
Theorem empty_folder_reports_nothing (W : World) (o : Options) (disk : gmap string GameData) :
  files W = [] ->
  analyzeReplays W o disk
  = {| report := Some (nothing_found o); written := disk; events := []; decodes := 0 |}.
Proof.
  intros H. unfold analyzeReplays. rewrite H. reflexivity.
Qed.

Lemma empty_folder_reports_nothing_witness :
  report (analyzeReplays (Sample.folder []) Sample.me ∅) = Some (nothing_found Sample.me).
Proof.
  rewrite (empty_folder_reports_nothing (Sample.folder []) Sample.me ∅ eq_refl).
  reflexivity.
Defined.

(** ** Ties keep the order of first appearance *)

Section Stable.
Context {A : Type} (key : A -> Z).

Lemma filter_insert_desc (k : Z) (x : A) (l : list A) :
  List.filter (fun y => key y =? k) (Js.insert_desc key x l)
  = List.filter (fun y => key y =? k) (x :: l).
Proof.
  induction l as [|y l IH]; [reflexivity|].
  cbn [Js.insert_desc]. destruct (key x <? key y) eqn:E; [|reflexivity].
  apply Z.ltb_lt in E. cbn [List.filter] in *. rewrite IH.
  destruct (key x =? k) eqn:Ex, (key y =? k) eqn:Ey; try reflexivity.
  apply Z.eqb_eq in Ex, Ey. lia.
Qed.

Lemma filter_sort_desc (k : Z) (l : list A) :
  List.filter (fun y => key y =? k) (Js.sort_desc key l)
  = List.filter (fun y => key y =? k) l.
Proof.
  induction l as [|x l IH]; [reflexivity|].
  change (Js.sort_desc key (x :: l)) with (Js.insert_desc key x (Js.sort_desc key l)).
  rewrite filter_insert_desc. cbn [List.filter]. rewrite IH. reflexivity.
Qed.
End Stable.

Lemma filter_map_swap {A B} (p : B -> bool) (f : A -> B) (l : list A) :
  List.filter p (map f l) = map f (List.filter (fun x => p (f x)) l).
Proof.
  induction l as [|x l IH]; [reflexivity|]. cbn. rewrite IH. destruct (p (f x)); reflexivity.
Qed.

Lemma map_filter_ext {A B} (f g : A -> B) (p q : A -> bool) (l : list A) :
  (forall x, f x = g x) -> (forall x, p x = q x) ->
  map f (List.filter p l) = map g (List.filter q l).
Proof.
  intros Hf Hp. induction l as [|x l IH]; [reflexivity|].
  cbn. rewrite Hp. destruct (q x); cbn; rewrite ?Hf, IH; reflexivity.
Qed.

(** X25.  Stages with the same number of games are listed in the order in
    which the loop first met them: for every game count, the stages of
    the report with that count are those of the loop's table, in the same
    order. *)
Theorem stage_ties_keep_first_seen_order
    (W : World) (o : Options) (disk : gmap string GameData) (f : Found) (g : Z) :
  report (analyzeReplays W o disk) = Some (GamesFound f) ->
  let tally := stage_totals (agg (fst (loop W (filters_of o) 0 (files W) (start disk)))) in
  Js.keys (List.filter (fun e => se_games (snd e) =? g) (fd_stages f))
  = Js.keys (List.filter (fun kv => snd kv =? g) tally).
Proof.
  rewrite analyzeReplays_outcome. cbn [report]. intros [= Hf]. cbv zeta.
  pose proof (loop_consistent W (filters_of o) (files W) 0 (start disk) consistent_start) as HC.
  revert Hf. unfold build_report.
  set (st := fst (loop W (filters_of o) 0 (files W) (start disk))) in *.
  destruct (negb (truthy_Z (total_games (agg st)))); [discriminate|].
  intros [= <-]. cbn [fd_stages].
  pose proof (sort_desc_perm sr_games (stageResults (agg st))) as HP.
  assert (Hnd : NoDup (map sr_stage (Js.sort_desc sr_games (stageResults (agg st))))).
  { rewrite HP, stageResults_keys. apply HC. }
  rewrite (sortedStageResults_distinct _ Hnd). unfold Js.keys.
  rewrite filter_map_swap, map_map. cbn [snd fst se_games].
  rewrite (filter_sort_desc sr_games g). unfold stageResults.
  rewrite filter_map_swap, map_map.
  apply map_filter_ext; intros [k v]; reflexivity.
Qed.

Lemma stage_ties_keep_first_seen_order_witness :
  exists f,
    report (analyzeReplays (Sample.folder [Sample.fileE; Sample.fileA]) Sample.me ∅)
    = Some (GamesFound f) /\
    Js.keys (fd_stages f) = ["Final Destination"; "Battlefield"] /\
    Js.keys (List.filter (fun e => se_games (snd e) =? 1) (fd_stages f))
    = ["Final Destination"; "Battlefield"].
Proof.
  eexists. split; [vm_compute; reflexivity|]. split; [reflexivity|].
  rewrite (stage_ties_keep_first_seen_order
             (Sample.folder [Sample.fileE; Sample.fileA]) Sample.me ∅ _ 1);
    [|vm_compute; reflexivity].
  vm_compute. reflexivity.
Defined.

(** ** Throws, name breakdowns and narrower filters *)

Section FirstLargest.
Context {A : Type} (key : A -> Z).

Lemma head_insert_desc (x : A) (l : list A) :
  head (Js.insert_desc key x l)
  = match head l with
    | Some y => if key x <? key y then Some y else Some x
    | None => Some x
    end.
Proof. destruct l as [|y l]; [reflexivity|]. cbn. destruct (key x <? key y); reflexivity. Qed.

(** The head of the sorted list is the first of the largest. *)
Lemma head_sort_desc (l : list A) (x : A) :
  head (Js.sort_desc key l) = Some x ->
  exists before after,
    l = (before ++ x :: after)%list /\
    Forall (fun y => key y < key x) before /\
    Forall (fun y => key y <= key x) after.
Proof.
  revert x. induction l as [|z l IH]; intros x; [discriminate|].
  change (Js.sort_desc key (z :: l)) with (Js.insert_desc key z (Js.sort_desc key l)).
  rewrite head_insert_desc.
  destruct (head (Js.sort_desc key l)) as [y|] eqn:Hy.
  - destruct (IH y eq_refl) as (b & a & -> & Hb & Ha).
    destruct (key z <? key y) eqn:E; intros [= <-].
    + apply Z.ltb_lt in E. exists (z :: b), a. split; [reflexivity|].
      split; [constructor; assumption|exact Ha].
    + apply Z.ltb_ge in E. exists [], (b ++ y :: a)%list. split; [reflexivity|].
      split; [constructor|]. apply Forall_app. split.
      * eapply Forall_impl; [exact Hb|]. intros w Hw. simpl in Hw. lia.
      * constructor; [lia|]. eapply Forall_impl; [exact Ha|]. intros w Hw. simpl in Hw. lia.
  - intros [= <-]. destruct l as [|w l].
    + exists [], []. repeat split; constructor.
    + exfalso. pose proof (sort_desc_perm key (w :: l)) as HP.
      destruct (Js.sort_desc key (w :: l)); [|discriminate].
      apply Permutation_nil_l in HP. discriminate.
Qed.
End FirstLargest.

(** X26.  The top throw of the misc statistics is the first of [up],
    [down], [forward], [back] with the largest count: every direction
    before it has strictly fewer throws, every one after it at most as
    many. *)
Theorem top_throw_is_first_largest (a : Aggregates) :
  let t := throwCounts (misc a) in
  let top := (topThrowDir (miscStats a), topThrowCount (miscStats a)) in
  exists before after,
    throw_entries t = (before ++ top :: after)%list /\
    Forall (fun e => snd e < topThrowCount (miscStats a)) before /\
    Forall (fun e => snd e <= topThrowCount (miscStats a)) after.
Proof.
  cbv zeta. unfold miscStats. cbn [topThrowDir topThrowCount].
  destruct (head (sorted_throws (throwCounts (misc a)))) as [[dir n]|] eqn:H.
  - cbn [default fst snd]. apply head_sort_desc in H. exact H.
  - exfalso. unfold sorted_throws in H.
    pose proof (sort_desc_perm snd (throw_entries (throwCounts (misc a)))) as HP.
    unfold throw_entries in HP.
    destruct (Js.sort_desc snd _); [|discriminate].
    apply Permutation_nil_l in HP. discriminate.
Qed.

(** ** Narrower filters *)

Lemma tag_contains_mono identity l l' :
  (forall t, t ∈ l -> t ∈ l') -> tag_contains identity l -> tag_contains identity l'.
Proof.
  intros Hsub (tags & tag & req & H1 & H2 & H3 & H4).
  exists tags, tag, req. auto.
Qed.

Lemma character_mismatch_narrower f f' id :
  f = None \/ f' = f -> character_mismatch f' id = false -> character_mismatch f id = false.
Proof. intros [->| ->]; auto. Qed.

Lemma viewpoint_same_tags F F' p0 p1 :
  wantedPlayersLower F' = wantedPlayersLower F ->
  wantedOpponentLower F' = wantedOpponentLower F ->
  viewpoint F' p0 p1 = viewpoint F p0 p1.
Proof. intros H1 H2. unfold viewpoint. rewrite H1, H2. reflexivity. Qed.

Lemma resolveSides_narrower F F' gameData sd :
  Narrower F F' ->
  resolveSides F' gameData = Proceed sd -> resolveSides F gameData = Proceed sd.
Proof.
  intros [N1 N2 N3 N4 N5 N6]. unfold resolveSides.
  rewrite (viewpoint_same_tags F F' _ _ N1 N2).
  destruct (rankedOnly F' && negb (String.eqb (matchType_of gameData) "Ranked")) eqn:Hr;
    [discriminate|].
  assert (Hr' : rankedOnly F && negb (String.eqb (matchType_of gameData) "Ranked") = false).
  { destruct (rankedOnly F); [|reflexivity]. rewrite (N3 eq_refl) in Hr. exact Hr. }
  rewrite Hr'.
  destruct (negb (Js.truthy_string (displayName (participant gameData 0)))
            || negb (Js.truthy_string (displayName (participant gameData 1))));
    [discriminate|].
  destruct (length (default [] (gd_metadata gameData)) <? 2)%nat; [discriminate|].
  destruct (gd_settings gameData) as [settings|]; [|discriminate].
  destruct (players settings) as [ps|]; [|discriminate].
  destruct (length ps <? 2)%nat; [discriminate|].
  destruct (viewpoint F (participant gameData 0) (participant gameData 1))
    as [[self opp]|]; [|discriminate].
  destruct (isIgnoredOpponent _ (ignoredOpponentsLower F')) eqn:Hi; [discriminate|].
  match goal with
  | |- context [isIgnoredOpponent ?id (ignoredOpponentsLower F)] =>
      destruct (isIgnoredOpponent id (ignoredOpponentsLower F)) eqn:Hi'
  end.
  { exfalso. apply isIgnoredOpponent_spec in Hi'.
    apply (tag_contains_mono _ _ _ N4), isIgnoredOpponent_spec in Hi'. congruence. }
  destruct (character_mismatch (playerCharacterFilter F') _) eqn:Hc1; [discriminate|].
  rewrite (character_mismatch_narrower _ _ _ N5 Hc1).
  destruct (character_mismatch (opponentCharacterFilter F') _) eqn:Hc2; [discriminate|].
  rewrite (character_mismatch_narrower _ _ _ N6 Hc2).
  auto.
Qed.

(** X28.  Narrowing a request - switching the ranked gate on, ignoring
    more opponents, adding a character filter - with the tag filters left
    alone never brings in a match: whatever qualifies under the narrower
    filters qualifies, with the same data, under the wider ones. *)
Theorem narrower_filters_add_no_match (F F' : Filters) (gameData : GameData) (d : MatchData) :
  Narrower F F' ->
  qualifying F' gameData = Some d -> qualifying F gameData = Some d.
Proof.
  intros HN Hq. apply qualifying_data in Hq as [Hd Hst].
  destruct (processSingleReplay_data _ _ _ Hd) as (sd & Hs & Hc).
  apply (resolveSides_narrower _ _ _ _ HN) in Hs.
  unfold qualifying. rewrite (processSingleReplay_resolved _ _ _ Hs), Hc, Hst. reflexivity.
Qed.

Lemma narrower_filters_add_no_match_witness :
  let wide := filters_of Sample.me in
  let narrow :=
    filters_of {| playerTags := ["ALI#1"]; opponentTags := []; ignoredOpponents := ["carol"];
                  playerCharacter := Some "fox"; opponentCharacter := None;
                  opt_rankedOnly := false |} in
  exists d, qualifying narrow Sample.dataA = Some d /\ qualifying wide Sample.dataA = Some d.
Proof.
  intros wide narrow. eexists. split; [vm_compute; reflexivity|].
  apply (narrower_filters_add_no_match wide narrow).
  - split; try reflexivity; cbn.
    + discriminate.
    + intros t Ht. inversion Ht.
    + left. reflexivity.
    + left. reflexivity.
  - vm_compute. reflexivity.
Defined.

(** ** The matchup table *)

Lemma sum_of_set_weight {V} (w : V -> Z) k v (o : list (string * V)) :
  sum_of (fun kv => w (snd kv)) (Js.set k v o)
  = sum_of (fun kv => w (snd kv)) o - default 0 (w <$> Js.get k o) + w v.
Proof.
  induction o as [|[k' v'] o IH]; simpl; [lia|].
  destruct (String.eqb k' k); simpl; [lia|]. rewrite IH. lia.
Qed.

Lemma cell_games_bump pc oc d m :
  cell_games (bump_matchup pc oc d m) = cell_games m + 1.
Proof.
  unfold cell_games, bump_matchup.
  rewrite (sum_of_set_weight (fun row => sum_of (fun oc => games (snd oc)) row)).
  unfold bump_cell. rewrite (sum_of_set_weight games). cbn [games].
  destruct (Js.get pc m) as [row|]; cbn.
  - destruct (Js.get oc row) as [c|]; cbn; unfold sum_of; lia.
  - unfold sum_of. lia.
Qed.

Lemma keys_init_time k o : Js.keys (init_time k o) = Js.keys (Js.set k PrimFloat.zero o).
Proof.
  unfold init_time. destruct (Js.get k o) as [x|] eqn:E; [|reflexivity].
  destruct (Js.truthy_num x); [|reflexivity].
  symmetry. apply keys_set_present, get_keys. eauto.
Qed.

Lemma keys_add_time k x o : Js.keys (add_time k x (init_time k o))
                            = Js.keys (Js.set k PrimFloat.zero o).
Proof.
  unfold add_time. rewrite keys_set_present; [apply keys_init_time|].
  rewrite keys_init_time. apply elem_of_keys_set. auto.
Qed.

Lemma paired_start : Paired no_aggregates.
Proof. split; cbn; [reflexivity|lia]. Qed.

Lemma paired_counted gameData d a :
  flags_ok d -> Paired a -> Paired (counted gameData d a).
Proof.
  intros [Hg _] [P1 P2]. unfold counted.
  destruct (unknown_character (player_character_name d)
            || unknown_character (opponent_character_name d)).
  - split; [exact P1|].
    change (cell_games (default [] (matchups a)) <= total_games a + res_total_games d).
    rewrite Hg. lia.
  - split.
    + change (Js.keys (add_time (player_character_name d) (res_game_seconds d)
                         (init_time (player_character_name d) (characterPlaytime a)))
              = Js.keys (bump_matchup (player_character_name d) (opponent_character_name d) d
                           (default [] (matchups a)))).
      rewrite keys_add_time, keys_set, bump_matchup_keys, P1. reflexivity.
    + change (cell_games (bump_matchup (player_character_name d) (opponent_character_name d) d
                            (default [] (matchups a)))
              <= total_games a + res_total_games d).
      rewrite cell_games_bump, Hg. lia.
Qed.

Lemma loop_paired W F fs : forall i st,
  Paired (agg st) -> Paired (agg (fst (loop W F i fs st))).
Proof.
  induction fs as [|file rest IH]; intros i st HB; [exact HB|].
  rewrite loop_cons. destruct (cancelRequested st); [destruct (win W); exact HB|].
  apply IH.
  pose proof (handle_file_tally W F i file (yield W i st)) as H. cbv zeta in H.
  change (agg (yield W i st)) with (agg st) in H.
  destruct (fst (acquire file (yield W i st))) as [gd|].
  - destruct (qualifying F gd) as [d|] eqn:Hq; destruct H as [-> _]; [|exact HB].
    apply paired_counted; [eapply qualifying_flags, Hq|exact HB].
  - destruct H as [-> _]. exact HB.
Qed.

Lemma sum_of_concat {A} (f : A -> Z) (ll : list (list A)) :
  sum_of f (concat ll) = sum_of (sum_of f) ll.
Proof.
  induction ll as [|l ll IH]; [reflexivity|].
  change (concat (l :: ll)) with (l ++ concat ll)%list.
  rewrite sum_of_app, IH. reflexivity.
Qed.

Lemma matchup_games_sum m :
  sum_of (fun g => g) (matchup_games (MatchupTable m)) = cell_games m.
Proof.
  unfold matchup_games, cell_games. rewrite sum_of_concat, sum_of_map.
  apply sum_of_ext, Forall_forall. intros [k row] _. cbn. rewrite sum_of_map.
  apply sum_of_ext, Forall_forall. intros [k' c] _. reflexivity.
Qed.

(** X29.  In every report with games the [matchups] property is the
    loop's table, its rows are the characters of the character playtime
    table in the same order, and the games of its cells add up to at most
    [totalGames]. *)
Theorem matchup_table_within_games
    (W : World) (o : Options) (disk : gmap string GameData) (f : Found) :
  report (analyzeReplays W o disk) = Some (GamesFound f) ->
  exists m,
    fd_matchups f = MatchupTable m /\
    Js.keys (fd_characterPlaytime f) = Js.keys m /\
    sum_of (fun g => g) (matchup_games (fd_matchups f)) <= totalGames f.
Proof.
  rewrite analyzeReplays_outcome. cbn [report]. intros [= Hf].
  pose proof (loop_paired W (filters_of o) (files W) 0 (start disk) paired_start) as [P1 P2].
  pose proof (loop_matchups W (filters_of o) (files W) 0 (start disk) (or_introl eq_refl)) as HM.
  revert Hf. unfold build_report.
  set (st := fst (loop W (filters_of o) 0 (files W) (start disk))) in *.
  destruct (negb (truthy_Z (total_games (agg st)))) eqn:Hz; [discriminate|].
  intros [= <-]. cbn [fd_matchups fd_characterPlaytime totalGames].
  apply negb_false_iff in Hz. unfold truthy_Z in Hz. apply negb_true_iff, Z.eqb_neq in Hz.
  destruct HM as [HM|[m HM]]; [contradiction|].
  rewrite HM in *.
  change (Js.keys (characterPlaytime (agg st)) = Js.keys m) in P1.
  change (cell_games m <= total_games (agg st)) in P2.
  exists m. split; [reflexivity|]. split.
  - rewrite <- P1. unfold Js.keys. rewrite map_map. apply map_ext. intros [c t]. reflexivity.
  - rewrite matchup_games_sum. exact P2.
Qed.

Lemma matchup_table_within_games_witness :
  exists f,
    report (analyzeReplays (Sample.folder [Sample.fileA; Sample.fileE; Sample.fileF])
              Sample.me ∅) = Some (GamesFound f) /\
    totalGames f = 3 /\
    Js.keys (fd_characterPlaytime f) = ["Fox"; "Marth"] /\
    exists m, fd_matchups f = MatchupTable m /\ Js.keys (fd_characterPlaytime f) = Js.keys m.
Proof.
  eexists. split; [vm_compute; reflexivity|]. split; [reflexivity|]. split; [reflexivity|].
  edestruct (matchup_table_within_games
               (Sample.folder [Sample.fileA; Sample.fileE; Sample.fileF]) Sample.me ∅)
    as (m & H1 & H2 & _); [vm_compute; reflexivity|].
  exists m. split; [exact H1|exact H2].
Defined.
